(** * Interactive geometry engine of the annotator: a shallow embedding

    The development follows [AnnotationCanvas] (pointer handlers, hit
    tests, resize and divider arithmetic, fit and centring), [gridUtils]
    and [toleranceUtils], the rows / cols inputs, the multi-selection
    and the icon list of [ElementList], the hooks [useAnnotationState],
    [useViewState] and [useToolState], and [handleApplyCrop] of the page.

    Numbers.  A JavaScript [number] is modelled by an exact rational
    ([Q]).  Every arithmetic step of the source that can leave the finite
    numbers (a division by zero, a read past the end of an array used
    in arithmetic) is made explicit: the embedding then answers [None].
    Rounding error of IEEE doubles is outside this model. *)

From Stdlib Require Import String DecimalString.
From Stdlib Require Import QArith Qminmax Qabs Qround ZArith List Bool Lia Lqa.
Import ListNotations.
Open Scope Q_scope.

(** ** A small error monad: [None] stands for a non-finite number *)

Definition bind {A B : Type} (c : option A) (k : A -> option B) : option B :=
  match c with
  | Some a => k a
  | None => None
  end.

Notation "x <- c ;; k" := (bind c (fun x => k))
  (at level 61, c at next level, right associativity).

(** ** Numbers *)

Module Num.

Definition ltb (a b : Q) : bool := negb (Qle_bool b a).
Definition leb (a b : Q) : bool := Qle_bool a b.
Definition geb (a b : Q) : bool := Qle_bool b a.

(** [a / b]; the source yields [Infinity] or [NaN] when [b] is zero. *)
Definition div (a b : Q) : option Q :=
  if Qeq_bool b 0 then None else Some (a / b).

(** [Math.round]: the nearest integer, halves towards plus infinity. *)
Definition round (a : Q) : Q := inject_Z (Qfloor (a + (1 # 2))).

Definition ofNat (n : nat) : Q := inject_Z (Z.of_nat n).

End Num.

(** ** Arrays *)

Module Arr.

(** [Array(n).fill(v)] *)
Definition fill {A : Type} (n : nat) (v : A) : list A := repeat v n.

(** [l.slice(s, e)], negative indices counting from the end. *)
Definition slice {A : Type} (l : list A) (s e : Z) : list A :=
  let len := Z.of_nat (length l) in
  let k := if (s <? 0)%Z then Z.max (len + s) 0 else Z.min s len in
  let f := if (e <? 0)%Z then Z.max (len + e) 0 else Z.min e len in
  firstn (Z.to_nat (f - k)) (skipn (Z.to_nat k) l).

(** [l.slice(s)] *)
Definition sliceFrom {A : Type} (l : list A) (s : Z) : list A :=
  slice l s (Z.of_nat (length l)).

(** [l.reduce((a, b) => a + b, 0)] *)
Definition sum (l : list Q) : Q := fold_left Qplus l 0.

(** [l[i]] used in arithmetic: [undefined] would give [NaN]. *)
Definition get (l : list Q) (i : nat) : option Q := nth_error l i.

(** [l[i] = v] for an index inside the array. *)
Fixpoint set (l : list Q) (i : nat) (v : Q) : list Q :=
  match l, i with
  | [], _ => []
  | _ :: t, O => v :: t
  | h :: t, S j => h :: set t j v
  end.

(** Element-wise rational equality of two arrays. *)
Definition eqv (l1 l2 : list Q) : Prop := Forall2 Qeq l1 l2.

End Arr.

(** ** Data model *)

Record BBox := mkBBox { x : Q; y : Q; width : Q; height : Q }.

Record Point := mkPoint { px : Q; py : Q }.

Record IconDefinition := mkIcon {
  elementId : string;
  centerX : Q;
  centerY : Q
}.

(** The declaration of [UIElement] lives in [types/annotation], which the
    handlers only import; the fields below are the ones they read or
    write, with [type] and [id] the strings they are in the source. *)
Record UIElement := mkElement {
  id : string;
  type : string;
  bbox : BBox;
  text : option string;
  rows : option nat;
  cols : option nat;
  rowHeights : option (list Q);
  colWidths : option (list Q);
  parentId : option string;
  icons : list IconDefinition;
  maskColor : option string;
  hAlign : option string;
  vAlign : option string
}.

(** [{ ...el, bbox: b }] and its siblings *)
Definition withBBox (el : UIElement) (b : BBox) : UIElement :=
  mkElement (id el) (type el) b (text el) (rows el) (cols el)
            (rowHeights el) (colWidths el) (parentId el) (icons el)
            (maskColor el) (hAlign el) (vAlign el).

Definition withColWidths (el : UIElement) (ws : option (list Q)) : UIElement :=
  mkElement (id el) (type el) (bbox el) (text el) (rows el) (cols el)
            (rowHeights el) ws (parentId el) (icons el)
            (maskColor el) (hAlign el) (vAlign el).

Definition withRowHeights (el : UIElement) (hs : option (list Q)) : UIElement :=
  mkElement (id el) (type el) (bbox el) (text el) (rows el) (cols el)
            hs (colWidths el) (parentId el) (icons el)
            (maskColor el) (hAlign el) (vAlign el).

Definition withRows (el : UIElement) (r : option nat) : UIElement :=
  mkElement (id el) (type el) (bbox el) (text el) r (cols el)
            (rowHeights el) (colWidths el) (parentId el) (icons el)
            (maskColor el) (hAlign el) (vAlign el).

Definition withCols (el : UIElement) (c : option nat) : UIElement :=
  mkElement (id el) (type el) (bbox el) (text el) (rows el) c
            (rowHeights el) (colWidths el) (parentId el) (icons el)
            (maskColor el) (hAlign el) (vAlign el).

(** [el.rows || 1]: an absent or zero count reads as one. *)
Definition orOne (n : option nat) : nat :=
  match n with
  | Some (S k) => S k
  | _ => 1%nat
  end.

(** [a && a.length === n ? [...a] : Array(n).fill(1 / n)] *)
Definition fractionsOr (a : option (list Q)) (n : nat) : list Q :=
  match a with
  | Some l => if Nat.eqb (length l) n then l else Arr.fill n (1 / Num.ofNat n)
  | None => Arr.fill n (1 / Num.ofNat n)
  end.

(** [elements.find(el => el.id === i)] *)
Definition findById (els : list UIElement) (i : string) : option UIElement :=
  find (fun el => String.eqb (id el) i) els.

(** [prev.map(el => el.id === i ? f(el) : el)] *)
Definition mapById (i : string) (f : UIElement -> UIElement)
           (els : list UIElement) : list UIElement :=
  map (fun el => if String.eqb (id el) i then f el else el) els.

(** ** Row / column count change ([ElementList], rows and cols inputs) *)

(** What the text input holds: the empty string, a string [parseInt]
    reads as [num], or one it reads as [NaN]. *)
Inductive InputValue :=
| Blank
| Digits (num : Z)
| Garbage.

(** [Partial<UIElement>] as the three inputs build it: [{ rows,
    rowHeights }], [{ cols, colWidths }] and [{ rows, cols }]. *)
Inductive Updates :=
| RowsUpdate (r : option nat) (hs : option (list Q))
| ColsUpdate (c : option nat) (ws : option (list Q))
| CellsUpdate (r : option nat) (c : option nat).

Definition applyUpdates (u : Updates) (el : UIElement) : UIElement :=
  match u with
  | RowsUpdate r hs => withRowHeights (withRows el r) hs
  | ColsUpdate c ws => withColWidths (withCols el c) ws
  | CellsUpdate r c => withCols (withRows el r) c
  end.

(** [updateElement] of [useAnnotationState], on the collection. *)
Definition updateElement (i : string) (u : Updates)
           (els : list UIElement) : list UIElement :=
  mapById i (applyUpdates u) els.

(** The body shared by both inputs: [old] are the fractions in force,
    [oldN] the old count, [num] the new one. *)
Definition changeCount (old : list Q) (oldN num : nat) : option (list Q) :=
  if (oldN <? num)%nat then
    let addCount := (num - oldN)%nat in
    lastSize <- Arr.get old (oldN - 1) ;;
    let splitSize := lastSize / Num.ofNat (addCount + 1) in
    Some (Arr.slice old 0 (-1) ++ Arr.fill (addCount + 1) splitSize)
  else if (num <? oldN)%nat then
    let removed := Arr.sliceFrom old (Z.of_nat num - 1) in
    let removedSum := Arr.sum removed in
    Some (Arr.slice old 0 (Z.of_nat num - 1) ++ [removedSum])
  else Some old.

(** [onChange] of the rows input; the result is the collection after
    [onUpdateElement]. *)
Definition rowsOnChange (selectedElement : UIElement) (val : InputValue)
           (els : list UIElement) : option (list UIElement) :=
  match val with
  | Blank => Some (updateElement (id selectedElement) (RowsUpdate None None) els)
  | Garbage => Some els
  | Digits num =>
      if ((1 <=? num) && (num <=? 50))%Z then
        let oldRows := orOne (rows selectedElement) in
        let oldHeights := fractionsOr (rowHeights selectedElement) oldRows in
        newHeights <- changeCount oldHeights oldRows (Z.to_nat num) ;;
        Some (updateElement (id selectedElement)
                (RowsUpdate (Some (Z.to_nat num)) (Some newHeights)) els)
      else Some els
  end.

(** [onChange] of the cols input. *)
Definition colsOnChange (selectedElement : UIElement) (val : InputValue)
           (els : list UIElement) : option (list UIElement) :=
  match val with
  | Blank => Some (updateElement (id selectedElement) (ColsUpdate None None) els)
  | Garbage => Some els
  | Digits num =>
      if ((1 <=? num) && (num <=? 20))%Z then
        let oldCols := orOne (cols selectedElement) in
        let oldWidths := fractionsOr (colWidths selectedElement) oldCols in
        newWidths <- changeCount oldWidths oldCols (Z.to_nat num) ;;
        Some (updateElement (id selectedElement)
                (ColsUpdate (Some (Z.to_nat num)) (Some newWidths)) els)
      else Some els
  end.







(** ** Grid positions ([gridUtils]) *)

Record GridPositions := mkGrid {
  colPositions : list Q;
  rowPositions : list Q;
  colBounds : list Q;
  rowBounds : list Q
}.

(** [for (c ...) { cum += fr[c] * span; out.push(cum) }] *)
Fixpoint cumulate (cum : Q) (fr : list Q) (span : Q) : list Q :=
  match fr with
  | [] => []
  | f :: rest => let cum' := cum + f * span in cum' :: cumulate cum' rest span
  end.

(** Divider coordinates along one axis: [origin], [span] of the bbox,
    [n] cells, [fr] the explicit fractions if any. *)
Definition positions (origin span : Q) (n : nat) (fr : option (list Q)) : list Q :=
  let uniform :=
    let cell := span / Num.ofNat n in
    map (fun c => origin + Num.ofNat c * cell) (seq 1 (n - 1)) in
  match fr with
  | Some l =>
      if Nat.eqb (length l) n then cumulate origin (firstn (n - 1) l) span
      else uniform
  | None => uniform
  end.

Definition getGridPositions (el : UIElement) : GridPositions :=
  let nrows := orOne (rows el) in
  let ncols := orOne (cols el) in
  let b := bbox el in
  let cps := positions (x b) (width b) ncols (colWidths el) in
  let rps := positions (y b) (height b) nrows (rowHeights el) in
  mkGrid cps rps
         ([x b] ++ cps ++ [x b + width b])
         ([y b] ++ rps ++ [y b + height b]).

(** ** Component props and state ([AnnotationCanvas]) *)

Module Edge.
Inductive t := n | s | e | w | ne | nw | se | sw.
End Edge.

Inductive Axis := row | col.

Inductive DrawMode := single | grid.

Record Divider := mkDivider {
  dividerElementId : string;
  dividerType : Axis;
  dividerIndex : nat
}.

Record DraggingDivider := mkDragging {
  target : Divider;
  startPos : Q
}.

(** [{ x, y, bbox }] of [resizeStart] and [cropResizeStart] *)
Record ResizeStart := mkResizeStart {
  startX : Q;
  startY : Q;
  startBBox : BBox
}.

Record MouseEvent := mkMouseEvent {
  button : Z;
  altKey : bool;
  clientX : Q;
  clientY : Q
}.

Record Props := mkProps {
  imageUrl : bool;                       (* [imageUrl] is not null *)
  imageSize : option (Q * Q);
  elements : list UIElement;
  selectedElementId : option string;
  hasOnElementCreated : bool;
  currentType : string;
  drawMode : DrawMode;
  gridRows : nat;
  gridCols : nat;
  isColorSampling : bool;
  hasOnColorSampled : bool;
  zoomLevel : Q;
  isCropMode : bool;
  cropRect : option BBox;
  hasOnCropRectChange : bool;
  isIconPlacementMode : bool;
  hasOnIconPlaced : bool
}.

Record State := mkState {
  canvas : option Point;                 (* left / top of the mounted canvas *)
  isDrawing : bool;
  startPoint : option Point;
  currentRect : option BBox;
  baseScale : Q;
  offset : Point;
  pan : Point;
  isPanning : bool;
  panStart : Point;
  resizeEdge : option Edge.t;
  resizeStart : option ResizeStart;
  hoverEdge : option Edge.t;
  spaceHeld : bool;
  draggingDivider : option DraggingDivider;
  hoverDivider : option Divider;
  cropResizeEdge : option Edge.t;
  cropResizeStart : option ResizeStart;
  hoverCropEdge : option Edge.t
}.

(** What a handler hands to the owner through its callbacks. *)
Inductive Notification :=
| ElementsChange (els : list UIElement)
| SelectElement (i : option string)
| ElementCreated (el : UIElement)
| ColorSampled (canvasX canvasY : Q)
| CropRectChange (rect : BBox)
| IconPlaced (i : string) (icon : IconDefinition).

(** State setters, one per [useState] pair the handlers call. *)
Definition setDrawing (st : State) (d : bool) (sp : option Point)
           (r : option BBox) : State :=
  mkState (canvas st) d sp r (baseScale st) (offset st) (pan st)
          (isPanning st) (panStart st) (resizeEdge st) (resizeStart st)
          (hoverEdge st) (spaceHeld st) (draggingDivider st) (hoverDivider st)
          (cropResizeEdge st) (cropResizeStart st) (hoverCropEdge st).

Definition setCurrentRect (st : State) (r : option BBox) : State :=
  setDrawing st (isDrawing st) (startPoint st) r.

Definition setPan (st : State) (v : Point) : State :=
  mkState (canvas st) (isDrawing st) (startPoint st) (currentRect st)
          (baseScale st) (offset st) v
          (isPanning st) (panStart st) (resizeEdge st) (resizeStart st)
          (hoverEdge st) (spaceHeld st) (draggingDivider st) (hoverDivider st)
          (cropResizeEdge st) (cropResizeStart st) (hoverCropEdge st).

Definition setPanning (st : State) (b : bool) (start : Point) : State :=
  mkState (canvas st) (isDrawing st) (startPoint st) (currentRect st)
          (baseScale st) (offset st) (pan st)
          b start (resizeEdge st) (resizeStart st)
          (hoverEdge st) (spaceHeld st) (draggingDivider st) (hoverDivider st)
          (cropResizeEdge st) (cropResizeStart st) (hoverCropEdge st).

Definition setResize (st : State) (ed : option Edge.t)
           (rs : option ResizeStart) : State :=
  mkState (canvas st) (isDrawing st) (startPoint st) (currentRect st)
          (baseScale st) (offset st) (pan st)
          (isPanning st) (panStart st) ed rs
          (hoverEdge st) (spaceHeld st) (draggingDivider st) (hoverDivider st)
          (cropResizeEdge st) (cropResizeStart st) (hoverCropEdge st).

Definition setDraggingDivider (st : State) (d : option DraggingDivider) : State :=
  mkState (canvas st) (isDrawing st) (startPoint st) (currentRect st)
          (baseScale st) (offset st) (pan st)
          (isPanning st) (panStart st) (resizeEdge st) (resizeStart st)
          (hoverEdge st) (spaceHeld st) d (hoverDivider st)
          (cropResizeEdge st) (cropResizeStart st) (hoverCropEdge st).

Definition setCropResize (st : State) (ed : option Edge.t)
           (rs : option ResizeStart) : State :=
  mkState (canvas st) (isDrawing st) (startPoint st) (currentRect st)
          (baseScale st) (offset st) (pan st)
          (isPanning st) (panStart st) (resizeEdge st) (resizeStart st)
          (hoverEdge st) (spaceHeld st) (draggingDivider st) (hoverDivider st)
          ed rs (hoverCropEdge st).

Definition setHover (st : State) (he : option Edge.t) (hd : option Divider) : State :=
  mkState (canvas st) (isDrawing st) (startPoint st) (currentRect st)
          (baseScale st) (offset st) (pan st)
          (isPanning st) (panStart st) (resizeEdge st) (resizeStart st)
          he (spaceHeld st) (draggingDivider st) hd
          (cropResizeEdge st) (cropResizeStart st) (hoverCropEdge st).

Definition setHoverCropEdge (st : State) (he : option Edge.t) : State :=
  mkState (canvas st) (isDrawing st) (startPoint st) (currentRect st)
          (baseScale st) (offset st) (pan st)
          (isPanning st) (panStart st) (resizeEdge st) (resizeStart st)
          (hoverEdge st) (spaceHeld st) (draggingDivider st) (hoverDivider st)
          (cropResizeEdge st) (cropResizeStart st) he.

(** Props setters, for the three values the owner replaces. *)
Definition setElements (p : Props) (els : list UIElement) : Props :=
  mkProps (imageUrl p) (imageSize p) els (selectedElementId p)
          (hasOnElementCreated p) (currentType p) (drawMode p)
          (gridRows p) (gridCols p) (isColorSampling p) (hasOnColorSampled p)
          (zoomLevel p) (isCropMode p) (cropRect p) (hasOnCropRectChange p)
          (isIconPlacementMode p) (hasOnIconPlaced p).

Definition setSelectedElementId (p : Props) (i : option string) : Props :=
  mkProps (imageUrl p) (imageSize p) (elements p) i
          (hasOnElementCreated p) (currentType p) (drawMode p)
          (gridRows p) (gridCols p) (isColorSampling p) (hasOnColorSampled p)
          (zoomLevel p) (isCropMode p) (cropRect p) (hasOnCropRectChange p)
          (isIconPlacementMode p) (hasOnIconPlaced p).

Definition setCropRect (p : Props) (r : option BBox) : Props :=
  mkProps (imageUrl p) (imageSize p) (elements p) (selectedElementId p)
          (hasOnElementCreated p) (currentType p) (drawMode p)
          (gridRows p) (gridCols p) (isColorSampling p) (hasOnColorSampled p)
          (zoomLevel p) (isCropMode p) r (hasOnCropRectChange p)
          (isIconPlacementMode p) (hasOnIconPlaced p).

Definition EDGE_THRESHOLD : Q := 8.
Definition DIVIDER_THRESHOLD : Q := 6.

(** [const scale = baseScale * zoomLevel] *)
Definition scale (p : Props) (st : State) : Q := baseScale st * zoomLevel p.

(** A string id is truthy when it is present and not empty. *)
Definition truthy (i : option string) : bool :=
  match i with
  | Some s => negb (String.eqb s EmptyString)
  | None => false
  end.

(** ** Hit tests *)

(** Index of the first entry satisfying [f], as the [for] loops return it. *)
Fixpoint findIndexFrom (f : Q -> bool) (l : list Q) (i : nat) : option nat :=
  match l with
  | [] => None
  | a :: rest => if f a then Some i else findIndexFrom f rest (S i)
  end.

Definition detectDividerIn (threshold : Q) (pos : Point) (el : UIElement)
  : option Divider :=
  let nrows := orOne (rows el) in
  let ncols := orOne (cols el) in
  if ((nrows <=? 1) && (ncols <=? 1))%nat then None else
  let b := bbox el in
  if Num.ltb (px pos) (x b - threshold)
     || Num.ltb (x b + width b + threshold) (px pos) then None else
  if Num.ltb (py pos) (y b - threshold)
     || Num.ltb (y b + height b + threshold) (py pos) then None else
  let g := getGridPositions el in
  match findIndexFrom
          (fun cp => Num.ltb (Qabs (px pos - cp)) threshold
                     && Num.geb (py pos) (y b)
                     && Num.leb (py pos) (y b + height b))
          (colPositions g) 0 with
  | Some c => Some (mkDivider (id el) col c)
  | None =>
      match findIndexFrom
              (fun rp => Num.ltb (Qabs (py pos - rp)) threshold
                         && Num.geb (px pos) (x b)
                         && Num.leb (px pos) (x b + width b))
              (rowPositions g) 0 with
      | Some r => Some (mkDivider (id el) row r)
      | None => None
      end
  end.

Fixpoint detectDividerAmong (threshold : Q) (pos : Point) (els : list UIElement)
  : option Divider :=
  match els with
  | [] => None
  | el :: rest =>
      match detectDividerIn threshold pos el with
      | Some d => Some d
      | None => detectDividerAmong threshold pos rest
      end
  end.

Definition detectDivider (p : Props) (st : State) (pos : Point)
  : option (option Divider) :=
  threshold <- Num.div DIVIDER_THRESHOLD (scale p st) ;;
  Some (detectDividerAmong threshold pos (elements p)).

(** The corner / edge test shared by [detectEdge] and [detectCropEdge]. *)
Definition edgeOf (threshold : Q) (pos : Point) (b : BBox) : option Edge.t :=
  let right := x b + width b in
  let bottom := y b + height b in
  let nearLeft := Num.ltb (Qabs (px pos - x b)) threshold in
  let nearRight := Num.ltb (Qabs (px pos - right)) threshold in
  let nearTop := Num.ltb (Qabs (py pos - y b)) threshold in
  let nearBottom := Num.ltb (Qabs (py pos - bottom)) threshold in
  let withinX := Num.geb (px pos) (x b - threshold)
                 && Num.leb (px pos) (right + threshold) in
  let withinY := Num.geb (py pos) (y b - threshold)
                 && Num.leb (py pos) (bottom + threshold) in
  if nearTop && nearLeft && withinX && withinY then Some Edge.nw
  else if nearBottom && nearRight && withinX && withinY then Some Edge.se
  else if nearTop && nearRight && withinX && withinY then Some Edge.ne
  else if nearBottom && nearLeft && withinX && withinY then Some Edge.sw
  else if nearLeft && withinY then Some Edge.w
  else if nearRight && withinY then Some Edge.e
  else if nearTop && withinX then Some Edge.n
  else if nearBottom && withinX then Some Edge.s
  else None.

(** [elements.find(e => e.id === selectedElementId)] behind the guard
    [if (!selectedElementId) return null]. *)
Definition selectedElement (p : Props) : option UIElement :=
  match selectedElementId p with
  | Some i => if truthy (Some i) then findById (elements p) i else None
  | None => None
  end.

Definition detectEdge (p : Props) (st : State) (pos : Point)
  : option (option Edge.t) :=
  match selectedElement p with
  | None => Some None
  | Some el =>
      threshold <- Num.div EDGE_THRESHOLD (scale p st) ;;
      Some (edgeOf threshold pos (bbox el))
  end.

Definition detectCropEdge (p : Props) (st : State) (pos : Point)
  : option (option Edge.t) :=
  match cropRect p with
  | None => Some None
  | Some r =>
      threshold <- Num.div EDGE_THRESHOLD (scale p st) ;;
      Some (edgeOf threshold pos r)
  end.

(** ** Screen to image *)

Definition screenToImage (p : Props) (st : State) (screenX screenY : Q)
  : option Point :=
  match canvas st with
  | None => Some (mkPoint 0 0)
  | Some rect =>
      ix <- Num.div (screenX - px rect - px (offset st)) (scale p st) ;;
      iy <- Num.div (screenY - py rect - py (offset st)) (scale p st) ;;
      Some (mkPoint (Num.round ix) (Num.round iy))
  end.

(** ** Resize arithmetic *)

(** The [switch (resizeEdge)] of [handleMouseMove]. *)
Definition resized (edge : Edge.t) (orig : BBox) (dx dy : Q) : BBox :=
  match edge with
  | Edge.e => mkBBox (x orig) (y orig) (Qmax 10 (width orig + dx)) (height orig)
  | Edge.w => mkBBox (x orig + dx) (y orig) (Qmax 10 (width orig - dx)) (height orig)
  | Edge.s => mkBBox (x orig) (y orig) (width orig) (Qmax 10 (height orig + dy))
  | Edge.n => mkBBox (x orig) (y orig + dy) (width orig) (Qmax 10 (height orig - dy))
  | Edge.se => mkBBox (x orig) (y orig)
                      (Qmax 10 (width orig + dx)) (Qmax 10 (height orig + dy))
  | Edge.nw => mkBBox (x orig + dx) (y orig + dy)
                      (Qmax 10 (width orig - dx)) (Qmax 10 (height orig - dy))
  | Edge.ne => mkBBox (x orig) (y orig + dy)
                      (Qmax 10 (width orig + dx)) (Qmax 10 (height orig - dy))
  | Edge.sw => mkBBox (x orig + dx) (y orig)
                      (Qmax 10 (width orig - dx)) (Qmax 10 (height orig + dy))
  end.

(** The four assignments under [// Clamp to image bounds], in order. *)
Definition clampToImage (b : BBox) (imgW imgH : Q) : BBox :=
  let x1 := Qmax 0 (Qmin (x b) (imgW - 10)) in
  let y1 := Qmax 0 (Qmin (y b) (imgH - 10)) in
  let width1 := Qmin (width b) (imgW - x1) in
  let height1 := Qmin (height b) (imgH - y1) in
  mkBBox x1 y1 width1 height1.

(** The bbox a resize move commits: snapshot, pointer, image size. *)
Definition resizeMove (edge : Edge.t) (rs : ResizeStart) (pos : Point)
           (imgW imgH : Q) : BBox :=
  let dx := px pos - startX rs in
  let dy := py pos - startY rs in
  clampToImage (resized edge (startBBox rs) dx dy) imgW imgH.

(** ** Divider arithmetic *)

(** [ws.map(w => w / sum)] *)
Definition normalize (ws : list Q) : option (list Q) :=
  let total := Arr.sum ws in
  if Qeq_bool total 0 then None else Some (map (fun w => w / total) ws).

(** One axis of the divider branch of [handleMouseMove]: [fr] and [n]
    are the live fractions and count, [origin] and [span] the live bbox
    along the axis, [p] the pointer coordinate. *)
Definition moveDivider (fr : option (list Q)) (n : nat) (origin span p : Q)
           (index : nat) : option (list Q) :=
  let current := fractionsOr fr n in
  let newPos := Qmax (origin + 10) (Qmin p (origin + span - 10)) in
  newFraction <- Num.div (newPos - origin) span ;;
  let cumBefore := Arr.sum (firstn index current) in
  minSize <- Num.div 10 span ;;
  let leftCell := index in
  let rightCell := (index + 1)%nat in
  let newLeft := Qmax minSize (newFraction - cumBefore) in
  oldLeft <- Arr.get current leftCell ;;
  oldRight <- Arr.get current rightCell ;;
  let oldCombined := oldLeft + oldRight in
  let newRight := Qmax minSize (oldCombined - newLeft) in
  normalize (Arr.set (Arr.set current leftCell newLeft) rightCell newRight).

(** ** Selection by click *)

Definition contains (b : BBox) (pos : Point) : bool :=
  Num.geb (px pos) (x b) && Num.leb (px pos) (x b + width b)
  && Num.geb (py pos) (y b) && Num.leb (py pos) (y b + height b).

Definition area (b : BBox) : Q := width b * height b.

(** The [forEach] of [handleClick]; [None] is the initial [Infinity]. *)
Definition smallestAt (pos : Point) (els : list UIElement) : option UIElement :=
  fold_left
    (fun (clicked : option UIElement) (el : UIElement) =>
       if contains (bbox el) pos then
         match clicked with
         | None => Some el
         | Some best =>
             if Num.ltb (area (bbox el)) (area (bbox best)) then Some el
             else clicked
         end
       else clicked)
    els None.

Definition handleClick (p : Props) (st : State) (ev : MouseEvent)
  : option (list Notification) :=
  if negb (imageUrl p) then Some [] else
  if isIconPlacementMode p then Some [] else
  pos <- screenToImage p st (clientX ev) (clientY ev) ;;
  match smallestAt pos (elements p) with
  | Some el => Some [SelectElement (Some (id el))]
  | None => Some [SelectElement None]
  end.

(** ** Pointer handlers *)

(** [Date.now()] and the [Math.random()] suffix, read when an id is made. *)
Record Env := mkEnv { now : nat; random : string }.

Definition decimal (k : nat) : string := NilEmpty.string_of_uint (Nat.to_uint k).

Definition isIconContainer (ty : string) : bool :=
  String.eqb ty "iconlist" || String.eqb ty "toolbar" || String.eqb ty "menubar".

(** The tail of [handleMouseDown], from the icon placement test on. *)
Definition downIconOrDraw (env : Env) (p : Props) (st : State) (pos : Point)
  : State * list Notification :=
  let draw := (setDrawing st true (Some pos) (currentRect st), []) in
  if isIconPlacementMode p && truthy (selectedElementId p) && hasOnIconPlaced p then
    match selectedElement p with
    | Some selectedEl =>
        if isIconContainer (type selectedEl) then
          if contains (bbox selectedEl) pos then
            let relX := px pos - x (bbox selectedEl) in
            let relY := py pos - y (bbox selectedEl) in
            let iconId := ("icon_" ++ decimal (now env) ++ "_" ++ random env)%string in
            (st, [IconPlaced (id selectedEl) (mkIcon iconId relX relY)])
          else (st, [])
        else draw
    | None => draw
    end
  else draw.

Definition handleMouseDown (env : Env) (p : Props) (st : State) (ev : MouseEvent)
  : option (State * list Notification) :=
  if negb (imageUrl p) then Some (st, []) else
  if (button ev =? 1)%Z || altKey ev || spaceHeld st then
    Some (setPanning st true
            (mkPoint (clientX ev - px (pan st)) (clientY ev - py (pan st))), [])
  else
    pos <- screenToImage p st (clientX ev) (clientY ev) ;;
    divider <- detectDivider p st pos ;;
    match divider with
    | Some d =>
        let start := match dividerType d with col => px pos | row => py pos end in
        Some (setDraggingDivider st (Some (mkDragging d start)), [])
    | None =>
        edge <- detectEdge p st pos ;;
        match edge, selectedElement p with
        | Some ed, Some el =>
            Some (setResize st (Some ed)
                    (Some (mkResizeStart (px pos) (py pos) (bbox el))), [])
        | _, _ =>
            if isColorSampling p && hasOnColorSampled p then
              match canvas st with
              | None => Some (st, [])
              | Some _ =>
                  let canvasX := px pos * scale p st + px (offset st) in
                  let canvasY := py pos * scale p st + py (offset st) in
                  Some (st, [ColorSampled canvasX canvasY])
              end
            else if isCropMode p then
              cropEdge <- detectCropEdge p st pos ;;
              match cropEdge, cropRect p with
              | Some ce, Some cr =>
                  Some (setCropResize st (Some ce)
                          (Some (mkResizeStart (px pos) (py pos) cr)), [])
              | _, _ => Some (setDrawing st true (Some pos) (currentRect st), [])
              end
            else Some (downIconOrDraw env p st pos)
        end
    end.

(** The divider branch of [handleMouseMove]. *)
Definition moveDraggedDivider (p : Props) (dd : DraggingDivider) (pos : Point)
  : option (list Notification) :=
  let d := target dd in
  match findById (elements p) (dividerElementId d) with
  | None => Some []
  | Some el =>
      let b := bbox el in
      match dividerType d with
      | col =>
          normalizedWidths <-
            moveDivider (colWidths el) (orOne (cols el)) (x b) (width b)
                        (px pos) (dividerIndex d) ;;
          Some [ElementsChange
                  (mapById (dividerElementId d)
                     (fun el => withColWidths el (Some normalizedWidths))
                     (elements p))]
      | row =>
          normalizedHeights <-
            moveDivider (rowHeights el) (orOne (rows el)) (y b) (height b)
                        (py pos) (dividerIndex d) ;;
          Some [ElementsChange
                  (mapById (dividerElementId d)
                     (fun el => withRowHeights el (Some normalizedHeights))
                     (elements p))]
      end
  end.

(** The hover updates and the candidate rectangle, the tail of
    [handleMouseMove]. *)
Definition moveHoverAndDraw (p : Props) (st : State) (pos : Point)
  : option (State * list Notification) :=
  st1 <- (if negb (isDrawing st) && negb (isColorSampling p) && negb (isCropMode p)
          then
            divider <- detectDivider p st pos ;;
            match divider with
            | None => edge <- detectEdge p st pos ;; Some (setHover st edge None)
            | Some d => Some (setHover st None (Some d))
            end
          else Some st) ;;
  st2 <- (if isCropMode p && negb (isDrawing st)
             && match cropResizeEdge st with None => true | Some _ => false end
          then cropEdge <- detectCropEdge p st pos ;; Some (setHoverCropEdge st1 cropEdge)
          else Some st1) ;;
  match isDrawing st, startPoint st, imageSize p with
  | true, Some sp, Some (imgW, imgH) =>
      let clampedX := Qmax 0 (Qmin (px pos) imgW) in
      let clampedY := Qmax 0 (Qmin (py pos) imgH) in
      let rect := mkBBox (Qmin (px sp) clampedX) (Qmin (py sp) clampedY)
                         (Qabs (clampedX - px sp)) (Qabs (clampedY - py sp)) in
      if isCropMode p && hasOnCropRectChange p
      then Some (st2, [CropRectChange rect])
      else Some (setCurrentRect st2 (Some rect), [])
  | _, _, _ => Some (st2, [])
  end.

Definition handleMouseMove (p : Props) (st : State) (ev : MouseEvent)
  : option (State * list Notification) :=
  if isPanning st then
    Some (setPan st (mkPoint (clientX ev - px (panStart st))
                             (clientY ev - py (panStart st))), [])
  else
    pos <- screenToImage p st (clientX ev) (clientY ev) ;;
    match draggingDivider st with
    | Some dd => ns <- moveDraggedDivider p dd pos ;; Some (st, ns)
    | None =>
        match resizeEdge st, resizeStart st, selectedElementId p, imageSize p with
        | Some ed, Some rs, Some sel, Some (imgW, imgH) =>
            if truthy (Some sel) then
              let newBbox := resizeMove ed rs pos imgW imgH in
              Some (st, [ElementsChange
                           (mapById sel (fun el => withBBox el newBbox)
                                    (elements p))])
            else
              match cropResizeEdge st, cropResizeStart st, hasOnCropRectChange p with
              | Some ce, Some cs, true =>
                  Some (st, [CropRectChange (resizeMove ce cs pos imgW imgH)])
              | _, _, _ => moveHoverAndDraw p st pos
              end
        | _, _, _, Some (imgW, imgH) =>
            match cropResizeEdge st, cropResizeStart st, hasOnCropRectChange p with
            | Some ce, Some cs, true =>
                Some (st, [CropRectChange (resizeMove ce cs pos imgW imgH)])
            | _, _, _ => moveHoverAndDraw p st pos
            end
        | _, _, _, None => moveHoverAndDraw p st pos
        end
    end.

(** The elements a completed draw appends. *)
Definition created (env : Env) (p : Props) (currentRect : BBox)
  : list Notification :=
  let newId := ("el_" ++ decimal (now env))%string in
  let plain (r c : option nat) :=
    mkElement newId (currentType p) currentRect None r c
              None None None [] None None None in
  let announce (el : UIElement) :=
    [ElementsChange (elements p ++ [el]); SelectElement (Some (id el))]
    ++ (if hasOnElementCreated p then [ElementCreated el] else []) in
  match drawMode p with
  | grid =>
      if ((1 <? gridRows p) || (1 <? gridCols p))%nat then
        if String.eqb (currentType p) "listbox" then
          let cellWidth := width currentRect / Num.ofNat (gridCols p) in
          let cellHeight := height currentRect / Num.ofNat (gridRows p) in
          let containerElement :=
            mkElement newId (currentType p) currentRect (Some (currentType p))
                      (Some (gridRows p)) (Some (gridCols p))
                      None None None [] None None None in
          let cell (r c : nat) :=
            mkElement
              (newId ++ "_r" ++ decimal r ++ "_c" ++ decimal c)%string
              "label"
              (mkBBox (Num.round (x currentRect + Num.ofNat c * cellWidth))
                      (Num.round (y currentRect + Num.ofNat r * cellHeight))
                      (Num.round cellWidth) (Num.round cellHeight))
              (Some ("item_" ++ decimal (r * gridCols p + c + 1))%string)
              None None None None (Some newId) [] None None None in
          let cellElements :=
            flat_map (fun r => map (cell r) (seq 0 (gridCols p)))
                     (seq 0 (gridRows p)) in
          [ElementsChange (elements p ++ [containerElement] ++ cellElements);
           SelectElement (Some newId)]
        else announce (plain (Some (gridRows p)) (Some (gridCols p)))
      else announce (plain None None)
  | single => announce (plain None None)
  end.

Definition handleMouseUp (env : Env) (p : Props) (st : State) (ev : MouseEvent)
  : option (State * list Notification) :=
  if isPanning st then Some (setPanning st false (panStart st), []) else
  match draggingDivider st with
  | Some _ => Some (setDraggingDivider st None, [])
  | None =>
  match resizeEdge st with
  | Some _ => Some (setResize st None None, [])
  | None =>
  match cropResizeEdge st with
  | Some _ => Some (setCropResize st None None, [])
  | None =>
      if negb (isDrawing st) then Some (st, []) else
      if isCropMode p then Some (setDrawing st false None (currentRect st), []) else
      let click :=
        ns <- handleClick p st ev ;; Some (setDrawing st false None None, ns) in
      match currentRect st with
      | None => click
      | Some r =>
          if Num.ltb (width r) 10 && Num.ltb (height r) 10 then click
          else Some (setDrawing st false None None, created env p r)
      end
  end end end.

(** [onMouseLeave] *)
Definition handleMouseLeave (st : State) : State :=
  mkState (canvas st) false None None (baseScale st) (offset st) (pan st)
          false (panStart st) None None None (spaceHeld st) None None
          None None None.

(** ** The owner and the event loop *)

(** [onElementsChange], [onSelectElement] and [onCropRectChange] are the
    owner's setters; its reactions to the other callbacks are its own. *)
Definition notify (p : Props) (n : Notification) : Props :=
  match n with
  | ElementsChange els => setElements p els
  | SelectElement i => setSelectedElementId p i
  | CropRectChange r => setCropRect p (Some r)
  | ElementCreated _ | ColorSampled _ _ | IconPlaced _ _ => p
  end.

Definition deliver (p : Props) (ns : list Notification) : Props :=
  fold_left notify ns p.

Inductive Event :=
| Down (env : Env) (ev : MouseEvent)
| Move (ev : MouseEvent)
| Up (env : Env) (ev : MouseEvent)
| Leave
| External (edit : Props -> Props).     (* an edit made outside the canvas *)

(** One event.  The effects that recompute the scale and the offset
    are not part of a step: the offset in the state stays as given, so a
    run describes the conversions of the source as long as no pointer is
    converted after the pan has changed. *)
Definition step (w : Props * State) (e : Event) : option (Props * State) :=
  let (p, st) := w in
  match e with
  | Down env ev =>
      r <- handleMouseDown env p st ev ;; Some (deliver p (snd r), fst r)
  | Move ev =>
      r <- handleMouseMove p st ev ;; Some (deliver p (snd r), fst r)
  | Up env ev =>
      r <- handleMouseUp env p st ev ;; Some (deliver p (snd r), fst r)
  | Leave => Some (p, handleMouseLeave st)
  | External edit => Some (edit p, st)
  end.

Fixpoint run (w : Props * State) (es : list Event) : option (Props * State) :=
  match es with
  | [] => Some w
  | e :: rest => w' <- step w e ;; run w' rest
  end.

(** ** Words of the specification, kept apart from the source's *)

(** [v] clamped into the interval from [lo] to [hi]. *)
Definition clampInto (lo hi v : Q) : Q :=
  if Num.ltb v lo then lo else if Num.ltb hi v then hi else v.

(** The edges that move a vertical side, hence recompute the width. *)
Definition adjustsWidth (ed : Edge.t) : bool :=
  match ed with
  | Edge.n | Edge.s => false
  | _ => true
  end.

(** The edges that move a horizontal side, hence recompute the height. *)
Definition adjustsHeight (ed : Edge.t) : bool :=
  match ed with
  | Edge.e | Edge.w => false
  | _ => true
  end.

(** The split / merge rule of a count change from [R] to [R'], read off
    the arrays before ([old]) and after ([new]). *)
Definition splitMerged (old new : list Q) (R R' : nat) : Prop :=
  length new = R'
  /\ ((R < R')%nat ->
      exists lastF,
        nth_error old (R - 1) = Some lastF
        /\ firstn (R - 1) new = firstn (R - 1) old
        /\ skipn (R - 1) new
           = repeat (lastF / Num.ofNat (R' - R + 1)) (R' - R + 1))
  /\ ((R' < R)%nat ->
      firstn (R' - 1) new = firstn (R' - 1) old
      /\ skipn (R' - 1) new = [Arr.sum (skipn (R' - 1) old)]).


(** A grid element with [n] columns of explicit widths [ws]. *)
Definition colGrid (n : nat) (ws : list Q) : UIElement :=
  mkElement "g" "grid" (mkBBox 0 0 100 100) None None (Some n) None (Some ws)
            None [] None None None.

(** Count, fractions and span of an element along an axis, and the
    update of its fractions. *)
Definition countOn (a : Axis) (el : UIElement) : nat :=
  match a with
  | row => orOne (rows el)
  | col => orOne (cols el)
  end.

Definition fractionsOn (a : Axis) (el : UIElement) : option (list Q) :=
  match a with
  | row => rowHeights el
  | col => colWidths el
  end.

Definition spanOn (a : Axis) (el : UIElement) : Q :=
  match a with
  | row => height (bbox el)
  | col => width (bbox el)
  end.

Definition originOn (a : Axis) (el : UIElement) : Q :=
  match a with
  | row => y (bbox el)
  | col => x (bbox el)
  end.

Definition coordOn (a : Axis) (pos : Point) : Q :=
  match a with
  | row => py pos
  | col => px pos
  end.

Definition withFractions (a : Axis) (el : UIElement) (fr : option (list Q))
  : UIElement :=
  match a with
  | row => withRowHeights el fr
  | col => withColWidths el fr
  end.

(** The count input of an axis, its upper limit and the update it sends. *)
Definition countInput (a : Axis)
  : UIElement -> InputValue -> list UIElement -> option (list UIElement) :=
  match a with
  | row => rowsOnChange
  | col => colsOnChange
  end.

Definition countLimit (a : Axis) : Z :=
  match a with
  | row => 50%Z
  | col => 20%Z
  end.

Definition countUpdate (a : Axis) (k : nat) (fr : list Q) : Updates :=
  match a with
  | row => RowsUpdate (Some k) (Some fr)
  | col => ColsUpdate (Some k) (Some fr)
  end.



(** A whole number, as the browser gives the sizes of images and of
    containers. *)
Definition whole (q : Q) : Prop := exists z, q = inject_Z z.

(** Coordinates and fractions are compared up to a millionth where the
    code's double arithmetic can differ from the exact value in its last
    digits. *)
Definition TOLERANCE : Q := 1 # 1000000.

Definition close (a b : Q) : Prop := Qabs (a - b) <= TOLERANCE.

(** [fr] partitions [k] cells: one fraction per cell, summing to one
    (a fortiori within a millionth of it). *)
Definition partition (fr : list Q) (k : nat) : Prop :=
  length fr = k /\ Arr.sum fr == 1 /\ Qabs (Arr.sum fr - 1) <= 1 # 1000000.

(** A divider drag is active on the live element [el] and
    [handleMouseMove] reaches its branch. *)
Definition dragging (p : Props) (st : State) (dd : DraggingDivider)
           (el : UIElement) : Prop :=
  isPanning st = false /\ draggingDivider st = Some dd
  /\ findById (elements p) (dividerElementId (target dd)) = Some el.

(** A draw of a new element is in progress and [handleMouseUp] reaches
    its release branch. *)
Definition releasing (p : Props) (st : State) : Prop :=
  isPanning st = false /\ draggingDivider st = None
  /\ resizeEdge st = None /\ cropResizeEdge st = None
  /\ isDrawing st = true /\ isCropMode p = false.

(** [el] is an innermost element of [els] under [pos]: it contains the
    point and no element containing the point has a smaller area. *)
Definition innermost (pos : Point) (els : list UIElement) (el : UIElement)
  : Prop :=
  In el els /\ contains (bbox el) pos = true
  /\ forall other, In other els -> contains (bbox other) pos = true ->
                   area (bbox el) <= area (bbox other).

(** What a pointer-down can begin, in the order the rules are tried. *)
Inductive Entry :=
| EnterPanning
| EnterDividerDragging (d : Divider)
| EnterResizing (ed : Edge.t) (snapshot : BBox)
| SampleColor
| EnterCropResizing (ce : Edge.t) (snapshot : BBox)
| EnterCropDrawing
| PlaceIcon (container : UIElement)
| Absorb
| EnterDrawing.

(** Middle button, Alt, or space held. *)
Definition panTrigger (st : State) (ev : MouseEvent) : bool :=
  (button ev =? 1)%Z || altKey ev || spaceHeld st.

(** The selected icon container icon-placement mode works on, if any. *)
Definition iconTarget (p : Props) : option UIElement :=
  if isIconPlacementMode p && hasOnIconPlaced p then
    match selectedElement p with
    | Some el => if isIconContainer (type el) then Some el else None
    | None => None
    end
  else None.

(** The rules in order, first match wins, on the outcome of the three
    hit tests at [pos].  With icon placement active on a selected
    container, a press outside it is absorbed. *)
Definition entryOf (p : Props) (st : State) (ev : MouseEvent) (pos : Point)
           (divider : option Divider) (edge cropEdge : option Edge.t) : Entry :=
  if panTrigger st ev then EnterPanning else
  match divider with
  | Some d => EnterDividerDragging d
  | None =>
      match edge, selectedElement p with
      | Some ed, Some el => EnterResizing ed (bbox el)
      | _, _ =>
          if isColorSampling p && hasOnColorSampled p then SampleColor
          else if isCropMode p then
            match cropEdge, cropRect p with
            | Some ce, Some cr => EnterCropResizing ce cr
            | _, _ => EnterCropDrawing
            end
          else
            match iconTarget p with
            | Some el => if contains (bbox el) pos then PlaceIcon el else Absorb
            | None => EnterDrawing
            end
      end
  end.

(** The last two rules as the claim words them: a placement over the
    selected icon container, drawing otherwise. *)
Definition entryAsWorded (p : Props) (st : State) (ev : MouseEvent) (pos : Point)
           (divider : option Divider) (edge cropEdge : option Edge.t) : Entry :=
  match entryOf p st ev pos divider edge cropEdge with
  | Absorb => EnterDrawing
  | other => other
  end.

(** What each entry does to the component state, and what it notifies. *)
Definition enter (env : Env) (p : Props) (st : State) (ev : MouseEvent)
           (pos : Point) (en : Entry) : State * list Notification :=
  match en with
  | EnterPanning =>
      (setPanning st true
         (mkPoint (clientX ev - px (pan st)) (clientY ev - py (pan st))), [])
  | EnterDividerDragging d =>
      (setDraggingDivider st
         (Some (mkDragging d (coordOn (dividerType d) pos))), [])
  | EnterResizing ed snapshot =>
      (setResize st (Some ed)
         (Some (mkResizeStart (px pos) (py pos) snapshot)), [])
  | SampleColor =>
      (st, [ColorSampled (px pos * scale p st + px (offset st))
                         (py pos * scale p st + py (offset st))])
  | EnterCropResizing ce snapshot =>
      (setCropResize st (Some ce)
         (Some (mkResizeStart (px pos) (py pos) snapshot)), [])
  | EnterCropDrawing | EnterDrawing =>
      (setDrawing st true (Some pos) (currentRect st), [])
  | PlaceIcon container =>
      (st, [IconPlaced (id container)
              (mkIcon ("icon_" ++ decimal (now env) ++ "_" ++ random env)%string
                      (px pos - x (bbox container))
                      (py pos - y (bbox container)))])
  | Absorb => (st, [])
  end.


(** The conversion without its final rounding: the continuous image-space
    point under a client position. *)
Definition unrounded (p : Props) (st : State) (screenX screenY : Q)
  : option Point :=
  match canvas st with
  | None => Some (mkPoint 0 0)
  | Some rect =>
      ix <- Num.div (screenX - px rect - px (offset st)) (scale p st) ;;
      iy <- Num.div (screenY - py rect - py (offset st)) (scale p st) ;;
      Some (mkPoint ix iy)
  end.

(** [pos] with both coordinates rounded. *)
Definition roundPoint (pos : Point) : Point :=
  mkPoint (Num.round (px pos)) (Num.round (py pos)).

(** Both coordinates of [pos] are integers. *)
Definition integral (pos : Point) : Prop :=
  exists zx zy, px pos = inject_Z zx /\ py pos = inject_Z zy.


(** The fields no geometry mutation touches. *)
Definition presentationKept (el el' : UIElement) : Prop :=
  id el' = id el /\ type el' = type el /\ text el' = text el
  /\ rows el' = rows el /\ cols el' = cols el
  /\ parentId el' = parentId el /\ icons el' = icons el
  /\ maskColor el' = maskColor el
  /\ hAlign el' = hAlign el /\ vAlign el' = vAlign el.

(** [el'] is [el] up to its bbox. *)
Definition sameButBBox (el el' : UIElement) : Prop :=
  presentationKept el el'
  /\ rowHeights el' = rowHeights el /\ colWidths el' = colWidths el.

Definition otherAxis (a : Axis) : Axis :=
  match a with
  | row => col
  | col => row
  end.

(** [el'] is [el] up to its fractions along [a]. *)
Definition sameButFractions (a : Axis) (el el' : UIElement) : Prop :=
  presentationKept el el' /\ bbox el' = bbox el
  /\ fractionsOn (otherAxis a) el' = fractionsOn (otherAxis a) el.

(** [els'] is [els] position by position: the elements whose id is
    [i] are related by [R], every other element is the same. *)
Definition framed (i : string) (R : UIElement -> UIElement -> Prop)
           (els els' : list UIElement) : Prop :=
  Forall2 (fun el el' => if String.eqb (id el) i then R el el' else el' = el)
          els els'.


(** A resize session is active and [handleMouseMove] reaches its branch. *)
Definition resizing (p : Props) (st : State) (ed : Edge.t) (rs : ResizeStart)
           (sel : string) (imgW imgH : Q) : Prop :=
  isPanning st = false /\ draggingDivider st = None
  /\ resizeEdge st = Some ed /\ resizeStart st = Some rs
  /\ selectedElementId p = Some sel /\ truthy (Some sel) = true
  /\ imageSize p = Some (imgW, imgH).

(** ** Scenarios the statements below are evaluated on *)

(** A 1000 x 800 image, no element yet, single draw mode. *)
Definition blank : Props :=
  mkProps true (Some (1000, 800)) [] None true "button" single 1 1
          false true 1 false None true false true.

(** The same owner values at zoom level 4. *)
Definition zoomed : Props :=
  mkProps true (Some (1000, 800)) [] None true "button" single 1 1
          false true 4 false None true false true.

(** A mounted canvas at the window origin, base scale 1, nothing going on. *)
Definition idle : State :=
  mkState (Some (mkPoint 0 0)) false None None 1 (mkPoint 0 0) (mkPoint 0 0)
          false (mkPoint 0 0) None None None false None None None None None.

(** A left-button event without modifier at client position [(a, b)]. *)
Definition pointer (a b : Q) : MouseEvent := mkMouseEvent 0 false a b.

Definition clock : Env := mkEnv 42 "k3j9xq0zt".

Definition box (i : string) (b : BBox) : UIElement :=
  mkElement i "button" b None None None None None None [] None None None.

(** A selected 100 x 100 element at (50, 50) whose north-west corner
    is being dragged from (50, 50). *)
Definition cornerProps : Props :=
  setSelectedElementId (setElements blank [box "a" (mkBBox 50 50 100 100)])
                       (Some "a"%string).

Definition cornerState : State :=
  setResize idle (Some Edge.nw)
            (Some (mkResizeStart 50 50 (mkBBox 50 50 100 100))).

(** Two equal columns over a 100 x 100 element, the first divider held. *)
Definition dragProps : Props := setElements blank [colGrid 2 [1 # 2; 1 # 2]].

Definition dragState : State :=
  setDraggingDivider idle (Some (mkDragging (mkDivider "g" col 0) 53)).

(** Icon placement mode switched on over one unselected 100 x 100 box. *)
Definition iconModeProps : Props :=
  mkProps true (Some (1000, 800)) [box "a" (mkBBox 0 0 100 100)] None true
          "button" single 1 1 false true 1 false None true true true.

(** A small box inside a large one, and a 2 x 3 draw about to be released
    inside both. *)
Definition clickProps : Props :=
  setElements blank [box "a" (mkBBox 0 0 100 100); box "b" (mkBBox 10 10 20 20)].

Definition clickState : State :=
  setDrawing idle true (Some (mkPoint 15 15)) (Some (mkBBox 15 15 2 3)).

(** Three columns of explicit widths over a 100 x 100 element, and the same
    element after an edit of its widths made outside the canvas. *)
Definition threeProps : Props :=
  setElements blank [colGrid 3 [1 # 4; 1 # 4; 1 # 2]].

Definition editWidths (p : Props) : Props :=
  setElements p [colGrid 3 [1 # 10; 4 # 10; 1 # 2]].

(** Icon placement mode on a selected 100 x 100 toolbar. *)
Definition toolbarProps : Props :=
  mkProps true (Some (1000, 800))
          [mkElement "t" "toolbar" (mkBBox 0 0 100 100) None None None None None
                     None [] None None None]
          (Some "t"%string) true "button" single 1 1 false true 1
          false None true true true.

(** At zoom 4, a selected 100 x 100 element at (100, 100) whose east edge
    is being dragged from (200, 150). *)
Definition eastProps : Props :=
  setSelectedElementId (setElements zoomed [box "a" (mkBBox 100 100 100 100)])
                       (Some "a"%string).

Definition eastState : State :=
  setResize idle (Some Edge.e)
            (Some (mkResizeStart 200 150 (mkBBox 100 100 100 100))).

(** Grid draw mode, one row and two columns configured for the next draw. *)
Definition gridToolProps : Props :=
  mkProps true (Some (1000, 800)) [] None true "grid" grid 1 2
          false true 1 false None true false true.

(** ** Further words used by the statements on the canvas *)

(** The divider lines of [el] along [a], as [getGridPositions] gives them. *)
Definition linesOn (a : Axis) (el : UIElement) : list Q :=
  match a with
  | row => rowPositions (getGridPositions el)
  | col => colPositions (getGridPositions el)
  end.

(** The sides of the bbox an edge code names. *)
Definition north (ed : Edge.t) : bool :=
  match ed with Edge.n | Edge.ne | Edge.nw => true | _ => false end.

Definition south (ed : Edge.t) : bool :=
  match ed with Edge.s | Edge.se | Edge.sw => true | _ => false end.

Definition west (ed : Edge.t) : bool :=
  match ed with Edge.w | Edge.nw | Edge.sw => true | _ => false end.

Definition east (ed : Edge.t) : bool :=
  match ed with Edge.e | Edge.ne | Edge.se => true | _ => false end.

(** A draw of a new element from [sp] is in progress over an image of
    [imgW] x [imgH] and [handleMouseMove] reaches the candidate rectangle. *)
Definition drawingNew (p : Props) (st : State) (sp : Point) (imgW imgH : Q)
  : Prop :=
  isPanning st = false /\ draggingDivider st = None
  /\ resizeEdge st = None /\ cropResizeEdge st = None
  /\ isDrawing st = true /\ startPoint st = Some sp
  /\ imageSize p = Some (imgW, imgH) /\ isCropMode p = false.

(** No gesture session is open. *)
Definition quiet (st : State) : Prop :=
  isDrawing st = false /\ isPanning st = false
  /\ draggingDivider st = None /\ resizeEdge st = None
  /\ cropResizeEdge st = None.

(** Events that do not press a button nor edit the owner's values. *)
Definition passive (e : Event) : Prop :=
  match e with
  | Move _ | Up _ _ | Leave => True
  | Down _ _ | External _ => False
  end.

(** The pointer moves of a list of events, in order. *)
Definition isMove (e : Event) : Prop :=
  match e with
  | Move _ => True
  | _ => False
  end.

(** [pos.x * scale + offset.x], [pos.y * scale + offset.y]: the canvas
    pixel of an image point, as the color sampler and the renderer
    compute it. *)
Definition imageToCanvas (p : Props) (st : State) (pos : Point) : Point :=
  mkPoint (px pos * scale p st + px (offset st))
          (py pos * scale p st + py (offset st)).

(** Grid draw mode for list boxes, three rows and two columns. *)
Definition listboxToolProps : Props :=
  mkProps true (Some (1000, 800)) [] None true "listbox" grid 3 2
          false true 1 false None true false true.

(** The idle canvas with the pan at (7, 7) and the space key held. *)
Definition spaceHeldState : State :=
  mkState (Some (mkPoint 0 0)) false None None 1 (mkPoint 0 0) (mkPoint 7 7)
          false (mkPoint 0 0) None None None true None None None None None.

(** ** Cells and tolerances ([gridUtils], [toleranceUtils]) *)

(** [getCellBounds]; a bound read past the end of [colBounds] or
    [rowBounds] is [undefined] in the source and its cell is not a finite
    rectangle. *)
Definition getCellBounds (el : UIElement) (r c : nat) : option BBox :=
  let g := getGridPositions el in
  cellX <- nth_error (colBounds g) c ;;
  cellY <- nth_error (rowBounds g) r ;;
  nextX <- nth_error (colBounds g) (c + 1) ;;
  nextY <- nth_error (rowBounds g) (r + 1) ;;
  Some (mkBBox cellX cellY (nextX - cellX) (nextY - cellY)).

(** One axis of [getAverageCellSize] for a grid element. *)
Definition averageOn (fr : option (list Q)) (k : nat) (span : Q) : Q :=
  match fr with
  | Some l =>
      if Nat.eqb (length l) k then Arr.sum l / Num.ofNat k * span
      else span / Num.ofNat k
  | None => span / Num.ofNat k
  end.

(** [getAverageCellSize]: the pair [{ width, height }]. *)
Definition getAverageCellSize (el : UIElement) : Q * Q :=
  let nrows := orOne (rows el) in
  let ncols := orOne (cols el) in
  if ((1 <? nrows) || (1 <? ncols))%nat then
    (averageOn (colWidths el) ncols (width (bbox el)),
     averageOn (rowHeights el) nrows (height (bbox el)))
  else (width (bbox el), height (bbox el)).

Definition DEFAULT_TOLERANCE_SCALE : Q := 7 # 10.

(** [calculateTolerance]: the pair [{ x, y }]. *)
Definition calculateTolerance (el : UIElement) (factor : Q) : Q * Q :=
  let size := getAverageCellSize el in
  (Num.round (fst size * factor), Num.round (snd size * factor)).

(** [toleranceToRU] *)
Definition toleranceToRU (tolerancePixels : Q * Q) (imgW imgH : Q)
  : option (Q * Q) :=
  ruScale <- Num.div 1000 (Qmax imgW imgH) ;;
  Some (Num.round (fst tolerancePixels * ruScale),
        Num.round (snd tolerancePixels * ruScale)).

(** The bounds of [el] along [a], as [getGridPositions] gives them. *)
Definition boundsOn (a : Axis) (el : UIElement) : list Q :=
  match a with
  | row => rowBounds (getGridPositions el)
  | col => colBounds (getGridPositions el)
  end.

(** The explicit fractions in force along [a], if any, are not negative
    and sum to one. *)
Definition wellFormedOn (a : Axis) (el : UIElement) : Prop :=
  forall l, fractionsOn a el = Some l -> length l = countOn a el ->
            Forall (fun f => 0 <= f) l /\ Arr.sum l == 1.

(** Each entry is at most the next one. *)
Fixpoint ascending (l : list Q) : Prop :=
  match l with
  | a :: rest =>
      match rest with
      | b :: _ => a <= b /\ ascending rest
      | [] => True
      end
  | [] => True
  end.

(** Three columns of widths 1/5, 3/10 and 1/2 and two uniform rows over
    the element at (10, 20) of size 200 x 100. *)
Definition unevenGrid : UIElement :=
  mkElement "u" "grid" (mkBBox 10 20 200 100) None (Some 2%nat) (Some 3%nat)
            None (Some [1 # 5; 3 # 10; 1 # 2]) None [] None None None.

(** ** Fit and centring of the image ([AnnotationCanvas]) *)

Definition setBaseScale (st : State) (v : Q) : State :=
  mkState (canvas st) (isDrawing st) (startPoint st) (currentRect st)
          v (offset st) (pan st)
          (isPanning st) (panStart st) (resizeEdge st) (resizeStart st)
          (hoverEdge st) (spaceHeld st) (draggingDivider st) (hoverDivider st)
          (cropResizeEdge st) (cropResizeStart st) (hoverCropEdge st).

Definition setOffset (st : State) (v : Point) : State :=
  mkState (canvas st) (isDrawing st) (startPoint st) (currentRect st)
          (baseScale st) v (pan st)
          (isPanning st) (panStart st) (resizeEdge st) (resizeStart st)
          (hoverEdge st) (spaceHeld st) (draggingDivider st) (hoverDivider st)
          (cropResizeEdge st) (cropResizeStart st) (hoverCropEdge st).

(** The value of a JavaScript division [a / b]: a finite number, an
    infinity (zero divisor, non-zero dividend) or [NaN] (both zero). *)
Inductive Quotient :=
| Finite (q : Q)
| PlusInfinity
| MinusInfinity
| NotANumber.

Definition quotient (a b : Q) : Quotient :=
  if Qeq_bool b 0 then
    if Qeq_bool a 0 then NotANumber
    else if Num.ltb 0 a then PlusInfinity else MinusInfinity
  else Finite (a / b).

(** [Math.min(scaleX, scaleY, 1)], where it is a finite number. *)
Definition minWithOne (scaleX scaleY : Quotient) : option Q :=
  match scaleX, scaleY with
  | NotANumber, _ | _, NotANumber => None
  | MinusInfinity, _ | _, MinusInfinity => None
  | Finite a, Finite b => Some (Qmin (Qmin a b) 1)
  | Finite a, PlusInfinity => Some (Qmin a 1)
  | PlusInfinity, Finite b => Some (Qmin b 1)
  | PlusInfinity, PlusInfinity => Some 1
  end.

(** [recalculateScale]; [container] is [containerRef.current] with its
    [clientWidth] and [clientHeight]. *)
Definition recalculateScale (p : Props) (container : option (Q * Q))
           (st : State) : option State :=
  match imageSize p, container with
  | Some (imgW, imgH), Some (containerWidth, containerHeight) =>
      let scaleX := quotient containerWidth imgW in
      let scaleY := quotient containerHeight imgH in
      newBaseScale <- minWithOne scaleX scaleY ;;
      Some (setBaseScale st newBaseScale)
  | _, _ => Some st
  end.

(** The effect that computes the offset from zoom and pan. *)
Definition offsetEffect (p : Props) (container : option (Q * Q))
           (st : State) : State :=
  match imageSize p, container with
  | Some (imgW, imgH), Some (containerWidth, containerHeight) =>
      setOffset st
        (mkPoint ((containerWidth - imgW * scale p st) / 2 + px (pan st))
                 ((containerHeight - imgH * scale p st) / 2 + py (pan st)))
  | _, _ => st
  end.

(** The effect run when the image changes: the scale is recomputed and
    the pan reset; the offset effect follows. *)
Definition imageChanged (p : Props) (container : option (Q * Q))
           (st : State) : option State :=
  st1 <- recalculateScale p container st ;;
  Some (offsetEffect p container (setPan st1 (mkPoint 0 0))).

(** ** Zoom ([useViewState]) *)

Module View.

Definition MIN_ZOOM : Q := 1 # 4.
Definition MAX_ZOOM : Q := 4.
Definition ZOOM_STEP : Q := 1 # 4.

(** [useState(1)] *)
Definition initial : Q := 1.

Definition setZoomLevel (level : Q) : Q :=
  Qmax MIN_ZOOM (Qmin MAX_ZOOM level).

Definition zoomIn (z : Q) : Q := Qmin MAX_ZOOM (z + ZOOM_STEP).

Definition zoomOut (z : Q) : Q := Qmax MIN_ZOOM (z - ZOOM_STEP).

Definition resetZoom : Q := 1.

(** The calls a user of the hook can make on the zoom level. *)
Inductive Action :=
| SetZoomLevel (level : Q)
| ZoomIn
| ZoomOut
| ResetZoom.

Definition act (z : Q) (a : Action) : Q :=
  match a with
  | SetZoomLevel level => setZoomLevel level
  | ZoomIn => zoomIn z
  | ZoomOut => zoomOut z
  | ResetZoom => resetZoom
  end.

Definition after (acts : list Action) : Q := fold_left act acts initial.

(** The calls behind the three zoom buttons of the page. *)
Definition button (a : Action) : bool :=
  match a with
  | SetZoomLevel _ => false
  | ZoomIn | ZoomOut | ResetZoom => true
  end.

(** [k] quarters: the levels the buttons reach, which doubles hold
    exactly. *)
Definition quarters (k : Z) : Q := inject_Z k * ZOOM_STEP.

End View.

(** ** Tools and modes ([useToolState]) *)

Module Tool.

Record t := mk {
  currentType : string;
  drawMode : DrawMode;
  gridRows : nat;
  gridCols : nat;
  isColorSampling : bool;
  isCropMode : bool;
  isIconPlacementMode : bool
}.

Definition GRID_ELEMENT_TYPES : list string :=
  ["grid"; "icon"; "dropdown"; "listbox"]%string.

Definition initial : t := mk "button" single 1 1 false false false.

Definition setModes (s : t) (sampling crop icon : bool) : t :=
  mk (currentType s) (drawMode s) (gridRows s) (gridCols s) sampling crop icon.

Definition startColorSampling (s : t) : t := setModes s true false false.

Definition stopColorSampling (s : t) : t :=
  setModes s false (isCropMode s) (isIconPlacementMode s).

Definition startCropMode (s : t) : t := setModes s false true false.

Definition stopCropMode (s : t) : t :=
  setModes s (isColorSampling s) false (isIconPlacementMode s).

Definition startIconPlacementMode (s : t) : t := setModes s false false true.

Definition stopIconPlacementMode (s : t) : t :=
  setModes s (isColorSampling s) (isCropMode s) false.

Definition syncFromElement (element : option UIElement) (s : t) : t :=
  match element with
  | Some el =>
      if existsb (String.eqb (type el)) GRID_ELEMENT_TYPES then
        mk (currentType s) (drawMode s)
           (match rows el with Some r => r | None => 1%nat end)
           (match cols el with Some c => c | None => 1%nat end)
           (isColorSampling s) (isCropMode s) (isIconPlacementMode s)
      else s
  | None => s
  end.

(** The calls a user of the hook can make. *)
Inductive Action :=
| SetCurrentType (ty : string)
| SetDrawMode (m : DrawMode)
| SetGridRows (r : nat)
| SetGridCols (c : nat)
| StartColorSampling
| StopColorSampling
| StartCropMode
| StopCropMode
| StartIconPlacementMode
| StopIconPlacementMode
| SyncFromElement (element : option UIElement).

Definition act (s : t) (a : Action) : t :=
  match a with
  | SetCurrentType ty =>
      mk ty (drawMode s) (gridRows s) (gridCols s)
         (isColorSampling s) (isCropMode s) (isIconPlacementMode s)
  | SetDrawMode m =>
      mk (currentType s) m (gridRows s) (gridCols s)
         (isColorSampling s) (isCropMode s) (isIconPlacementMode s)
  | SetGridRows r =>
      mk (currentType s) (drawMode s) r (gridCols s)
         (isColorSampling s) (isCropMode s) (isIconPlacementMode s)
  | SetGridCols c =>
      mk (currentType s) (drawMode s) (gridRows s) c
         (isColorSampling s) (isCropMode s) (isIconPlacementMode s)
  | StartColorSampling => startColorSampling s
  | StopColorSampling => stopColorSampling s
  | StartCropMode => startCropMode s
  | StopCropMode => stopCropMode s
  | StartIconPlacementMode => startIconPlacementMode s
  | StopIconPlacementMode => stopIconPlacementMode s
  | SyncFromElement element => syncFromElement element s
  end.

Definition after (acts : list Action) : t := fold_left act acts initial.

(** The number of modes switched on. *)
Definition activeModes (s : t) : nat :=
  ((if isColorSampling s then 1 else 0)
   + (if isCropMode s then 1 else 0)
   + (if isIconPlacementMode s then 1 else 0))%nat.

End Tool.

(** ** Elements and tasks ([useAnnotationState]) *)

Module Task.

Record t := mk {
  id : string;
  prompt : string;
  targetElementId : string;
  action : option string;
  pixels : option Q
}.

End Task.

Module Annotation.

Definition SCROLL_TASK_PREFIX : string := "_scroll_".
Definition SELECT_TASK_PREFIX : string := "_select_".
Definition CLICK_TASK_PREFIX : string := "_click_".

Definition AUTO_CLICK_TYPES : list string :=
  ["button"; "checkbox"; "radio"; "tab"]%string.

(** [l.includes(s)] and [idSet.has(s)] *)
Definition includes (l : list string) (s : string) : bool :=
  existsb (String.eqb s) l.

(** [element.text || "button"] *)
Definition textOr (tx : option string) (default : string) : string :=
  match tx with
  | Some (String _ _ as s) => s
  | _ => default
  end.

Definition generateClickTask (element : UIElement) : Task.t :=
  let name := textOr (text element) "button" in
  Task.mk (id element ++ CLICK_TASK_PREFIX)
          ("Click the " ++ name ++ " button")
          (id element) (Some "left_click"%string) None.

Record t := mk {
  elements : list UIElement;
  selectedElementId : option string;
  tasks : list Task.t;
  selectedTaskId : option string
}.

Definition initial : t := mk [] None [] None.

Definition autoGenerateTasks (element : UIElement) (s : t) : t :=
  if includes AUTO_CLICK_TYPES (type element) then
    mk (elements s) (selectedElementId s)
       (tasks s ++ [generateClickTask element]) (selectedTaskId s)
  else s.

Definition addElement (element : UIElement) (s : t) : t :=
  autoGenerateTasks element
    (mk (elements s ++ [element]) (selectedElementId s)
        (tasks s) (selectedTaskId s)).

(** [t.id.startsWith(id + PREFIX)] for one of the three prefixes. *)
Definition autoGenerated (i : string) (tk : Task.t) : bool :=
  String.prefix (i ++ SCROLL_TASK_PREFIX) (Task.id tk)
  || String.prefix (i ++ SELECT_TASK_PREFIX) (Task.id tk)
  || String.prefix (i ++ CLICK_TASK_PREFIX) (Task.id tk).

Definition deleteElement (i : string) (s : t) : t :=
  mk (filter (fun el => negb (String.eqb (id el) i)) (elements s))
     (match selectedElementId s with
      | Some prev => if String.eqb prev i then None else Some prev
      | None => None
      end)
     (filter
        (fun tk =>
           negb (String.prefix (i ++ SCROLL_TASK_PREFIX) (Task.id tk))
           && negb (String.prefix (i ++ SELECT_TASK_PREFIX) (Task.id tk))
           && negb (String.prefix (i ++ CLICK_TASK_PREFIX) (Task.id tk)))
        (tasks s))
     (selectedTaskId s).

Definition deleteElements (ids : list string) (s : t) : t :=
  mk (filter (fun el => negb (includes ids (id el))) (elements s))
     (match selectedElementId s with
      | Some prev =>
          if truthy (Some prev) && includes ids prev then None else Some prev
      | None => None
      end)
     (filter (fun tk => negb (existsb (fun i => autoGenerated i tk) ids))
             (tasks s))
     (selectedTaskId s).

Definition selectElement (i : option string) (s : t) : t :=
  mk (elements s) i (tasks s) (selectedTaskId s).

Definition setElements (f : list UIElement -> list UIElement) (s : t) : t :=
  mk (f (elements s)) (selectedElementId s) (tasks s) (selectedTaskId s).

Definition deleteTask (i : string) (s : t) : t :=
  mk (elements s) (selectedElementId s)
     (filter (fun tk => negb (String.eqb (Task.id tk) i)) (tasks s))
     (match selectedTaskId s with
      | Some prev => if String.eqb prev i then None else Some prev
      | None => None
      end).

Definition clearAll (s : t) : t := mk [] None [] None.

Definition loadAnnotation (newElements : list UIElement)
           (newTasks : list Task.t) (s : t) : t :=
  mk newElements None newTasks None.

(** The selection is empty or names an element of the collection. *)
Definition selectionValid (s : t) : Prop :=
  match selectedElementId s with
  | Some i => exists el, In el (elements s) /\ id el = i
  | None => True
  end.

End Annotation.

(** ** The element list ([ElementList]) *)

Module ElementList.

(** [multiSelected] is a [Set]: its entries in insertion order. *)
Record State := mk {
  multiSelected : list string;
  selectedIconIdx : option nat
}.

(** The callbacks of the owner. *)
Inductive Call :=
| SelectElement (i : string)
| DeleteElement (i : string)
| UpdateIcons (i : string) (newIcons : list IconDefinition).

(** [new Set(l)]: the first occurrence of each entry, in order. *)
Fixpoint setOf (l : list string) : list string :=
  match l with
  | [] => []
  | a :: rest => a :: filter (fun b => negb (String.eqb b a)) (setOf rest)
  end.

(** [l.findIndex(f)]; [None] is [-1]. *)
Fixpoint findIndex {A : Type} (f : A -> bool) (l : list A) : option nat :=
  match l with
  | [] => None
  | a :: rest =>
      if f a then Some 0%nat else option_map S (findIndex f rest)
  end.

(** [l.filter((_, i) => f(i))], the indices counted from [i]. *)
Fixpoint filterIndex {A : Type} (f : nat -> bool) (i : nat) (l : list A)
  : list A :=
  match l with
  | [] => []
  | a :: rest =>
      if f i then a :: filterIndex f (S i) rest else filterIndex f (S i) rest
  end.

Definition handleItemClick (shiftKey : bool) (clickedId : string)
           (els : list UIElement) (selectedElementId : option string)
           (st : State) : State * list Call :=
  if shiftKey && truthy selectedElementId then
    match selectedElementId with
    | Some sel =>
        match findIndex (fun el => String.eqb (id el) sel) els,
              findIndex (fun el => String.eqb (id el) clickedId) els with
        | Some startIdx, Some endIdx =>
            let minIdx := Nat.min startIdx endIdx in
            let maxIdx := Nat.max startIdx endIdx in
            let rangeIds :=
              map id (Arr.slice els (Z.of_nat minIdx) (Z.of_nat maxIdx + 1)) in
            (mk (setOf rangeIds) (selectedIconIdx st), [])
        | _, _ => (st, [])
        end
    | None => (st, [])
    end
  else (mk [] None, [SelectElement clickedId]).

Definition handleDeleteSelected (st : State) : State * list Call :=
  (mk [] (selectedIconIdx st), map DeleteElement (multiSelected st)).

(** The click on the delete button of the icon of index [idx] of [el]. *)
Definition iconDeleteClick (el : UIElement) (idx : nat) (st : State)
  : State * list Call :=
  let newIcons := filterIndex (fun i => negb (Nat.eqb i idx)) 0 (icons el) in
  (mk (multiSelected st)
      (match selectedIconIdx st with
       | Some sel =>
           if Nat.eqb sel idx then None
           else if (idx <? sel)%nat then Some (sel - 1)%nat
           else Some sel
       | None => None
       end),
   [UpdateIcons (id el) newIcons]).

(** The owner ([page]) passes [deleteElement] and [selectElement] of the
    annotation state. *)
Definition call (s : Annotation.t) (c : Call) : Annotation.t :=
  match c with
  | SelectElement i => Annotation.selectElement (Some i) s
  | DeleteElement i => Annotation.deleteElement i s
  | UpdateIcons i newIcons =>
      Annotation.setElements
        (mapById i (fun el =>
           mkElement (id el) (type el) (bbox el) (text el) (rows el) (cols el)
                     (rowHeights el) (colWidths el) (parentId el) newIcons
                     (maskColor el) (hAlign el) (vAlign el))) s
  end.

End ElementList.

(** ** Applying a crop ([page]) *)

Module Page.

Record t := mk {
  annotation : Annotation.t;
  tools : Tool.t;
  cropRect : option BBox;
  imageUrl : bool;
  imageSize : option (Q * Q)
}.

(** The loop of [handleApplyCrop] over the previous elements. *)
Definition adjust (cropBbox : BBox) (prev : list UIElement) : list UIElement :=
  flat_map
    (fun el =>
       let elRight := x (bbox el) + width (bbox el) in
       let elBottom := y (bbox el) + height (bbox el) in
       let cropRight := x cropBbox + width cropBbox in
       let cropBottom := y cropBbox + height cropBbox in
       if Num.geb (x (bbox el)) (x cropBbox)
          && Num.geb (y (bbox el)) (y cropBbox)
          && Num.leb elRight cropRight
          && Num.leb elBottom cropBottom
       then [withBBox el (mkBBox (x (bbox el) - x cropBbox)
                                 (y (bbox el) - y cropBbox)
                                 (width (bbox el)) (height (bbox el)))]
       else [])
    prev.

(** [handleApplyCrop]; [decodes] tells whether [cropToRegion] resolves
    (the browser decodes the image and hands out a drawing context): it
    then sets the image size to the size of the crop, and the handler
    goes on; otherwise it rejects and the handler stops there. *)
Definition handleApplyCrop (decodes : bool) (s : t) : t :=
  match cropRect s, imageUrl s, imageSize s with
  | Some cropBbox, true, Some _ =>
      if Num.ltb (width cropBbox) 10 || Num.ltb (height cropBbox) 10 then s
      else if decodes then
        mk (Annotation.selectElement None
              (Annotation.setElements (adjust cropBbox) (annotation s)))
           (Tool.stopCropMode (tools s))
           None
           true
           (Some (width cropBbox, height cropBbox))
      else s
  | _, _, _ => s
  end.

End Page.


(** Three buttons added in turn, the first one selected. *)
Definition threeButtons : Annotation.t :=
  Annotation.selectElement (Some "a"%string)
    (Annotation.addElement (box "c" (mkBBox 120 0 50 50))
       (Annotation.addElement (box "b" (mkBBox 60 0 50 50))
          (Annotation.addElement (box "a" (mkBBox 0 0 50 50))
             Annotation.initial))).

(** The first two of them multi-selected in the element list. *)
Definition twoChosen : ElementList.State :=
  ElementList.mk ["a"; "b"]%string None.


(** A 1000 x 800 page in crop mode: the crop (100, 100) 400 x 300 holds
    the box "in" and cuts the box "cut". *)
Definition cropping : Page.t :=
  Page.mk
    (Annotation.mk [box "in" (mkBBox 150 120 100 50);
                    box "cut" (mkBBox 450 120 100 50)]
                   (Some "in"%string) [] None)
    (Tool.startCropMode Tool.initial)
    (Some (mkBBox 100 100 400 300))
    true
    (Some (1000, 800)).


(** Crop mode over the 1000 x 800 image with the crop (100, 100)
    400 x 300, its south-east corner being dragged from (500, 400). *)
Definition cropProps : Props :=
  mkProps true (Some (1000, 800)) [] None true "button" single 1 1
          false true 1 true (Some (mkBBox 100 100 400 300)) true false true.

Definition cropState : State :=
  setCropResize idle (Some Edge.se)
                (Some (mkResizeStart 500 400 (mkBBox 100 100 400 300))).


(** A toolbar with three icons, the editor open on the third. *)
Definition iconBar : UIElement :=
  mkElement "t" "toolbar" (mkBBox 0 0 100 100) None None None None None None
            [mkIcon "i0" 10 10; mkIcon "i1" 30 10; mkIcon "i2" 50 10]
            None None None.

Definition editingThird : ElementList.State := ElementList.mk [] (Some 2%nat).


(** ** The canvas callbacks wired to the annotation state ([page]) *)

(** [onElementsChange], [onSelectElement] and [onElementCreated] are
    given [setElements], [selectElement] and [autoGenerateTasks] of the
    annotation state; the other callbacks go through handlers of the
    page and have no entry here. *)
Definition toAnnotation (s : Annotation.t) (n : Notification)
  : option Annotation.t :=
  match n with
  | ElementsChange els => Some (Annotation.setElements (fun _ => els) s)
  | SelectElement i => Some (Annotation.selectElement i s)
  | ElementCreated el => Some (Annotation.autoGenerateTasks el s)
  | ColorSampled _ _ | CropRectChange _ | IconPlaced _ _ => None
  end.

Fixpoint allToAnnotation (ns : list Notification) (s : Annotation.t)
  : option Annotation.t :=
  match ns with
  | [] => Some s
  | n :: rest => s1 <- toAnnotation s n ;; allToAnnotation rest s1
  end.

(** ** Export ([toleranceUtils.addToleranceToElements]) *)

Record Exported := mkExported {
  exported : UIElement;
  toleranceX : Q;
  toleranceY : Q
}.

(** The body of the [map] of [addToleranceToElements]. *)
Definition addTolerance (factor : Q) (el : UIElement) : Exported :=
  let tolerance := calculateTolerance el factor in
  let nrows := orOne (rows el) in
  let ncols := orOne (cols el) in
  let colWidths1 :=
    match colWidths el with
    | None =>
        if (1 <? ncols)%nat then
          let uniformWidth := 1 / Num.ofNat ncols in
          Some (Arr.fill ncols uniformWidth)
        else None
    | Some ws => Some ws
    end in
  let rowHeights1 :=
    match rowHeights el with
    | None =>
        if (1 <? nrows)%nat then
          let uniformHeight := 1 / Num.ofNat nrows in
          Some (Arr.fill nrows uniformHeight)
        else None
    | Some hs => Some hs
    end in
  mkExported (withRowHeights (withColWidths el colWidths1) rowHeights1)
             (fst tolerance) (snd tolerance).

Definition addToleranceToElements (elements : list UIElement) (factor : Q)
  : list Exported :=
  map (addTolerance factor) elements.

(** A button tool at work: a 120 x 40 rectangle drawn on the blank
    image, about to be released. *)
Definition drawnButton : State :=
  setDrawing idle true (Some (mkPoint 100 100)) (Some (mkBBox 100 100 120 40)).

(** A grid of three uniform columns, no fractions stored. *)
Definition plainGrid : UIElement :=
  mkElement "p" "grid" (mkBBox 0 0 300 100) None None (Some 3%nat)
            None None None [] None None None.



(** * Facts *)

(** ** Comparisons, maxima and minima *)

Lemma ltb_lt a b : Num.ltb a b = true <-> a < b.
Proof.
  unfold Num.ltb. rewrite negb_true_iff.
  split; intro H.
  - apply Qnot_le_lt. intro L. apply Qle_bool_iff in L. congruence.
  - destruct (Qle_bool b a) eqn:E; [|reflexivity].
    apply Qle_bool_iff in E. exfalso. apply (Qlt_not_le _ _ H E).
Qed.

Lemma ltb_ge a b : Num.ltb a b = false <-> b <= a.
Proof. unfold Num.ltb. rewrite negb_false_iff. apply Qle_bool_iff. Qed.

Lemma leb_le a b : Num.leb a b = true <-> a <= b.
Proof. apply Qle_bool_iff. Qed.

Lemma geb_ge a b : Num.geb a b = true <-> b <= a.
Proof. apply Qle_bool_iff. Qed.

Lemma div_some a b : ~ b == 0 -> Num.div a b = Some (a / b).
Proof.
  intro H. unfold Num.div. destruct (Qeq_bool b 0) eqn:E; [|reflexivity].
  apply Qeq_bool_iff in E. contradiction.
Qed.

Lemma div_inv a b q : Num.div a b = Some q -> ~ b == 0 /\ q = a / b.
Proof.
  unfold Num.div. destruct (Qeq_bool b 0) eqn:E; [discriminate|].
  intro H. injection H as <-. split; [|reflexivity].
  intro Hb. apply Qeq_bool_iff in Hb. congruence.
Qed.

(** Name every maximum and minimum, keep its defining cases, and let
    linear arithmetic finish. *)
Ltac name_minmax :=
  repeat match goal with
  | |- context [Qmax ?a ?b] =>
      let m := fresh "m" in
      pose proof (Q.max_spec a b); set (m := Qmax a b) in *; clearbody m
  | |- context [Qmin ?a ?b] =>
      let m := fresh "m" in
      pose proof (Q.min_spec a b); set (m := Qmin a b) in *; clearbody m
  | _ : context [Qmax ?a ?b] |- _ =>
      let m := fresh "m" in
      pose proof (Q.max_spec a b); set (m := Qmax a b) in *; clearbody m
  | _ : context [Qmin ?a ?b] |- _ =>
      let m := fresh "m" in
      pose proof (Q.min_spec a b); set (m := Qmin a b) in *; clearbody m
  end.

Ltac minmax :=
  name_minmax;
  repeat match goal with
  | H : _ \/ _ |- _ => destruct H
  | H : _ /\ _ |- _ => destruct H
  end;
  lra.

Lemma clampInto_maxmin lo hi v :
  lo <= hi -> Qmax lo (Qmin v hi) == clampInto lo hi v.
Proof.
  intro Hle. unfold clampInto.
  destruct (Num.ltb v lo) eqn:E1.
  - apply ltb_lt in E1. minmax.
  - apply ltb_ge in E1. destruct (Num.ltb hi v) eqn:E2.
    + apply ltb_lt in E2. minmax.
    + apply ltb_ge in E2. minmax.
Qed.

(** ** Resize *)

Lemma clampToImage_origin b imgW imgH :
  10 <= imgW -> 10 <= imgH ->
  x (clampToImage b imgW imgH) == clampInto 0 (imgW - 10) (x b)
  /\ y (clampToImage b imgW imgH) == clampInto 0 (imgH - 10) (y b).
Proof.
  intros HW HH. simpl. split; apply clampInto_maxmin; lra.
Qed.

Lemma clampToImage_inside b imgW imgH :
  let c := clampToImage b imgW imgH in
  0 <= x c /\ 0 <= y c /\ x c + width c <= imgW /\ y c + height c <= imgH.
Proof.
  simpl. repeat split; minmax.
Qed.

Lemma clampToImage_min_size b imgW imgH :
  10 <= imgW -> 10 <= imgH ->
  let c := clampToImage b imgW imgH in
  (10 <= width b -> 10 <= width c) /\ (10 <= height b -> 10 <= height c).
Proof.
  intros HW HH. simpl. split; intro; minmax.
Qed.

Lemma resized_min_size ed orig dx dy :
  let r := resized ed orig dx dy in
  (adjustsWidth ed = true \/ 10 <= width orig -> 10 <= width r)
  /\ (adjustsHeight ed = true \/ 10 <= height orig -> 10 <= height r).
Proof.
  destruct ed; simpl; split; intros [H|H]; try discriminate; try assumption;
    try apply Q.le_max_l.
Qed.

Lemma handleMouseMove_resize p st ev ed rs sel imgW imgH pos :
  resizing p st ed rs sel imgW imgH ->
  screenToImage p st (clientX ev) (clientY ev) = Some pos ->
  handleMouseMove p st ev
  = Some (st, [ElementsChange
                 (mapById sel
                    (fun el => withBBox el (resizeMove ed rs pos imgW imgH))
                    (elements p))]).
Proof.
  intros (Hpan & Hdiv & Hed & Hrs & Hsel & Htruthy & Himg) Hpos.
  unfold handleMouseMove.
  rewrite Hpan, Hpos. unfold bind.
  rewrite Hdiv, Hed, Hrs, Hsel, Himg, Htruthy.
  reflexivity.
Qed.

(** C2 (as amended): on every resize pointer-move commit over an image of
    at least 10 x 10, the committed bbox has its origin clamped into
    [0, imageWidth - 10] x [0, imageHeight - 10], then its width cut to
    [min(width, imageWidth - x)] and its height to
    [min(height, imageHeight - y)] with the clamped origin; it satisfies
    x >= 0, y >= 0, x + width <= imageWidth, y + height <= imageHeight;
    and width >= 10 (height >= 10) holds when the dragged edge recomputes
    that dimension or the snapshot already had it. *)
Theorem resize_commit_bounds p st ev ed rs sel imgW imgH pos :
  resizing p st ed rs sel imgW imgH ->
  screenToImage p st (clientX ev) (clientY ev) = Some pos ->
  10 <= imgW -> 10 <= imgH ->
  let moved :=
    resized ed (startBBox rs) (px pos - startX rs) (py pos - startY rs) in
  exists b,
    handleMouseMove p st ev
    = Some (st, [ElementsChange
                   (mapById sel (fun el => withBBox el b) (elements p))])
    /\ x b == clampInto 0 (imgW - 10) (x moved)
    /\ y b == clampInto 0 (imgH - 10) (y moved)
    /\ width b = Qmin (width moved) (imgW - x b)
    /\ height b = Qmin (height moved) (imgH - y b)
    /\ 0 <= x b /\ 0 <= y b
    /\ x b + width b <= imgW /\ y b + height b <= imgH
    /\ (adjustsWidth ed = true \/ 10 <= width (startBBox rs) -> 10 <= width b)
    /\ (adjustsHeight ed = true \/ 10 <= height (startBBox rs) -> 10 <= height b).
Proof.
  intros Hres Hpos HW HH moved.
  exists (resizeMove ed rs pos imgW imgH).
  split; [apply handleMouseMove_resize; assumption|].
  unfold resizeMove. fold moved.
  destruct (clampToImage_origin moved imgW imgH HW HH) as [Hx Hy].
  destruct (clampToImage_inside moved imgW imgH) as (H0x & H0y & Hxw & Hyh).
  destruct (clampToImage_min_size moved imgW imgH HW HH) as [Hw Hh].
  destruct (resized_min_size ed (startBBox rs) (px pos - startX rs)
                             (py pos - startY rs)) as [Rw Rh].
  repeat split; try assumption.
  - intro H. apply Hw, Rw, H.
  - intro H. apply Hh, Rh, H.
Qed.

(** The north-west corner of the element at (50, 50, 100, 100) dragged
    by (-20, -10) commits (30, 40, 120, 110). *)
Lemma resize_commit_bounds_corner :
  exists b,
    handleMouseMove cornerProps cornerState (pointer 30 40)
    = Some (cornerState,
            [ElementsChange
               (mapById "a" (fun el => withBBox el b) (elements cornerProps))])
    /\ x b == 30 /\ y b == 40 /\ width b == 120 /\ height b == 110
    /\ 10 <= width b /\ 10 <= height b.
Proof.
  destruct (resize_commit_bounds cornerProps cornerState (pointer 30 40)
              Edge.nw (mkResizeStart 50 50 (mkBBox 50 50 100 100))
              "a"%string 1000 800 (mkPoint 30 40))
    as (b & Hmove & Hx & Hy & Hw & Hh & _ & _ & _ & _ & Mw & Mh).
  - repeat split.
  - reflexivity.
  - discriminate.
  - discriminate.
  - exists b. split; [exact Hmove|].
    assert (Ex : x b == 30) by (rewrite Hx; reflexivity).
    assert (Ey : y b == 40) by (rewrite Hy; reflexivity).
    split; [exact Ex|]. split; [exact Ey|].
    split; [rewrite Hw; simpl; rewrite Ex; reflexivity|].
    split; [rewrite Hh; simpl; rewrite Ey; reflexivity|].
    split; [apply Mw | apply Mh]; left; reflexivity.
Defined.

(** C2, counterexample: at zoom 4 a draw from (100, 100) to (105, 150)
    creates and selects a 5 x 50 element; a press on its south edge starts
    a resize, and the next move commits a bbox still 5 wide. *)
Lemma resize_keeps_narrow_width :
  exists p st,
    run (zoomed, idle)
        [Down clock (pointer 400 400); Move (pointer 420 600);
         Up clock (pointer 420 600); Down clock (pointer 408 600)]
    = Some (p, st)
    /\ resizing p st Edge.s (mkResizeStart 102 150 (mkBBox 100 100 5 50))
                "el_42" 1000 800
    /\ exists el,
         handleMouseMove p st (pointer 408 640)
         = Some (st, [ElementsChange [el]])
         /\ bbox el = mkBBox 100 100 5 60
         /\ width (bbox el) < 10.
Proof.
  eexists. eexists. split; [vm_compute; reflexivity|].
  split; [repeat split|].
  eexists. split; [vm_compute; reflexivity|].
  split; [reflexivity|reflexivity].
Qed.

(** ** Arrays *)

Lemma firstn_skipn_exact {A : Type} (l1 l2 : list A) k :
  length l1 = k -> firstn k (l1 ++ l2) = l1 /\ skipn k (l1 ++ l2) = l2.
Proof.
  intros <-. split.
  - rewrite firstn_app, Nat.sub_diag, firstn_all. simpl. apply app_nil_r.
  - rewrite skipn_app, Nat.sub_diag, skipn_all. reflexivity.
Qed.

Lemma slice_prefix {A : Type} (l : list A) k :
  (k <= length l)%nat -> Arr.slice l 0 (Z.of_nat k) = firstn k l.
Proof.
  intro Hk. unfold Arr.slice. simpl.
  destruct (Z.of_nat k <? 0)%Z eqn:E; [lia|].
  rewrite Z.min_l by lia. rewrite Z.min_l by lia.
  rewrite Z.sub_0_r, Nat2Z.id. reflexivity.
Qed.

Lemma slice_drop_last {A : Type} (l : list A) :
  Arr.slice l 0 (-1) = firstn (length l - 1) l.
Proof.
  unfold Arr.slice. simpl.
  rewrite Z.min_l by lia. simpl.
  replace (Z.to_nat (Z.max (Z.of_nat (length l) + -1) 0 - 0))
    with (length l - 1)%nat by lia.
  reflexivity.
Qed.

Lemma sliceFrom_skipn {A : Type} (l : list A) k :
  (k <= length l)%nat -> Arr.sliceFrom l (Z.of_nat k) = skipn k l.
Proof.
  intro Hk. unfold Arr.sliceFrom, Arr.slice.
  destruct (Z.of_nat k <? 0)%Z eqn:E; [lia|].
  destruct (Z.of_nat (length l) <? 0)%Z eqn:E'; [lia|].
  rewrite !Z.min_l by lia. rewrite Nat2Z.id.
  apply firstn_all2. rewrite length_skipn. lia.
Qed.

(** ** Count change *)

Lemma changeCount_splitMerged old oldN num :
  length old = oldN -> (1 <= oldN)%nat -> (1 <= num)%nat ->
  exists new, changeCount old oldN num = Some new /\ splitMerged old new oldN num.
Proof.
  intros Hlen HR HR'. unfold changeCount.
  destruct (oldN <? num)%nat eqn:Eup.
  - apply Nat.ltb_lt in Eup.
    destruct (nth_error old (oldN - 1)) as [lastF|] eqn:Elast.
    2:{ apply nth_error_None in Elast. lia. }
    unfold Arr.get. rewrite Elast. simpl.
    eexists. split; [reflexivity|].
    rewrite slice_drop_last, Hlen.
    assert (Hpre : length (firstn (oldN - 1) old) = (oldN - 1)%nat)
      by (rewrite length_firstn; lia).
    destruct (firstn_skipn_exact (firstn (oldN - 1) old)
                (Arr.fill (num - oldN + 1) (lastF / Num.ofNat (num - oldN + 1)))
                (oldN - 1) Hpre) as [Hf Hs].
    split; [|split].
    + rewrite length_app, Hpre. unfold Arr.fill. rewrite repeat_length. lia.
    + intros _. exists lastF. repeat split; assumption.
    + intro. lia.
  - apply Nat.ltb_ge in Eup.
    destruct (num <? oldN)%nat eqn:Edown.
    + apply Nat.ltb_lt in Edown.
      eexists. split; [reflexivity|].
      replace (Z.of_nat num - 1)%Z with (Z.of_nat (num - 1)) by lia.
      rewrite slice_prefix, sliceFrom_skipn by lia.
      assert (Hpre : length (firstn (num - 1) old) = (num - 1)%nat)
        by (rewrite length_firstn; lia).
      destruct (firstn_skipn_exact (firstn (num - 1) old)
                  [Arr.sum (skipn (num - 1) old)] (num - 1) Hpre) as [Hf Hs].
      split; [|split].
      * rewrite length_app, Hpre. simpl. lia.
      * intro. lia.
      * intros _. split; assumption.
    + apply Nat.ltb_ge in Edown.
      exists old. split; [reflexivity|].
      split; [lia|]. split; intro; lia.
Qed.

Lemma orOne_pos c : (1 <= orOne c)%nat.
Proof. destruct c as [[|k]|]; simpl; lia. Qed.

Lemma countOn_pos a el : (1 <= countOn a el)%nat.
Proof. destruct a; apply orOne_pos. Qed.

Lemma fractionsOr_length fr k : length (fractionsOr fr k) = k.
Proof.
  unfold fractionsOr, Arr.fill.
  destruct fr as [l|]; [|apply repeat_length].
  destruct (Nat.eqb (length l) k) eqn:E.
  - apply Nat.eqb_eq in E. exact E.
  - apply repeat_length.
Qed.

Lemma fractionsOr_explicit l k :
  length l = k -> fractionsOr (Some l) k = l.
Proof. intros <-. unfold fractionsOr. rewrite Nat.eqb_refl. reflexivity. Qed.









(** ** Sums of fractions *)

Lemma sum_acc l a : fold_left Qplus l a == a + Arr.sum l.
Proof.
  unfold Arr.sum. revert a.
  induction l as [|h t IH]; intro a; simpl.
  - lra.
  - pose proof (IH (a + h)). pose proof (IH (0 + h)). lra.
Qed.

Lemma sum_cons h t : Arr.sum (h :: t) == h + Arr.sum t.
Proof.
  unfold Arr.sum at 1. simpl. pose proof (sum_acc t (0 + h)). lra.
Qed.

Lemma sum_app l1 l2 : Arr.sum (l1 ++ l2) == Arr.sum l1 + Arr.sum l2.
Proof.
  induction l1 as [|h t IH]; simpl.
  - unfold Arr.sum at 2. simpl. lra.
  - pose proof (sum_cons h (t ++ l2)). pose proof (sum_cons h t). lra.
Qed.

Lemma ofNat_succ k : Num.ofNat (S k) == Num.ofNat k + 1.
Proof.
  unfold Num.ofNat. rewrite Nat2Z.inj_succ, <- Z.add_1_r, inject_Z_plus.
  reflexivity.
Qed.

Lemma ofNat_pos k : (1 <= k)%nat -> 0 < Num.ofNat k.
Proof.
  intro H. unfold Num.ofNat.
  replace 0 with (inject_Z 0) by reflexivity.
  rewrite <- Zlt_Qlt. lia.
Qed.

Lemma sum_repeat v k : Arr.sum (repeat v k) == Num.ofNat k * v.
Proof.
  induction k as [|k IH]; simpl.
  - unfold Arr.sum, Num.ofNat. simpl. unfold inject_Z. ring.
  - rewrite sum_cons, IH, ofNat_succ. ring.
Qed.

Lemma sum_map_div l t :
  Arr.sum (map (fun w => w / t) l) == Arr.sum l / t.
Proof.
  induction l as [|h r IH]; simpl.
  - unfold Arr.sum. simpl. unfold Qdiv. ring.
  - rewrite !sum_cons, IH. unfold Qdiv. ring.
Qed.

Lemma sum_firstn_skipn l k :
  Arr.sum l == Arr.sum (firstn k l) + Arr.sum (skipn k l).
Proof.
  rewrite <- sum_app, firstn_skipn. reflexivity.
Qed.

Lemma sum_uniform k :
  (1 <= k)%nat -> Arr.sum (Arr.fill k (1 / Num.ofNat k)) == 1.
Proof.
  intro H. unfold Arr.fill. rewrite sum_repeat.
  pose proof (ofNat_pos k H). field. lra.
Qed.

Lemma sum_nonneg l : Forall (fun f => 0 <= f) l -> 0 <= Arr.sum l.
Proof.
  induction 1 as [|h t Hh Ht IH].
  - unfold Arr.sum. simpl. lra.
  - rewrite sum_cons. lra.
Qed.

Lemma sum_ge_entry l i v :
  Forall (fun f => 0 <= f) l -> nth_error l i = Some v -> v <= Arr.sum l.
Proof.
  intro Hall. revert i.
  induction Hall as [|h t Hh Ht IH]; intros [|i] Hget; simpl in Hget;
    try discriminate.
  - injection Hget as <-. rewrite sum_cons.
    pose proof (sum_nonneg t Ht). lra.
  - rewrite sum_cons. pose proof (IH i Hget). lra.
Qed.

Lemma set_length l i v : length (Arr.set l i v) = length l.
Proof.
  revert i. induction l as [|h t IH]; intros [|i]; simpl; auto.
Qed.

Lemma set_same l i v :
  (i < length l)%nat -> nth_error (Arr.set l i v) i = Some v.
Proof.
  revert i. induction l as [|h t IH]; intros [|i] H; simpl in *;
    try lia; auto.
  apply IH. lia.
Qed.

Lemma set_other l i j v :
  i <> j -> nth_error (Arr.set l i v) j = nth_error l j.
Proof.
  revert i j. induction l as [|h t IH]; intros [|i] [|j] H; simpl;
    try reflexivity; try congruence.
  apply IH. congruence.
Qed.

Lemma set_nonneg l i v :
  Forall (fun f => 0 <= f) l -> 0 <= v ->
  Forall (fun f => 0 <= f) (Arr.set l i v).
Proof.
  intros Hall Hv. revert i.
  induction Hall as [|h t Hh Ht IH]; intros [|i]; simpl;
    constructor; auto.
Qed.

Lemma normalize_partition ws :
  0 < Arr.sum ws ->
  exists out, normalize ws = Some out
              /\ length out = length ws /\ Arr.sum out == 1.
Proof.
  intro Hpos. unfold normalize.
  destruct (Qeq_bool (Arr.sum ws) 0) eqn:E.
  - apply Qeq_bool_iff in E. lra.
  - eexists. split; [reflexivity|]. split; [apply length_map|].
    rewrite sum_map_div. field. lra.
Qed.

Lemma moveDivider_partition fr k origin span p i :
  0 < span -> (i + 1 < k)%nat ->
  Forall (fun f => 0 <= f) (fractionsOr fr k) ->
  exists ws, moveDivider fr k origin span p i = Some ws
             /\ length ws = k /\ Arr.sum ws == 1.
Proof.
  intros Hspan Hi Hall. unfold moveDivider.
  pose proof (fractionsOr_length fr k) as Hlen.
  set (current := fractionsOr fr k) in *.
  assert (Hne : ~ span == 0) by lra.
  rewrite !(div_some _ _ Hne). simpl.
  unfold Arr.get.
  destruct (nth_error current i) as [oldLeft|] eqn:EL.
  2:{ apply nth_error_None in EL. lia. }
  destruct (nth_error current (i + 1)) as [oldRight|] eqn:ER.
  2:{ apply nth_error_None in ER. lia. }
  simpl.
  set (newLeft := Qmax (10 / span) _).
  set (newRight := Qmax (10 / span) _).
  assert (Hmin : 0 < 10 / span) by (apply Qlt_shift_div_l; lra).
  assert (HL : 0 < newLeft)
    by (pose proof (Q.le_max_l (10 / span)
                      ((Qmax (origin + 10) (Qmin p (origin + span - 10)) - origin)
                         / span - Arr.sum (firstn i current)));
        fold newLeft in H; lra).
  assert (HR : 0 <= newRight)
    by (pose proof (Q.le_max_l (10 / span) (oldLeft + oldRight - newLeft));
        fold newRight in H; lra).
  set (updated := Arr.set (Arr.set current i newLeft) (i + 1) newRight).
  assert (Hnn : Forall (fun f => 0 <= f) updated)
    by (apply set_nonneg; [apply set_nonneg; [assumption|lra]|assumption]).
  assert (Hget : nth_error updated i = Some newLeft).
  { unfold updated. rewrite set_other by lia. apply set_same. lia. }
  pose proof (sum_ge_entry updated i newLeft Hnn Hget) as Hge.
  destruct (normalize_partition updated) as (out & Hout & Hlo & Hso); [lra|].
  exists out. split; [exact Hout|]. split; [|exact Hso].
  rewrite Hlo. unfold updated. rewrite !set_length. exact Hlen.
Qed.

Lemma sum_one_partition fr k :
  length fr = k -> Arr.sum fr == 1 -> partition fr k.
Proof.
  intros Hl Hs. repeat split; try assumption.
  rewrite Hs. vm_compute. discriminate.
Qed.

Lemma sum_single v : Arr.sum [v] == v.
Proof. unfold Arr.sum. simpl. lra. Qed.

Lemma skipn_last (l : list Q) v :
  (1 <= length l)%nat -> nth_error l (length l - 1) = Some v ->
  skipn (length l - 1) l = [v].
Proof.
  intros Hpos Hget.
  pose proof (length_skipn (length l - 1) l) as Hlen.
  pose proof (nth_error_skipn (length l - 1) l 0) as Hhd.
  rewrite Nat.add_0_r, Hget in Hhd.
  destruct (skipn (length l - 1) l) as [|h [|h' t]]; simpl in *; try lia.
  congruence.
Qed.

Lemma splitMerged_sum old new R R' :
  length old = R -> (1 <= R)%nat -> (1 <= R')%nat ->
  (R = R' -> new = old) ->
  splitMerged old new R R' -> Arr.sum new == Arr.sum old.
Proof.
  intros Hlen HR HR' Hsame (Hnew & Hup & Hdown).
  destruct (Nat.lt_trichotomy R R') as [Hlt|[Heq|Hgt]].
  - destruct (Hup Hlt) as (lastF & Hlast & Hf & Hs).
    rewrite (sum_firstn_skipn new (R - 1)), (sum_firstn_skipn old (R - 1)).
    rewrite Hf, Hs, sum_repeat.
    subst R. rewrite (skipn_last old lastF HR Hlast), sum_single.
    pose proof (ofNat_pos (R' - length old + 1)) as Hk.
    field. assert (0 < Num.ofNat (R' - length old + 1)) by (apply Hk; lia).
    lra.
  - rewrite (Hsame Heq). reflexivity.
  - destruct (Hdown Hgt) as (Hf & Hs).
    rewrite (sum_firstn_skipn new (R' - 1)), (sum_firstn_skipn old (R' - 1)).
    rewrite Hf, Hs, sum_single. reflexivity.
Qed.

Lemma changeCount_same old k : changeCount old k k = Some old.
Proof. unfold changeCount. rewrite Nat.ltb_irrefl. reflexivity. Qed.

Lemma changeCount_partition old oldN num :
  length old = oldN -> (1 <= oldN)%nat -> (1 <= num)%nat ->
  Arr.sum old == 1 ->
  exists new, changeCount old oldN num = Some new /\ partition new num.
Proof.
  intros Hlen HR HR' Hsum.
  destruct (changeCount_splitMerged old oldN num Hlen HR HR')
    as (new & Hnew & Hspec).
  exists new. split; [exact Hnew|].
  apply sum_one_partition; [apply Hspec|].
  rewrite <- Hsum.
  apply (splitMerged_sum old new oldN num Hlen HR HR'); [|exact Hspec].
  intros ->. rewrite changeCount_same in Hnew. congruence.
Qed.

Lemma fractionsOr_sum fr k :
  (1 <= k)%nat ->
  (forall l, fr = Some l -> length l = k -> Arr.sum l == 1) ->
  Arr.sum (fractionsOr fr k) == 1.
Proof.
  intros Hk Hwf. unfold fractionsOr.
  destruct fr as [l|]; [|apply sum_uniform; exact Hk].
  destruct (Nat.eqb (length l) k) eqn:E.
  - apply Nat.eqb_eq in E. apply Hwf; [reflexivity|exact E].
  - apply sum_uniform; exact Hk.
Qed.

Lemma handleMouseMove_divider p st ev dd el pos :
  dragging p st dd el ->
  screenToImage p st (clientX ev) (clientY ev) = Some pos ->
  let a := dividerType (target dd) in
  handleMouseMove p st ev
  = (fr <- moveDivider (fractionsOn a el) (countOn a el) (originOn a el)
                       (spanOn a el) (coordOn a pos) (dividerIndex (target dd)) ;;
     Some (st, [ElementsChange
                  (mapById (dividerElementId (target dd))
                           (fun e => withFractions a e (Some fr))
                           (elements p))])).
Proof.
  intros (Hpan & Hdd & Hel) Hpos a. subst a.
  unfold handleMouseMove. rewrite Hpan, Hpos. unfold bind at 1.
  rewrite Hdd. unfold moveDraggedDivider. rewrite Hel.
  destruct (dividerType (target dd)); simpl;
    match goal with |- context [moveDivider ?a ?b ?c ?d ?e ?f] =>
      destruct (moveDivider a b c d e f) end; reflexivity.
Qed.

(** The partition invariant where no division by zero occurs: a
    divider-drag move over a live element whose span along the axis is
    positive, whose fractions in force are not negative and which has the
    dragged divider, commits a fraction array with one entry per cell
    that sums to 1; a count change through the rows (cols) input to a
    number within its limits, from fractions in force that sum to 1,
    stores the new count with an array of that length that sums to 1. *)
Lemma fractions_partition_kept :
  (forall p st ev dd el pos,
      dragging p st dd el ->
      screenToImage p st (clientX ev) (clientY ev) = Some pos ->
      let a := dividerType (target dd) in
      0 < spanOn a el ->
      (dividerIndex (target dd) + 1 < countOn a el)%nat ->
      Forall (fun f => 0 <= f) (fractionsOr (fractionsOn a el) (countOn a el)) ->
      exists fr,
        handleMouseMove p st ev
        = Some (st, [ElementsChange
                       (mapById (dividerElementId (target dd))
                                (fun e => withFractions a e (Some fr))
                                (elements p))])
        /\ partition fr (countOn a el))
  /\ (forall a sel num els,
      (1 <= num <= countLimit a)%Z ->
      (forall l, fractionsOn a sel = Some l -> length l = countOn a sel ->
                 Arr.sum l == 1) ->
      exists fr,
        countInput a sel (Digits num) els
        = Some (updateElement (id sel) (countUpdate a (Z.to_nat num) fr) els)
        /\ partition fr (Z.to_nat num)).
Proof.
  split.
  - intros p st ev dd el pos Hdrag Hpos a Hspan Hidx Hnn.
    rewrite (handleMouseMove_divider p st ev dd el pos Hdrag Hpos). fold a.
    destruct (moveDivider_partition (fractionsOn a el) (countOn a el)
                (originOn a el) (spanOn a el) (coordOn a pos)
                (dividerIndex (target dd)) Hspan Hidx Hnn)
      as (ws & Hws & Hlen & Hsum).
    rewrite Hws. simpl. exists ws. split; [reflexivity|].
    apply sum_one_partition; assumption.
  - intros a sel num els Hnum Hwf.
    assert (Hone : (1 <= countOn a sel)%nat)
      by (destruct a; apply orOne_pos).
    pose proof (fractionsOr_sum _ _ Hone Hwf) as Hsum.
    destruct (changeCount_partition
                (fractionsOr (fractionsOn a sel) (countOn a sel))
                (countOn a sel) (Z.to_nat num)
                (fractionsOr_length _ _) Hone) as (new & Hnew & Hpart);
      [destruct a; simpl in Hnum; lia|exact Hsum|].
    exists new. split; [|exact Hpart].
    destruct a; simpl in *; unfold rowsOnChange, colsOnChange.
    + replace ((1 <=? num) && (num <=? 50))%Z with true
        by (symmetry; apply andb_true_iff; split; apply Z.leb_le; lia).
      rewrite Hnew. reflexivity.
    + replace ((1 <=? num) && (num <=? 20))%Z with true
        by (symmetry; apply andb_true_iff; split; apply Z.leb_le; lia).
      rewrite Hnew. reflexivity.
Qed.

(** The divider between two equal columns, held with the pointer at 53. *)
Lemma fractions_partition_kept_two_columns :
  exists fr,
    handleMouseMove dragProps dragState (pointer 53 20)
    = Some (dragState,
            [ElementsChange
               (mapById "g" (fun e => withColWidths e (Some fr))
                        (elements dragProps))])
    /\ partition fr 2.
Proof.
  apply (proj1 fractions_partition_kept dragProps dragState (pointer 53 20)
               (mkDragging (mkDivider "g" col 0) 53)
               (colGrid 2 [1 # 2; 1 # 2]) (mkPoint 53 20)).
  - repeat split.
  - reflexivity.
  - reflexivity.
  - simpl. lia.
  - simpl. repeat constructor; discriminate.
Defined.

(** ** Selection by click *)

Lemma smallestAt_snoc pos els el :
  smallestAt pos (els ++ [el])
  = if contains (bbox el) pos then
      match smallestAt pos els with
      | None => Some el
      | Some best =>
          if Num.ltb (area (bbox el)) (area (bbox best)) then Some el
          else Some best
      end
    else smallestAt pos els.
Proof.
  unfold smallestAt. rewrite fold_left_app. simpl.
  destruct (contains (bbox el) pos); [|reflexivity].
  match goal with |- context [fold_left ?f els None] =>
    destruct (fold_left f els None) end; reflexivity.
Qed.

Lemma smallestAt_spec pos els :
  match smallestAt pos els with
  | Some el => innermost pos els el
  | None => forall other, In other els -> contains (bbox other) pos = false
  end.
Proof.
  induction els as [|el els IH] using rev_ind.
  - simpl. intros other [].
  - rewrite smallestAt_snoc.
    destruct (contains (bbox el) pos) eqn:Ein.
    + destruct (smallestAt pos els) as [best|].
      * destruct IH as (Hin & Hc & Hmin).
        destruct (Num.ltb (area (bbox el)) (area (bbox best))) eqn:Elt.
        -- apply ltb_lt in Elt. repeat split.
           ++ apply in_or_app. right. left. reflexivity.
           ++ exact Ein.
           ++ intros other Ho Hco. apply in_app_or in Ho.
              destruct Ho as [Ho|[<-|[]]].
              ** pose proof (Hmin other Ho Hco). lra.
              ** lra.
        -- apply ltb_ge in Elt. repeat split.
           ++ apply in_or_app. left. exact Hin.
           ++ exact Hc.
           ++ intros other Ho Hco. apply in_app_or in Ho.
              destruct Ho as [Ho|[<-|[]]].
              ** apply Hmin; assumption.
              ** exact Elt.
      * repeat split.
        -- apply in_or_app. right. left. reflexivity.
        -- exact Ein.
        -- intros other Ho Hco. apply in_app_or in Ho.
           destruct Ho as [Ho|[<-|[]]].
           ++ rewrite (IH other Ho) in Hco. discriminate.
           ++ lra.
    + destruct (smallestAt pos els) as [best|].
      * destruct IH as (Hin & Hc & Hmin). repeat split.
        -- apply in_or_app. left. exact Hin.
        -- exact Hc.
        -- intros other Ho Hco. apply in_app_or in Ho.
           destruct Ho as [Ho|[<-|[]]].
           ++ apply Hmin; assumption.
           ++ congruence.
      * intros other Ho. apply in_app_or in Ho.
        destruct Ho as [Ho|[<-|[]]]; [apply IH; exact Ho|exact Ein].
Qed.

(** C4 (as amended): releasing a draw whose rectangle is below 10 on
    both axes appends nothing to the collection.  Outside icon-placement
    mode the click selection runs on the pointer position: an innermost
    element under it is selected, and the selection is cleared when no
    element contains it.  In icon-placement mode nothing is notified and
    the selection stays as it was. *)
Theorem small_draw_is_click env p st ev r pos :
  releasing p st -> imageUrl p = true ->
  currentRect st = Some r -> width r < 10 -> height r < 10 ->
  screenToImage p st (clientX ev) (clientY ev) = Some pos ->
  exists ns,
    handleMouseUp env p st ev = Some (setDrawing st false None None, ns)
    /\ elements (deliver p ns) = elements p
    /\ (isIconPlacementMode p = true -> ns = [])
    /\ (isIconPlacementMode p = false ->
        match selectedElementId (deliver p ns) with
        | Some i => exists el, id el = i /\ innermost pos (elements p) el
        | None => forall other, In other (elements p) ->
                                contains (bbox other) pos = false
        end).
Proof.
  intros (Hpan & Hdiv & Hres & Hcrop & Hdraw & Hmode) Himg Hrect Hw Hh Hpos.
  unfold handleMouseUp.
  rewrite Hpan, Hdiv, Hres, Hcrop, Hdraw, Hmode, Hrect. simpl.
  apply ltb_lt in Hw. apply ltb_lt in Hh. rewrite Hw, Hh. simpl.
  unfold handleClick. rewrite Himg. simpl.
  destruct (isIconPlacementMode p) eqn:Eicon.
  - simpl. exists []. repeat split; try reflexivity. discriminate.
  - rewrite Hpos. simpl.
    pose proof (smallestAt_spec pos (elements p)) as Hspec.
    destruct (smallestAt pos (elements p)) as [el|]; simpl;
      eexists; (split; [reflexivity|]); simpl;
      (split; [reflexivity|]); (split; [discriminate|]); intros _.
    + exists el. split; [reflexivity|exact Hspec].
    + exact Hspec.
Qed.

(** A 2 x 3 draw released inside a small box nested in a large one. *)
Lemma small_draw_is_click_nested :
  exists ns,
    handleMouseUp clock clickProps clickState (pointer 17 18)
    = Some (setDrawing clickState false None None, ns)
    /\ elements (deliver clickProps ns) = elements clickProps
    /\ (isIconPlacementMode clickProps = true -> ns = [])
    /\ (isIconPlacementMode clickProps = false ->
        match selectedElementId (deliver clickProps ns) with
        | Some i =>
            exists el,
              id el = i /\ innermost (mkPoint 17 18) (elements clickProps) el
        | None =>
            forall other, In other (elements clickProps) ->
                          contains (bbox other) (mkPoint 17 18) = false
        end).
Proof.
  apply (small_draw_is_click clock clickProps clickState (pointer 17 18)
                             (mkBBox 15 15 2 3) (mkPoint 17 18)).
  - repeat split.
  - reflexivity.
  - reflexivity.
  - reflexivity.
  - reflexivity.
  - reflexivity.
Defined.

(** C4, counterexample: in icon-placement mode with nothing selected a
    press starts a draw; released at 2 x 3 over a box that contains the
    pointer, it leaves the selection empty although the click selection
    would pick that box. *)
Lemma small_draw_in_icon_mode_selects_nothing :
  exists p st,
    run (iconModeProps, idle) [Down clock (pointer 20 20); Move (pointer 22 23)]
    = Some (p, st)
    /\ releasing p st
    /\ currentRect st = Some (mkBBox 20 20 2 3)
    /\ smallestAt (mkPoint 22 23) (elements p)
       = Some (box "a" (mkBBox 0 0 100 100))
    /\ exists w,
         step (p, st) (Up clock (pointer 22 23)) = Some w
         /\ elements (fst w) = elements p
         /\ selectedElementId (fst w) = None.
Proof.
  eexists. eexists. split; [vm_compute; reflexivity|].
  split; [repeat split|].
  split; [reflexivity|].
  split; [reflexivity|].
  eexists. split; [vm_compute; reflexivity|].
  split; reflexivity.
Qed.

(** ** Which values a move reads *)

Lemma screenToImage_setElements p st els sx sy :
  screenToImage (setElements p els) st sx sy = screenToImage p st sx sy.
Proof. reflexivity. Qed.

Lemma resizing_setElements p st els ed rs sel imgW imgH :
  resizing p st ed rs sel imgW imgH ->
  resizing (setElements p els) st ed rs sel imgW imgH.
Proof. intro H. exact H. Qed.

(** C5 (as amended): the bbox a resize move commits is a function of the
    gesture-start snapshot, the image size and the pointer position only;
    whatever the collection has become in the meantime, the same bbox is
    committed.  A divider-drag move has no snapshot: it commits the
    result of the divider arithmetic on the live element's count,
    fractions and bbox and on the pointer position. *)
Theorem moves_read_snapshot_or_live :
  (forall p st ev ed rs sel imgW imgH pos els',
      resizing p st ed rs sel imgW imgH ->
      screenToImage p st (clientX ev) (clientY ev) = Some pos ->
      exists b,
        b = resizeMove ed rs pos imgW imgH
        /\ handleMouseMove p st ev
           = Some (st, [ElementsChange
                          (mapById sel (fun el => withBBox el b) (elements p))])
        /\ handleMouseMove (setElements p els') st ev
           = Some (st, [ElementsChange
                          (mapById sel (fun el => withBBox el b) els')]))
  /\ (forall p st ev dd el pos,
      dragging p st dd el ->
      screenToImage p st (clientX ev) (clientY ev) = Some pos ->
      let a := dividerType (target dd) in
      handleMouseMove p st ev
      = (fr <- moveDivider (fractionsOn a el) (countOn a el) (originOn a el)
                           (spanOn a el) (coordOn a pos)
                           (dividerIndex (target dd)) ;;
         Some (st, [ElementsChange
                      (mapById (dividerElementId (target dd))
                               (fun e => withFractions a e (Some fr))
                               (elements p))]))).
Proof.
  split.
  - intros p st ev ed rs sel imgW imgH pos els' Hres Hpos.
    exists (resizeMove ed rs pos imgW imgH).
    split; [reflexivity|]. split.
    + apply handleMouseMove_resize; assumption.
    + apply (handleMouseMove_resize (setElements p els') st ev ed rs sel
                                    imgW imgH pos).
      * apply resizing_setElements. exact Hres.
      * rewrite screenToImage_setElements. exact Hpos.
  - intros p st ev dd el pos Hdrag Hpos.
    exact (handleMouseMove_divider p st ev dd el pos Hdrag Hpos).
Qed.

(** The north-west corner scenario, against a collection replaced
    mid-gesture. *)
Lemma moves_read_snapshot_corner :
  exists b,
    b = resizeMove Edge.nw (mkResizeStart 50 50 (mkBBox 50 50 100 100))
                   (mkPoint 30 40) 1000 800
    /\ handleMouseMove cornerProps cornerState (pointer 30 40)
       = Some (cornerState,
               [ElementsChange
                  (mapById "a" (fun el => withBBox el b)
                           (elements cornerProps))])
    /\ handleMouseMove
         (setElements cornerProps [box "a" (mkBBox 0 0 500 500)])
         cornerState (pointer 30 40)
       = Some (cornerState,
               [ElementsChange
                  (mapById "a" (fun el => withBBox el b)
                           [box "a" (mkBBox 0 0 500 500)])]).
Proof.
  apply (proj1 moves_read_snapshot_or_live cornerProps cornerState
               (pointer 30 40) Edge.nw
               (mkResizeStart 50 50 (mkBBox 50 50 100 100)) "a"%string
               1000 800 (mkPoint 30 40) [box "a" (mkBBox 0 0 500 500)]).
  - repeat split.
  - reflexivity.
Defined.

(** C5, counterexample: the same press on the second divider and the
    same move, once undisturbed and once with an outside edit of the
    target's widths between the two, commit different widths. *)
Lemma divider_drag_reads_live_fractions :
  exists wA wB fa fb,
    run (threeProps, idle)
        [Down clock (pointer 50 20); Move (pointer 50 20)] = Some wA
    /\ run (threeProps, idle)
           [Down clock (pointer 50 20); External editWidths;
            Move (pointer 50 20)] = Some wB
    /\ map colWidths (elements (fst wA)) = [Some fa]
    /\ map colWidths (elements (fst wB)) = [Some fb]
    /\ Arr.eqv fa [1 # 4; 1 # 4; 1 # 2]
    /\ Arr.eqv fb [1 # 10; 4 # 10; 1 # 2]
    /\ ~ Arr.eqv fa fb.
Proof.
  eexists. eexists. eexists. eexists.
  split; [vm_compute; reflexivity|].
  split; [vm_compute; reflexivity|].
  split; [reflexivity|].
  split; [reflexivity|].
  split; [repeat constructor|].
  split; [repeat constructor|].
  intro H. inversion H as [|a b la lb Hab Hrest]; subst.
  vm_compute in Hab. discriminate.
Qed.

(** ** Pointer-down *)

Lemma selectedElement_truthy p el :
  selectedElement p = Some el -> truthy (selectedElementId p) = true.
Proof.
  unfold selectedElement.
  destruct (selectedElementId p) as [i|]; [|discriminate].
  destruct (truthy (Some i)); [reflexivity|discriminate].
Qed.

Lemma downIconOrDraw_entry env p st ev pos :
  downIconOrDraw env p st pos
  = enter env p st ev pos
          (match iconTarget p with
           | Some el => if contains (bbox el) pos then PlaceIcon el else Absorb
           | None => EnterDrawing
           end).
Proof.
  unfold downIconOrDraw, iconTarget.
  destruct (isIconPlacementMode p); simpl; [|reflexivity].
  destruct (hasOnIconPlaced p); simpl.
  - destruct (selectedElement p) as [el|] eqn:Esel.
    + rewrite (selectedElement_truthy p el Esel). simpl.
      destruct (isIconContainer (type el)); [|reflexivity].
      destruct (contains (bbox el) pos); reflexivity.
    + destruct (truthy (selectedElementId p)); reflexivity.
  - rewrite andb_false_r. reflexivity.
Qed.

Lemma hit_tests_defined p st ev rect :
  canvas st = Some rect -> ~ scale p st == 0 ->
  exists pos divider edge cropEdge,
    screenToImage p st (clientX ev) (clientY ev) = Some pos
    /\ detectDivider p st pos = Some divider
    /\ detectEdge p st pos = Some edge
    /\ detectCropEdge p st pos = Some cropEdge.
Proof.
  intros Hcanvas Hscale.
  unfold screenToImage, detectDivider, detectEdge, detectCropEdge.
  rewrite Hcanvas. rewrite !div_some by exact Hscale. simpl.
  destruct (selectedElement p); destruct (cropRect p);
    do 4 eexists; repeat split; reflexivity.
Qed.

Lemma handleMouseDown_entry env p st ev rect pos divider edge cropEdge :
  imageUrl p = true -> canvas st = Some rect ->
  screenToImage p st (clientX ev) (clientY ev) = Some pos ->
  detectDivider p st pos = Some divider ->
  detectEdge p st pos = Some edge ->
  detectCropEdge p st pos = Some cropEdge ->
  handleMouseDown env p st ev
  = Some (enter env p st ev pos (entryOf p st ev pos divider edge cropEdge)).
Proof.
  intros Himg Hcanvas Hpos Hdiv Hedge Hcrop.
  unfold handleMouseDown, entryOf, panTrigger.
  rewrite Himg. simpl.
  destruct ((button ev =? 1)%Z || altKey ev || spaceHeld st); [reflexivity|].
  rewrite Hpos. unfold bind at 1. rewrite Hdiv. unfold bind at 1.
  destruct divider as [d|]; [reflexivity|].
  rewrite Hedge. unfold bind at 1.
  assert (Hrest :
    (if isColorSampling p && hasOnColorSampled p then
       match canvas st with
       | None => Some (st, [])
       | Some _ =>
           Some (st, [ColorSampled (px pos * scale p st + px (offset st))
                                   (py pos * scale p st + py (offset st))])
       end
     else if isCropMode p then
       cropEdge0 <- detectCropEdge p st pos ;;
       match cropEdge0, cropRect p with
       | Some ce, Some cr =>
           Some (setCropResize st (Some ce)
                   (Some (mkResizeStart (px pos) (py pos) cr)), [])
       | _, _ => Some (setDrawing st true (Some pos) (currentRect st), [])
       end
     else Some (downIconOrDraw env p st pos))
    = Some (enter env p st ev pos
              (if isColorSampling p && hasOnColorSampled p then SampleColor
               else if isCropMode p then
                 match cropEdge, cropRect p with
                 | Some ce, Some cr => EnterCropResizing ce cr
                 | _, _ => EnterCropDrawing
                 end
               else
                 match iconTarget p with
                 | Some el =>
                     if contains (bbox el) pos then PlaceIcon el else Absorb
                 | None => EnterDrawing
                 end))).
  { destruct (isColorSampling p && hasOnColorSampled p).
    - rewrite Hcanvas. reflexivity.
    - destruct (isCropMode p).
      + rewrite Hcrop. unfold bind.
        destruct cropEdge; destruct (cropRect p); reflexivity.
      + rewrite (downIconOrDraw_entry env p st ev pos). reflexivity. }
  destruct edge as [ed|]; destruct (selectedElement p) as [el|];
    try reflexivity; exact Hrest.
Qed.

(** C6 (as amended): with an image loaded, a mounted canvas and a
    non-zero scale, pointer-down tries its entries in this order, first
    match winning: a held pan trigger starts panning; else a divider hit
    starts divider dragging; else a resize edge of the selected element
    starts resizing; else active color sampling samples once; else crop
    mode starts crop-resizing on a crop edge and crop drawing otherwise;
    else icon-placement mode on a selected icon container places one icon
    when the pointer is inside the container and does nothing when it is
    outside; else drawing begins.  A pan trigger decides before any hit
    test is made, and a divider hit leaves the resize session untouched. *)
Theorem pointer_down_order :
  (forall env p st ev rect,
      imageUrl p = true -> canvas st = Some rect -> ~ scale p st == 0 ->
      exists pos divider edge cropEdge,
        screenToImage p st (clientX ev) (clientY ev) = Some pos
        /\ detectDivider p st pos = Some divider
        /\ detectEdge p st pos = Some edge
        /\ detectCropEdge p st pos = Some cropEdge
        /\ handleMouseDown env p st ev
           = Some (enter env p st ev pos
                         (entryOf p st ev pos divider edge cropEdge)))
  /\ (forall env p st ev,
      imageUrl p = true -> panTrigger st ev = true ->
      handleMouseDown env p st ev
      = Some (setPanning st true
                (mkPoint (clientX ev - px (pan st)) (clientY ev - py (pan st))),
              []))
  /\ (forall env p st ev pos d,
      imageUrl p = true -> panTrigger st ev = false ->
      screenToImage p st (clientX ev) (clientY ev) = Some pos ->
      detectDivider p st pos = Some (Some d) ->
      exists st',
        handleMouseDown env p st ev = Some (st', [])
        /\ draggingDivider st'
           = Some (mkDragging d (coordOn (dividerType d) pos))
        /\ resizeEdge st' = resizeEdge st
        /\ resizeStart st' = resizeStart st).
Proof.
  split; [|split].
  - intros env p st ev rect Himg Hcanvas Hscale.
    destruct (hit_tests_defined p st ev rect Hcanvas Hscale)
      as (pos & divider & edge & cropEdge & Hpos & Hdiv & Hedge & Hcrop).
    exists pos, divider, edge, cropEdge.
    repeat (split; [assumption|]).
    apply (handleMouseDown_entry env p st ev rect); assumption.
  - intros env p st ev Himg Hpan.
    unfold handleMouseDown. unfold panTrigger in Hpan.
    rewrite Himg, Hpan. reflexivity.
  - intros env p st ev pos d Himg Hpan Hpos Hdiv.
    unfold handleMouseDown. unfold panTrigger in Hpan.
    rewrite Himg, Hpan, Hpos. unfold bind at 1. rewrite Hdiv. unfold bind.
    eexists. split; [reflexivity|]. repeat split.
Qed.

(** A press on the divider between two equal columns starts a divider
    drag. *)
Lemma pointer_down_order_on_divider :
  exists pos divider edge cropEdge,
    screenToImage dragProps idle 53 20 = Some pos
    /\ detectDivider dragProps idle pos = Some divider
    /\ detectEdge dragProps idle pos = Some edge
    /\ detectCropEdge dragProps idle pos = Some cropEdge
    /\ handleMouseDown clock dragProps idle (pointer 53 20)
       = Some (enter clock dragProps idle (pointer 53 20) pos
                     (entryOf dragProps idle (pointer 53 20) pos
                              divider edge cropEdge)).
Proof.
  apply (proj1 pointer_down_order clock dragProps idle (pointer 53 20)
               (mkPoint 0 0)).
  - reflexivity.
  - reflexivity.
  - discriminate.
Defined.

(** C6, counterexample: in icon-placement mode on a selected toolbar, a
    press outside the toolbar neither places an icon nor begins drawing. *)
Lemma press_outside_icon_container_is_absorbed :
  handleMouseDown clock toolbarProps idle (pointer 500 500) = Some (idle, [])
  /\ screenToImage toolbarProps idle 500 500 = Some (mkPoint 500 500)
  /\ detectDivider toolbarProps idle (mkPoint 500 500) = Some None
  /\ detectEdge toolbarProps idle (mkPoint 500 500) = Some None
  /\ detectCropEdge toolbarProps idle (mkPoint 500 500) = Some None
  /\ entryAsWorded toolbarProps idle (pointer 500 500) (mkPoint 500 500)
                   None None None
     = EnterDrawing
  /\ enter clock toolbarProps idle (pointer 500 500) (mkPoint 500 500)
           EnterDrawing
     = (setDrawing idle true (Some (mkPoint 500 500)) None, [])
  /\ isDrawing (setDrawing idle true (Some (mkPoint 500 500)) None) = true
  /\ isDrawing idle = false.
Proof.
  repeat split; vm_compute; reflexivity.
Qed.

(** ** A move on the divider's own line *)

Lemma eqv_refl l : Arr.eqv l l.
Proof. induction l; constructor; [reflexivity|assumption]. Qed.

Lemma eqv_trans l1 l2 l3 : Arr.eqv l1 l2 -> Arr.eqv l2 l3 -> Arr.eqv l1 l3.
Proof.
  intro H. revert l3.
  induction H as [|a b la lb Hab Hrest IH]; intros l3 H23; inversion H23; subst.
  - constructor.
  - constructor; [etransitivity; eassumption|apply IH; assumption].
Qed.

Lemma sum_eqv l1 l2 : Arr.eqv l1 l2 -> Arr.sum l1 == Arr.sum l2.
Proof.
  induction 1 as [|a b la lb Hab Hrest IH].
  - reflexivity.
  - rewrite !sum_cons, Hab, IH. reflexivity.
Qed.

Lemma map_div_one l t : t == 1 -> Arr.eqv (map (fun w => w / t) l) l.
Proof.
  intro Ht. induction l as [|h r IH]; simpl; constructor; [|assumption].
  rewrite Ht. field.
Qed.

Lemma skipn_cons_nth (l : list Q) i v :
  nth_error l i = Some v -> skipn i l = v :: skipn (S i) l.
Proof.
  revert i. induction l as [|h r IH]; intros [|i] H; simpl in *;
    try discriminate.
  - injection H as ->. reflexivity.
  - apply IH. exact H.
Qed.

Lemma sum_around l i fi fj :
  nth_error l i = Some fi -> nth_error l (i + 1) = Some fj ->
  Arr.sum l == Arr.sum (firstn i l) + fi + fj + Arr.sum (skipn (i + 2) l).
Proof.
  intros Hi Hj.
  rewrite (sum_firstn_skipn l i) at 1.
  rewrite (skipn_cons_nth l i fi Hi), sum_cons.
  replace (S i) with (i + 1)%nat by lia.
  rewrite (skipn_cons_nth l (i + 1) fj Hj), sum_cons.
  replace (S (i + 1)) with (i + 2)%nat by lia.
  ring.
Qed.

Lemma handleMouseDown_divider env p st ev pos d :
  imageUrl p = true -> panTrigger st ev = false ->
  screenToImage p st (clientX ev) (clientY ev) = Some pos ->
  detectDivider p st pos = Some (Some d) ->
  handleMouseDown env p st ev
  = Some (setDraggingDivider st
            (Some (mkDragging d (coordOn (dividerType d) pos))), []).
Proof.
  intros Himg Hpan Hpos Hdiv.
  unfold handleMouseDown. unfold panTrigger in Hpan.
  rewrite Himg, Hpan, Hpos. unfold bind at 1. rewrite Hdiv. reflexivity.
Qed.

(** ** Rounding of the conversion *)

Lemma screenToImage_rounds p st sx sy :
  screenToImage p st sx sy = option_map roundPoint (unrounded p st sx sy).
Proof.
  unfold screenToImage, unrounded.
  destruct (canvas st) as [rect|]; [|reflexivity].
  destruct (Num.div (sx - px rect - px (offset st)) (scale p st)); [|reflexivity].
  destruct (Num.div (sy - py rect - py (offset st)) (scale p st)); reflexivity.
Qed.

Lemma roundPoint_integral pos : integral (roundPoint pos).
Proof.
  exists (Qfloor (px pos + (1 # 2))), (Qfloor (py pos + (1 # 2))).
  split; reflexivity.
Qed.

(** C8 (as amended): the screen-to-image conversion rounds every point
    it returns to integer image-space units, and the resize and
    divider-drag arithmetic of a pointer-move is computed from that
    rounded point: the resize deltas are the rounded pointer coordinates
    minus the gesture-start coordinates. *)
Theorem conversion_always_rounds :
  (forall p st sx sy pos,
      screenToImage p st sx sy = Some pos ->
      integral pos
      /\ exists c, unrounded p st sx sy = Some c /\ pos = roundPoint c)
  /\ (forall p st ev ed rs sel imgW imgH c,
      resizing p st ed rs sel imgW imgH ->
      unrounded p st (clientX ev) (clientY ev) = Some c ->
      handleMouseMove p st ev
      = Some (st, [ElementsChange
                     (mapById sel
                        (fun el =>
                           withBBox el
                             (clampToImage
                                (resized ed (startBBox rs)
                                         (Num.round (px c) - startX rs)
                                         (Num.round (py c) - startY rs))
                                imgW imgH))
                        (elements p))]))
  /\ (forall p st ev dd el c,
      dragging p st dd el ->
      unrounded p st (clientX ev) (clientY ev) = Some c ->
      let a := dividerType (target dd) in
      handleMouseMove p st ev
      = (fr <- moveDivider (fractionsOn a el) (countOn a el) (originOn a el)
                           (spanOn a el) (Num.round (coordOn a c))
                           (dividerIndex (target dd)) ;;
         Some (st, [ElementsChange
                      (mapById (dividerElementId (target dd))
                               (fun e => withFractions a e (Some fr))
                               (elements p))]))).
Proof.
  split; [|split].
  - intros p st sx sy pos Hpos. rewrite screenToImage_rounds in Hpos.
    destruct (unrounded p st sx sy) as [c|]; [|discriminate].
    injection Hpos as <-. split; [apply roundPoint_integral|].
    exists c. split; reflexivity.
  - intros p st ev ed rs sel imgW imgH c Hres Hc.
    apply (handleMouseMove_resize p st ev ed rs sel imgW imgH (roundPoint c)).
    + exact Hres.
    + rewrite screenToImage_rounds, Hc. reflexivity.
  - intros p st ev dd el c Hdrag Hc a.
    assert (Hpos : screenToImage p st (clientX ev) (clientY ev)
                   = Some (roundPoint c))
      by (rewrite screenToImage_rounds, Hc; reflexivity).
    rewrite (handleMouseMove_divider p st ev dd el (roundPoint c) Hdrag Hpos).
    fold a. destruct a; reflexivity.
Qed.

(** The east edge dragged to client x = 802 at zoom 4: the delta used is
    201 - 200, from the rounded pointer. *)
Lemma conversion_rounds_east_edge :
  handleMouseMove eastProps eastState (pointer 802 600)
  = Some (eastState,
          [ElementsChange
             (mapById "a"
                (fun el =>
                   withBBox el
                     (clampToImage
                        (resized Edge.e (mkBBox 100 100 100 100)
                                 (Num.round (802 / 4) - 200)
                                 (Num.round (600 / 4) - 150))
                        1000 800))
                (elements eastProps))]).
Proof.
  apply (proj1 (proj2 conversion_always_rounds) eastProps eastState
               (pointer 802 600) Edge.e
               (mkResizeStart 200 150 (mkBBox 100 100 100 100)) "a"%string
               1000 800 (mkPoint (802 / 4) (600 / 4))).
  - repeat split.
  - reflexivity.
Defined.

(** C8, counterexample: at zoom 4 the pointer at client x = 802 is at
    image x = 200.5; the east-edge resize started at 200 commits width
    101, where the continuous delta 0.5 would give 100.5. *)
Lemma resize_delta_is_rounded :
  exists c b,
    unrounded eastProps eastState 802 600 = Some c
    /\ px c == 401 # 2
    /\ handleMouseMove eastProps eastState (pointer 802 600)
       = Some (eastState,
               [ElementsChange [withBBox (box "a" (mkBBox 100 100 100 100)) b]])
    /\ width b == 101
    /\ width (resizeMove Edge.e (mkResizeStart 200 150 (mkBBox 100 100 100 100))
                         c 1000 800) == 201 # 2
    /\ ~ width b
         == width (resizeMove Edge.e
                     (mkResizeStart 200 150 (mkBBox 100 100 100 100))
                     c 1000 800).
Proof.
  eexists. eexists.
  split; [vm_compute; reflexivity|].
  split; [reflexivity|].
  split; [vm_compute; reflexivity|].
  split; [reflexivity|].
  split; [reflexivity|].
  discriminate.
Qed.

(** ** Frame of the geometry mutations *)

Lemma mapById_framed i (R : UIElement -> UIElement -> Prop) f els :
  (forall el, R el (f el)) -> framed i R els (mapById i f els).
Proof.
  intro HR. unfold framed, mapById.
  induction els as [|el rest IH]; simpl; constructor; [|exact IH].
  destruct (String.eqb (id el) i); [apply HR|reflexivity].
Qed.

Lemma withBBox_frame b el : sameButBBox el (withBBox el b).
Proof. repeat split. Qed.

Lemma withFractions_frame a fr el : sameButFractions a el (withFractions a el fr).
Proof. destruct a; repeat split. Qed.

Lemma created_appends env p r :
  exists el more rest,
    created env p r = ElementsChange (elements p ++ el :: more) :: rest
    /\ bbox el = r /\ type el = currentType p.
Proof.
  unfold created.
  destruct (drawMode p).
  - destruct (hasOnElementCreated p); do 3 eexists;
      (split; [reflexivity|split; reflexivity]).
  - destruct ((1 <? gridRows p) || (1 <? gridCols p))%nat.
    + destruct (String.eqb (currentType p) "listbox").
      * do 3 eexists. split; [reflexivity|split; reflexivity].
      * destruct (hasOnElementCreated p); do 3 eexists;
          (split; [reflexivity|split; reflexivity]).
    + destruct (hasOnElementCreated p); do 3 eexists;
        (split; [reflexivity|split; reflexivity]).
Qed.

Lemma handleMouseUp_creates env p st ev r :
  releasing p st -> currentRect st = Some r ->
  10 <= width r \/ 10 <= height r ->
  handleMouseUp env p st ev
  = Some (setDrawing st false None None, created env p r).
Proof.
  intros (Hpan & Hdiv & Hres & Hcrop & Hdraw & Hmode) Hrect Hbig.
  unfold handleMouseUp.
  rewrite Hpan, Hdiv, Hres, Hcrop, Hdraw, Hmode, Hrect. simpl.
  destruct Hbig as [H|H]; apply ltb_ge in H; rewrite H;
    [|rewrite andb_false_r]; reflexivity.
Qed.

(** C9: a resize move replaces, position by position, each element
    carrying the selected id by the same element with a new bbox and
    keeps every other element; a committed divider move does so with the
    fractions of the dragged axis in place of the bbox; a creation keeps
    the existing elements and appends to them. *)
Theorem geometry_mutations_frame :
  (forall p st ev ed rs sel imgW imgH pos,
      resizing p st ed rs sel imgW imgH ->
      screenToImage p st (clientX ev) (clientY ev) = Some pos ->
      exists els',
        handleMouseMove p st ev = Some (st, [ElementsChange els'])
        /\ framed sel sameButBBox (elements p) els')
  /\ (forall p st ev dd el pos st' ns,
      dragging p st dd el ->
      screenToImage p st (clientX ev) (clientY ev) = Some pos ->
      handleMouseMove p st ev = Some (st', ns) ->
      exists els',
        ns = [ElementsChange els']
        /\ framed (dividerElementId (target dd))
                  (sameButFractions (dividerType (target dd)))
                  (elements p) els')
  /\ (forall env p st ev r,
      releasing p st -> currentRect st = Some r ->
      10 <= width r \/ 10 <= height r ->
      exists ns el more rest,
        handleMouseUp env p st ev = Some (setDrawing st false None None, ns)
        /\ ns = ElementsChange (elements p ++ el :: more) :: rest).
Proof.
  split; [|split].
  - intros p st ev ed rs sel imgW imgH pos Hres Hpos.
    eexists. split.
    + apply (handleMouseMove_resize p st ev ed rs sel imgW imgH pos);
        assumption.
    + apply mapById_framed. intro el. apply withBBox_frame.
  - intros p st ev dd el pos st' ns Hdrag Hpos Hmove.
    rewrite (handleMouseMove_divider p st ev dd el pos Hdrag Hpos) in Hmove.
    match type of Hmove with
    | context [moveDivider ?a ?b ?c ?d ?e ?f] =>
        destruct (moveDivider a b c d e f) as [fr|]
    end; [|discriminate].
    simpl in Hmove. injection Hmove as <- <-.
    eexists. split; [reflexivity|].
    apply mapById_framed. intro e. apply withFractions_frame.
  - intros env p st ev r Hrel Hrect Hbig.
    destruct (created_appends env p r) as (el & more & rest & Hc & _ & _).
    exists (created env p r), el, more, rest.
    split; [apply handleMouseUp_creates; assumption|exact Hc].
Qed.

(** The north-west corner scenario leaves the element's other fields. *)
Lemma geometry_mutations_frame_corner :
  exists els',
    handleMouseMove cornerProps cornerState (pointer 30 40)
    = Some (cornerState, [ElementsChange els'])
    /\ framed "a" sameButBBox (elements cornerProps) els'.
Proof.
  apply (proj1 geometry_mutations_frame cornerProps cornerState
               (pointer 30 40) Edge.nw
               (mkResizeStart 50 50 (mkBBox 50 50 100 100)) "a"%string
               1000 800 (mkPoint 30 40)).
  - repeat split.
  - reflexivity.
Defined.

(** C10: the click fallback of a release needs both sides below 10, so
    a draw with one side of at least 10 creates an element with the drawn
    rectangle as its bbox, whatever the other side; the draw from
    (100, 100) to (105, 150) on an empty 1000 x 800 image appends an
    element 5 wide and 50 high. *)
Theorem draw_creates_below_minimum :
  (forall env p st ev r,
      releasing p st -> currentRect st = Some r ->
      10 <= width r \/ 10 <= height r ->
      exists ns el more rest,
        handleMouseUp env p st ev = Some (setDrawing st false None None, ns)
        /\ ns = ElementsChange (elements p ++ el :: more) :: rest
        /\ bbox el = r)
  /\ exists w el,
       run (blank, idle)
           [Down clock (pointer 100 100); Move (pointer 105 150);
            Up clock (pointer 105 150)] = Some w
       /\ elements (fst w) = [el]
       /\ bbox el = mkBBox 100 100 5 50
       /\ width (bbox el) < 10.
Proof.
  split.
  - intros env p st ev r Hrel Hrect Hbig.
    destruct (created_appends env p r) as (el & more & rest & Hc & Hb & _).
    exists (created env p r), el, more, rest.
    split; [apply handleMouseUp_creates; assumption|].
    split; [exact Hc|exact Hb].
  - eexists. eexists.
    split; [vm_compute; reflexivity|].
    split; [reflexivity|]. split; reflexivity.
Qed.

(** A 5 x 50 rectangle released outside crop mode. *)
Lemma draw_creates_narrow_box :
  exists ns el more rest,
    handleMouseUp clock blank
                  (setDrawing idle true (Some (mkPoint 100 100))
                              (Some (mkBBox 100 100 5 50)))
                  (pointer 105 150)
    = Some (setDrawing
              (setDrawing idle true (Some (mkPoint 100 100))
                          (Some (mkBBox 100 100 5 50)))
              false None None, ns)
    /\ ns = ElementsChange (elements blank ++ el :: more) :: rest
    /\ bbox el = mkBBox 100 100 5 50.
Proof.
  apply (proj1 draw_creates_below_minimum clock blank
               (setDrawing idle true (Some (mkPoint 100 100))
                           (Some (mkBBox 100 100 5 50)))
               (pointer 105 150) (mkBBox 100 100 5 50)).
  - repeat split.
  - reflexivity.
  - right. discriminate.
Defined.

(** ** The divider a press finds belongs to the element it names *)

Lemma cumulate_length cum fr span : length (cumulate cum fr span) = length fr.
Proof.
  revert cum. induction fr as [|f rest IH]; intro cum; simpl;
    [reflexivity|rewrite IH; reflexivity].
Qed.

Lemma positions_length origin span k fr :
  length (positions origin span k fr) = (k - 1)%nat.
Proof.
  unfold positions.
  assert (Hu : length (map (fun c => origin + Num.ofNat c * (span / Num.ofNat k))
                           (seq 1 (k - 1))) = (k - 1)%nat)
    by (rewrite length_map, length_seq; reflexivity).
  destruct fr as [l|]; [|exact Hu].
  destruct (Nat.eqb (length l) k) eqn:E; [|exact Hu].
  apply Nat.eqb_eq in E.
  rewrite cumulate_length, length_firstn. lia.
Qed.

Lemma findIndexFrom_bound f l i j :
  findIndexFrom f l i = Some j -> (i <= j < i + length l)%nat.
Proof.
  revert i. induction l as [|a rest IH]; intros i H; simpl in H.
  - discriminate.
  - destruct (f a).
    + injection H as <-. simpl. lia.
    + apply IH in H. simpl. lia.
Qed.

Lemma detectDividerIn_range threshold pos el d :
  detectDividerIn threshold pos el = Some d ->
  dividerElementId d = id el
  /\ (dividerIndex d + 1 < countOn (dividerType d) el)%nat.
Proof.
  unfold detectDividerIn.
  destruct ((orOne (rows el) <=? 1)%nat && (orOne (cols el) <=? 1)%nat);
    [discriminate|].
  destruct (_ || _); [discriminate|].
  destruct (_ || _); [discriminate|].
  destruct (findIndexFrom _ (colPositions (getGridPositions el)) 0)
    as [c|] eqn:Ec.
  - intro H. injection H as <-. split; [reflexivity|].
    apply findIndexFrom_bound in Ec. simpl in Ec.
    rewrite positions_length in Ec. simpl. lia.
  - destruct (findIndexFrom _ (rowPositions (getGridPositions el)) 0)
      as [r|] eqn:Er; [|discriminate].
    intro H. injection H as <-. split; [reflexivity|].
    apply findIndexFrom_bound in Er. simpl in Er.
    rewrite positions_length in Er. simpl. lia.
Qed.

Lemma detectDividerAmong_range threshold pos els d :
  detectDividerAmong threshold pos els = Some d ->
  exists el,
    In el els /\ dividerElementId d = id el
    /\ (dividerIndex d + 1 < countOn (dividerType d) el)%nat.
Proof.
  induction els as [|el rest IH]; simpl; [discriminate|].
  destruct (detectDividerIn threshold pos el) as [d'|] eqn:E.
  - intro H. injection H as <-.
    exists el. split; [left; reflexivity|].
    apply (detectDividerIn_range threshold pos el d' E).
  - intro H. destruct (IH H) as (el' & Hin & Hrest).
    exists el'. split; [right; exact Hin|exact Hrest].
Qed.

(** ** A divider drag over a zero span *)

Lemma moveDivider_zero_span fr k origin span p i :
  span == 0 -> moveDivider fr k origin span p i = None.
Proof.
  intro H. unfold moveDivider, Num.div.
  apply Qeq_bool_iff in H. rewrite H. reflexivity.
Qed.

(** C1, at the failing input: in grid draw mode with two columns, a draw
    from (100, 100) to (100, 150) is 0 wide and 50 high, so it is not a
    click and creates a two-column element of width 0, without explicit
    widths; a press at (100, 120) finds its column divider, and the next
    pointer-move divides by the zero width.  The model answers [None]
    there: in the source [newFraction] and [minWidth] are infinite, the
    sum is infinite and every normalised width is NaN, so the committed
    array does not sum to 1. *)
Theorem zero_width_grid_divider_move_not_finite :
  exists p st el,
    run (gridToolProps, idle)
        [Down clock (pointer 100 100); Move (pointer 100 150);
         Up clock (pointer 100 150); Down clock (pointer 100 120)]
    = Some (p, st)
    /\ elements p = [el]
    /\ cols el = Some 2%nat /\ colWidths el = None
    /\ bbox el = mkBBox 100 100 0 50
    /\ draggingDivider st = Some (mkDragging (mkDivider "el_42" col 0) 100)
    /\ dragging p st (mkDragging (mkDivider "el_42" col 0) 100) el
    /\ Num.div 10 (width (bbox el)) = None
    /\ handleMouseMove p st (pointer 100 120) = None.
Proof.
  eexists. eexists. eexists.
  split; [vm_compute; reflexivity|].
  split; [reflexivity|].
  repeat split.
Qed.

(** * Further properties of the canvas *)

(** ** What a divider hit guarantees *)

Lemma findIndexFrom_sound f l i j :
  findIndexFrom f l i = Some j ->
  exists a, nth_error l (j - i) = Some a /\ f a = true.
Proof.
  revert i. induction l as [|a rest IH]; intros i H; simpl in H.
  - discriminate.
  - destruct (f a) eqn:Efa.
    + injection H as <-. exists a. rewrite Nat.sub_diag. split; [reflexivity|exact Efa].
    + pose proof (findIndexFrom_bound f rest (S i) j H) as Hb.
      destruct (IH (S i) H) as (b & Hb1 & Hb2).
      exists b. split; [|exact Hb2].
      replace (j - i)%nat with (S (j - S i)) by lia. exact Hb1.
Qed.

Lemma detectDividerIn_near threshold pos el d :
  detectDividerIn threshold pos el = Some d ->
  let a := dividerType d in
  exists line,
    nth_error (linesOn a el) (dividerIndex d) = Some line
    /\ Qabs (coordOn a pos - line) < threshold
    /\ originOn (otherAxis a) el <= coordOn (otherAxis a) pos
    /\ coordOn (otherAxis a) pos
       <= originOn (otherAxis a) el + spanOn (otherAxis a) el.
Proof.
  unfold detectDividerIn.
  destruct ((orOne (rows el) <=? 1)%nat && (orOne (cols el) <=? 1)%nat);
    [discriminate|].
  destruct (_ || _); [discriminate|].
  destruct (_ || _); [discriminate|].
  destruct (findIndexFrom _ (colPositions (getGridPositions el)) 0)
    as [c|] eqn:Ec.
  - intro H. injection H as <-. simpl.
    destruct (findIndexFrom_sound _ _ _ _ Ec) as (line & Hn & Hf).
    rewrite Nat.sub_0_r in Hn.
    apply andb_true_iff in Hf. destruct Hf as [Hf Hle].
    apply andb_true_iff in Hf. destruct Hf as [Hlt Hge].
    exists line. split; [exact Hn|].
    apply ltb_lt in Hlt. apply geb_ge in Hge. apply leb_le in Hle.
    repeat split; assumption.
  - destruct (findIndexFrom _ (rowPositions (getGridPositions el)) 0)
      as [r|] eqn:Er; [|discriminate].
    intro H. injection H as <-. simpl.
    destruct (findIndexFrom_sound _ _ _ _ Er) as (line & Hn & Hf).
    rewrite Nat.sub_0_r in Hn.
    apply andb_true_iff in Hf. destruct Hf as [Hf Hle].
    apply andb_true_iff in Hf. destruct Hf as [Hlt Hge].
    exists line. split; [exact Hn|].
    apply ltb_lt in Hlt. apply geb_ge in Hge. apply leb_le in Hle.
    repeat split; assumption.
Qed.

Lemma detectDividerAmong_near threshold pos els d :
  detectDividerAmong threshold pos els = Some d ->
  exists el, In el els /\ detectDividerIn threshold pos el = Some d.
Proof.
  induction els as [|el rest IH]; simpl; [discriminate|].
  destruct (detectDividerIn threshold pos el) as [d'|] eqn:E.
  - intro H. injection H as <-. exists el. split; [left; reflexivity|exact E].
  - intro H. destruct (IH H) as (el' & Hin & Hd).
    exists el'. split; [right; exact Hin|exact Hd].
Qed.

(** X1: a divider found by the hit test belongs to an element of the
    collection, is one of its inner dividers (its index plus one is below
    the count along the axis, so the element has at least two cells
    there), lies within the divider tolerance (6 / scale) of the pointer
    along the axis, and the pointer is inside the element's bbox along
    the other axis. *)
Theorem divider_hit_is_near_inner_divider p st pos d :
  detectDivider p st pos = Some (Some d) ->
  let a := dividerType d in
  exists el threshold line,
    In el (elements p) /\ dividerElementId d = id el
    /\ Num.div DIVIDER_THRESHOLD (scale p st) = Some threshold
    /\ (dividerIndex d + 1 < countOn a el)%nat
    /\ nth_error (linesOn a el) (dividerIndex d) = Some line
    /\ Qabs (coordOn a pos - line) < threshold
    /\ originOn (otherAxis a) el <= coordOn (otherAxis a) pos
    /\ coordOn (otherAxis a) pos
       <= originOn (otherAxis a) el + spanOn (otherAxis a) el.
Proof.
  unfold detectDivider.
  destruct (Num.div DIVIDER_THRESHOLD (scale p st)) as [t|] eqn:Et;
    [|discriminate].
  unfold bind. intro H. cbv zeta. injection H as H.
  destruct (detectDividerAmong_near t pos (elements p) d H) as (el & Hin & Hd).
  destruct (detectDividerIn_range t pos el d Hd) as [Hid Hidx].
  destruct (detectDividerIn_near t pos el d Hd) as (line & Hn & Hnear & Hlo & Hhi).
  exists el, t, line. repeat split; assumption.
Qed.

(** The divider of two equal columns, found from 53. *)
Lemma divider_hit_two_columns :
  exists el threshold line,
    In el (elements dragProps) /\ "g"%string = id el
    /\ Num.div DIVIDER_THRESHOLD (scale dragProps idle) = Some threshold
    /\ (0 + 1 < countOn col el)%nat
    /\ nth_error (linesOn col el) 0 = Some line
    /\ Qabs (53 - line) < threshold
    /\ originOn row el <= 20
    /\ 20 <= originOn row el + spanOn row el.
Proof.
  apply (divider_hit_is_near_inner_divider dragProps idle (mkPoint 53 20)
           (mkDivider "g" col 0)).
  reflexivity.
Defined.

(** ** What a resize edge guarantees *)

Lemma edgeOf_near threshold pos b ed :
  edgeOf threshold pos b = Some ed ->
  (north ed = true -> Qabs (py pos - y b) < threshold)
  /\ (south ed = true -> Qabs (py pos - (y b + height b)) < threshold)
  /\ (west ed = true -> Qabs (px pos - x b) < threshold)
  /\ (east ed = true -> Qabs (px pos - (x b + width b)) < threshold)
  /\ (north ed || south ed = true ->
      x b - threshold <= px pos /\ px pos <= x b + width b + threshold)
  /\ (west ed || east ed = true ->
      y b - threshold <= py pos /\ py pos <= y b + height b + threshold).
Proof.
  unfold edgeOf. cbv zeta.
  destruct (Num.ltb (Qabs (px pos - x b)) threshold) eqn:EL;
  destruct (Num.ltb (Qabs (px pos - (x b + width b))) threshold) eqn:ER;
  destruct (Num.ltb (Qabs (py pos - y b)) threshold) eqn:ET;
  destruct (Num.ltb (Qabs (py pos - (y b + height b))) threshold) eqn:EB;
  destruct (Num.geb (px pos) (x b - threshold)
            && Num.leb (px pos) (x b + width b + threshold)) eqn:EX;
  destruct (Num.geb (py pos) (y b - threshold)
            && Num.leb (py pos) (y b + height b + threshold)) eqn:EY;
  simpl; intro H; try discriminate; injection H as <-; simpl;
  repeat match goal with
  | E : Num.ltb _ _ = true |- _ => apply ltb_lt in E
  | E : _ && _ = true |- _ =>
      apply andb_true_iff in E;
      let A := fresh "A" in let B := fresh "B" in
      destruct E as [A B]; apply geb_ge in A; apply leb_le in B
  end;
  repeat apply conj; intro; try discriminate; try assumption;
  apply conj; assumption.
Qed.

(** X2: a resize edge found on the selected element names only sides of
    its bbox the pointer is within the edge tolerance (8 / scale) of,
    names at least one, and the pointer is inside the bbox grown by the
    tolerance along the side; when the top and the left side are both
    near and the pointer is inside the grown bbox, the code is the
    north-west corner whatever else is near. *)
Theorem resize_edge_is_near p st :
  (forall pos ed,
      detectEdge p st pos = Some (Some ed) ->
      exists el threshold,
        selectedElement p = Some el
        /\ Num.div EDGE_THRESHOLD (scale p st) = Some threshold
        /\ north ed || south ed || west ed || east ed = true
        /\ (north ed = true -> Qabs (py pos - y (bbox el)) < threshold)
        /\ (south ed = true ->
            Qabs (py pos - (y (bbox el) + height (bbox el))) < threshold)
        /\ (west ed = true -> Qabs (px pos - x (bbox el)) < threshold)
        /\ (east ed = true ->
            Qabs (px pos - (x (bbox el) + width (bbox el))) < threshold)
        /\ (north ed || south ed = true ->
            x (bbox el) - threshold <= px pos
            /\ px pos <= x (bbox el) + width (bbox el) + threshold)
        /\ (west ed || east ed = true ->
            y (bbox el) - threshold <= py pos
            /\ py pos <= y (bbox el) + height (bbox el) + threshold))
  /\ (forall threshold pos b,
      Qabs (py pos - y b) < threshold -> Qabs (px pos - x b) < threshold ->
      px pos <= x b + width b + threshold ->
      py pos <= y b + height b + threshold ->
      edgeOf threshold pos b = Some Edge.nw).
Proof.
  split.
  - intros pos ed. unfold detectEdge.
    destruct (selectedElement p) as [el|]; [|discriminate].
    destruct (Num.div EDGE_THRESHOLD (scale p st)) as [t|]; [|discriminate].
    unfold bind. intro H. injection H as H.
    exists el, t. split; [reflexivity|]. split; [reflexivity|].
    split; [destruct ed; reflexivity|].
    apply edgeOf_near. exact H.
  - intros t pos b HT HL HX HY. unfold edgeOf. cbv zeta.
    pose proof HT as HT'. pose proof HL as HL'.
    apply Qabs_Qlt_condition in HT'. apply Qabs_Qlt_condition in HL'.
    apply ltb_lt in HT. apply ltb_lt in HL. rewrite HT, HL.
    replace (Num.geb (px pos) (x b - t)) with true
      by (symmetry; apply geb_ge; lra).
    replace (Num.leb (px pos) (x b + width b + t)) with true
      by (symmetry; apply leb_le; lra).
    replace (Num.geb (py pos) (y b - t)) with true
      by (symmetry; apply geb_ge; lra).
    replace (Num.leb (py pos) (y b + height b + t)) with true
      by (symmetry; apply leb_le; lra).
    reflexivity.
Qed.

(** A press one unit inside the top-left corner of the selected element
    of the corner scenario. *)
Lemma resize_edge_top_left :
  exists el threshold,
    selectedElement cornerProps = Some el
    /\ Num.div EDGE_THRESHOLD (scale cornerProps idle) = Some threshold
    /\ north Edge.nw || south Edge.nw || west Edge.nw || east Edge.nw = true
    /\ (north Edge.nw = true -> Qabs (51 - y (bbox el)) < threshold)
    /\ (south Edge.nw = true ->
        Qabs (51 - (y (bbox el) + height (bbox el))) < threshold)
    /\ (west Edge.nw = true -> Qabs (51 - x (bbox el)) < threshold)
    /\ (east Edge.nw = true ->
        Qabs (51 - (x (bbox el) + width (bbox el))) < threshold)
    /\ (north Edge.nw || south Edge.nw = true ->
        x (bbox el) - threshold <= 51
        /\ 51 <= x (bbox el) + width (bbox el) + threshold)
    /\ (west Edge.nw || east Edge.nw = true ->
        y (bbox el) - threshold <= 51
        /\ 51 <= y (bbox el) + height (bbox el) + threshold).
Proof.
  apply (proj1 (resize_edge_is_near cornerProps idle) (mkPoint 51 51) Edge.nw).
  reflexivity.
Defined.

(** ** The candidate rectangle of a draw *)

Lemma handleMouseMove_draw p st ev sp imgW imgH pos :
  drawingNew p st sp imgW imgH ->
  screenToImage p st (clientX ev) (clientY ev) = Some pos ->
  handleMouseMove p st ev
  = Some (setCurrentRect st
            (Some (mkBBox (Qmin (px sp) (Qmax 0 (Qmin (px pos) imgW)))
                          (Qmin (py sp) (Qmax 0 (Qmin (py pos) imgH)))
                          (Qabs (Qmax 0 (Qmin (px pos) imgW) - px sp))
                          (Qabs (Qmax 0 (Qmin (py pos) imgH) - py sp)))),
          []).
Proof.
  intros (Hpan & Hdiv & Hres & Hcrop & Hdraw & Hsp & Himg & Hmode) Hpos.
  unfold handleMouseMove. rewrite Hpan, Hpos. unfold bind at 1.
  rewrite Hdiv, Hres, Himg, Hcrop.
  assert (Hgo : moveHoverAndDraw p st pos
                = Some (setCurrentRect st
            (Some (mkBBox (Qmin (px sp) (Qmax 0 (Qmin (px pos) imgW)))
                          (Qmin (py sp) (Qmax 0 (Qmin (py pos) imgH)))
                          (Qabs (Qmax 0 (Qmin (px pos) imgW) - px sp))
                          (Qabs (Qmax 0 (Qmin (py pos) imgH) - py sp)))),
          [])).
  { unfold moveHoverAndDraw. rewrite Hdraw, Hmode, Hsp, Himg. reflexivity. }
  destruct (resizeStart st); destruct (selectedElementId p);
    destruct (cropResizeStart st); destruct (hasOnCropRectChange p);
    exact Hgo.
Qed.

Lemma span_between a c :
  0 <= Qabs (c - a) /\ Qmin a c + Qabs (c - a) == Qmax a c.
Proof.
  split; [apply Qabs_nonneg|].
  apply Qabs_case; intro; minmax.
Qed.

(** X3: while a new element is drawn over an image of non-negative
    size, each pointer-move sets the candidate rectangle to the
    rectangle spanned by the gesture-start point and the pointer clamped
    into the image: its sides are not negative, it starts at the smaller
    and ends at the larger of the two coordinates, and it lies inside the
    image along every axis on which the start point does. *)
Theorem draw_rectangle_spans_start_and_pointer p st ev sp imgW imgH pos :
  drawingNew p st sp imgW imgH ->
  screenToImage p st (clientX ev) (clientY ev) = Some pos ->
  0 <= imgW -> 0 <= imgH ->
  exists r cx cy,
    handleMouseMove p st ev = Some (setCurrentRect st (Some r), [])
    /\ cx == clampInto 0 imgW (px pos) /\ cy == clampInto 0 imgH (py pos)
    /\ 0 <= width r /\ 0 <= height r
    /\ x r == Qmin (px sp) cx /\ x r + width r == Qmax (px sp) cx
    /\ y r == Qmin (py sp) cy /\ y r + height r == Qmax (py sp) cy
    /\ (0 <= px sp <= imgW -> 0 <= x r /\ x r + width r <= imgW)
    /\ (0 <= py sp <= imgH -> 0 <= y r /\ y r + height r <= imgH).
Proof.
  intros Hdraw Hpos HW HH.
  eexists. exists (Qmax 0 (Qmin (px pos) imgW)), (Qmax 0 (Qmin (py pos) imgH)).
  split; [apply (handleMouseMove_draw p st ev sp imgW imgH pos); assumption|].
  split; [apply clampInto_maxmin; exact HW|].
  split; [apply clampInto_maxmin; exact HH|].
  simpl.
  destruct (span_between (px sp) (Qmax 0 (Qmin (px pos) imgW))) as [Hwx Hex].
  destruct (span_between (py sp) (Qmax 0 (Qmin (py pos) imgH))) as [Hwy Hey].
  split; [exact Hwx|]. split; [exact Hwy|].
  split; [reflexivity|]. split; [exact Hex|].
  split; [reflexivity|]. split; [exact Hey|].
  split.
  - intros [Hlo Hhi]. rewrite Hex. split; minmax.
  - intros [Hlo Hhi]. rewrite Hey. split; minmax.
Qed.

(** A draw started at (15, 15) with the pointer dragged out of the image
    to the left. *)
Lemma draw_rectangle_pointer_left_of_image :
  exists r cx cy,
    handleMouseMove clickProps clickState (pointer (-30) 40)
    = Some (setCurrentRect clickState (Some r), [])
    /\ cx == clampInto 0 1000 (-30) /\ cy == clampInto 0 800 40
    /\ 0 <= width r /\ 0 <= height r
    /\ x r == Qmin 15 cx /\ x r + width r == Qmax 15 cx
    /\ y r == Qmin 15 cy /\ y r + height r == Qmax 15 cy
    /\ (0 <= 15 <= 1000 -> 0 <= x r /\ x r + width r <= 1000)
    /\ (0 <= 15 <= 800 -> 0 <= y r /\ y r + height r <= 800).
Proof.
  apply (draw_rectangle_spans_start_and_pointer clickProps clickState
           (pointer (-30) 40) (mkPoint 15 15) 1000 800 (mkPoint (-30) 40)).
  - repeat split.
  - reflexivity.
  - discriminate.
  - discriminate.
Defined.


(** ** Panning *)

Lemma run_moves_while_panning p s mvs d :
  isPanning s = true ->
  exists s',
    run (p, s) (map Move mvs) = Some (p, s')
    /\ isPanning s' = true /\ panStart s' = panStart s
    /\ pan s' = match mvs with
                | [] => pan s
                | _ => mkPoint (clientX (last mvs d) - px (panStart s))
                               (clientY (last mvs d) - py (panStart s))
                end.
Proof.
  revert s. induction mvs as [|m rest IH]; intros s Hpan.
  - exists s. repeat split; assumption.
  - destruct (IH (setPan s (mkPoint (clientX m - px (panStart s))
                                    (clientY m - py (panStart s)))) Hpan)
      as (s' & Hrun & Hp & Hstart & Hlast).
    exists s'. split.
    + cbn [map run step]. unfold handleMouseMove. rewrite Hpan.
      cbn [bind fst snd deliver fold_left]. exact Hrun.
    + split; [exact Hp|]. split; [exact Hstart|].
      rewrite Hlast. destruct rest as [|m' rest']; reflexivity.
Qed.

(** X4: a press with a pan trigger held followed by pointer-moves leaves
    the pan at its value at the press plus the displacement of the last
    pointer position from the press position, whatever the path in
    between, and changes nothing the owner holds; the release then ends
    panning and keeps that pan. *)
Theorem pan_follows_pointer env env' p st ev mvs lst ev' :
  imageUrl p = true -> panTrigger st ev = true ->
  exists st' st'',
    run (p, st) (Down env ev :: map Move (mvs ++ [lst])) = Some (p, st')
    /\ isPanning st' = true
    /\ px (pan st') == px (pan st) + (clientX lst - clientX ev)
    /\ py (pan st') == py (pan st) + (clientY lst - clientY ev)
    /\ run (p, st) (Down env ev :: map Move (mvs ++ [lst]) ++ [Up env' ev'])
       = Some (p, st'')
    /\ isPanning st'' = false /\ pan st'' = pan st'.
Proof.
  intros Himg Htrig. unfold panTrigger in Htrig.
  set (s0 := setPanning st true
               (mkPoint (clientX ev - px (pan st)) (clientY ev - py (pan st)))).
  destruct (run_moves_while_panning p s0 (mvs ++ [lst]) lst eq_refl)
    as (s' & Hrun & Hp & Hstart & Hlast).
  assert (Hdown : step (p, st) (Down env ev) = Some (p, s0)).
  { cbn [step]. unfold handleMouseDown. rewrite Himg, Htrig. reflexivity. }
  rewrite last_last in Hlast.
  assert (Hpan' : pan s' = mkPoint (clientX lst - px (panStart s0))
                                   (clientY lst - py (panStart s0)))
    by (destruct (mvs ++ [lst]) eqn:E;
        [destruct mvs; discriminate|exact Hlast]).
  exists s', (setPanning s' false (panStart s')).
  split; [cbn [run]; rewrite Hdown; exact Hrun|].
  split; [exact Hp|].
  split; [rewrite Hpan'; simpl; ring|].
  split; [rewrite Hpan'; simpl; ring|].
  split.
  - change (Down env ev :: map Move (mvs ++ [lst]) ++ [Up env' ev'])
      with ([Down env ev] ++ map Move (mvs ++ [lst]) ++ [Up env' ev']).
    cbn [app run]. rewrite Hdown. cbn [bind].
    assert (Happ : forall w es1 es2 w1,
               run w es1 = Some w1 -> run w (es1 ++ es2) = run w1 es2).
    { intros w es1. revert w. induction es1 as [|e r IHr]; intros w es2 w1 H.
      - injection H as <-. reflexivity.
      - cbn [app run] in *. destruct (step w e) as [w'|]; [|discriminate].
        cbn [bind] in *. apply IHr. exact H. }
    rewrite (Happ _ _ _ _ Hrun). cbn [run step]. unfold handleMouseUp.
    rewrite Hp. reflexivity.
  - split; reflexivity.
Qed.

(** Space held on the idle canvas: a press at (10, 10) and moves through
    (300, 5) to (40, 25). *)
Lemma pan_follows_pointer_with_space :
  exists st' st'',
    run (blank, spaceHeldState)
        (Down clock (pointer 10 10)
         :: map Move ([pointer 300 5] ++ [pointer 40 25]))
    = Some (blank, st')
    /\ isPanning st' = true
    /\ px (pan st') == px (pan spaceHeldState) + (40 - 10)
    /\ py (pan st') == py (pan spaceHeldState) + (25 - 10)
    /\ run (blank, spaceHeldState)
           (Down clock (pointer 10 10)
            :: map Move ([pointer 300 5] ++ [pointer 40 25])
               ++ [Up clock (pointer 40 25)])
       = Some (blank, st'')
    /\ isPanning st'' = false /\ pan st'' = pan st'.
Proof.
  apply (pan_follows_pointer clock clock blank spaceHeldState (pointer 10 10)
           [pointer 300 5] (pointer 40 25) (pointer 40 25)).
  - reflexivity.
  - reflexivity.
Defined.

(** ** Moves and releases outside a gesture *)

Lemma setHover_quiet st he hd : quiet st -> quiet (setHover st he hd).
Proof. intro H. exact H. Qed.

Lemma setHoverCropEdge_quiet st he : quiet st -> quiet (setHoverCropEdge st he).
Proof. intro H. exact H. Qed.

Lemma moveHoverAndDraw_quiet p st pos st' ns :
  quiet st -> moveHoverAndDraw p st pos = Some (st', ns) ->
  ns = [] /\ quiet st'.
Proof.
  intros Hq H. pose proof Hq as (Hdraw & _). unfold moveHoverAndDraw in H.
  rewrite Hdraw in H.
  destruct (negb false && negb (isColorSampling p) && negb (isCropMode p)).
  - destruct (detectDivider p st pos) as [[d|]|]; try discriminate;
      unfold bind in H at 2.
    + destruct (isCropMode p && negb false
                && match cropResizeEdge st with
                   | Some _ => false | None => true end).
      * unfold bind in H.
        destruct (detectCropEdge p st pos); [|discriminate].
        injection H as <- <-. split; [reflexivity|exact Hq].
      * unfold bind in H. injection H as <- <-. split; [reflexivity|exact Hq].
    + destruct (detectEdge p st pos) as [edge|]; [|discriminate].
      unfold bind in H at 2.
      destruct (isCropMode p && negb false
                && match cropResizeEdge st with
                   | Some _ => false | None => true end).
      * unfold bind in H.
        destruct (detectCropEdge p st pos); [|discriminate].
        injection H as <- <-. split; [reflexivity|exact Hq].
      * unfold bind in H. injection H as <- <-. split; [reflexivity|exact Hq].
  - unfold bind in H at 1.
    destruct (isCropMode p && negb false
              && match cropResizeEdge st with
                 | Some _ => false | None => true end).
    + unfold bind in H.
      destruct (detectCropEdge p st pos); [|discriminate].
      injection H as <- <-. split; [reflexivity|exact Hq].
    + unfold bind in H. injection H as <- <-. split; [reflexivity|exact Hq].
Qed.

Lemma handleMouseMove_quiet p st ev st' ns :
  quiet st -> handleMouseMove p st ev = Some (st', ns) ->
  ns = [] /\ quiet st'.
Proof.
  intros Hq H. pose proof Hq as (_ & Hpan & Hdiv & Hres & Hcrop).
  unfold handleMouseMove in H. rewrite Hpan in H.
  destruct (screenToImage p st (clientX ev) (clientY ev)) as [pos|];
    [|discriminate].
  unfold bind in H. rewrite Hdiv, Hres, Hcrop in H.
  destruct (imageSize p) as [[imgW imgH]|];
    apply (moveHoverAndDraw_quiet p st pos); assumption.
Qed.

Lemma handleMouseUp_quiet env p st ev :
  quiet st -> handleMouseUp env p st ev = Some (st, []).
Proof.
  intros (Hdraw & Hpan & Hdiv & Hres & Hcrop).
  unfold handleMouseUp. rewrite Hpan, Hdiv, Hres, Hcrop, Hdraw. reflexivity.
Qed.

Lemma handleMouseLeave_quiet st : quiet (handleMouseLeave st).
Proof. repeat split. Qed.

Lemma run_passive_quiet p st es p' st' :
  quiet st -> Forall passive es -> run (p, st) es = Some (p', st') ->
  p' = p /\ quiet st'.
Proof.
  intros Hq Hall. revert st Hq.
  induction Hall as [|e rest He Hrest IH]; intros st Hq H.
  - injection H as <- <-. split; [reflexivity|exact Hq].
  - cbn [run] in H. destruct e as [env ev|ev|env ev| |edit];
      try contradiction; cbn [step] in H.
    + destruct (handleMouseMove p st ev) as [[s1 ns]|] eqn:E; [|discriminate].
      destruct (handleMouseMove_quiet p st ev s1 ns Hq E) as [-> Hq1].
      cbn [bind fst snd deliver fold_left] in H. apply (IH s1 Hq1 H).
    + rewrite (handleMouseUp_quiet env p st ev Hq) in H.
      cbn [bind fst snd deliver fold_left] in H. apply (IH st Hq H).
    + cbn [bind] in H. apply (IH _ (handleMouseLeave_quiet st) H).
Qed.

(** X5: once the pointer has left the canvas, whatever gesture was
    open, the pointer-moves, releases and further leaves that follow
    notify nothing: the collection, the selection and the crop rectangle
    stay as they were at the leave, until the next press, and no session
    is open afterwards (an aborted draw creates no element). *)
Theorem leave_aborts_gesture p st es p' st' :
  Forall passive es ->
  run (p, st) (Leave :: es) = Some (p', st') ->
  p' = p /\ quiet st'.
Proof.
  intros Hall H. cbn [run step bind] in H.
  apply (run_passive_quiet p (handleMouseLeave st) es p' st'
           (handleMouseLeave_quiet st) Hall H).
Qed.

(** The pending 2 x 3 draw of the click scenario, left, then moved and
    released: nothing is created or selected. *)
Lemma leave_aborts_pending_draw :
  clickProps = clickProps
  /\ quiet (setHover (handleMouseLeave clickState) None None).
Proof.
  apply (leave_aborts_gesture clickProps clickState
           [Move (pointer 17 18); Up clock (pointer 17 18)]
           clickProps (setHover (handleMouseLeave clickState) None None)).
  - repeat constructor.
  - vm_compute. reflexivity.
Defined.

(** ** Creation of a list box *)

(** X6: in grid draw mode with more than one row or column configured
    and the list box type chosen, a completed draw appends a container
    with the drawn rectangle and the configured counts, followed by
    gridRows x gridCols label cells whose parent is the container; the
    container is selected and no element-created notification is sent. *)
Theorem listbox_draw_creates_cells env p r :
  drawMode p = grid -> (1 < gridRows p \/ 1 < gridCols p)%nat ->
  currentType p = "listbox"%string ->
  exists container cells,
    created env p r
    = [ElementsChange (elements p ++ container :: cells);
       SelectElement (Some (id container))]
    /\ bbox container = r /\ type container = "listbox"%string
    /\ rows container = Some (gridRows p) /\ cols container = Some (gridCols p)
    /\ length cells = (gridRows p * gridCols p)%nat
    /\ Forall (fun c => parentId c = Some (id container)
                        /\ type c = "label"%string
                        /\ rows c = None /\ cols c = None) cells.
Proof.
  intros Hmode Hmany Htype. unfold created. rewrite Hmode, Htype.
  replace ((1 <? gridRows p) || (1 <? gridCols p))%nat with true
    by (symmetry; apply orb_true_iff;
        destruct Hmany; [left|right]; apply Nat.ltb_lt; assumption).
  simpl String.eqb. cbv iota zeta. cbn [app].
  exists (mkElement ("el_" ++ decimal (now env)) "listbox" r
                    (Some "listbox"%string) (Some (gridRows p))
                    (Some (gridCols p)) None None None [] None None None).
  eexists. split; [reflexivity|].
  repeat (split; [reflexivity|]). split.
  - rewrite flat_map_constant_length with (c := gridCols p).
    + rewrite length_seq. reflexivity.
    + intros row _. rewrite length_map, length_seq. reflexivity.
  - apply Forall_flat_map. apply Forall_forall. intros row _.
    apply Forall_forall. intros c Hc. apply in_map_iff in Hc.
    destruct Hc as (k & <- & _). repeat split.
Qed.

(** Three rows and two columns of a list box drawn over (10, 10, 60, 90). *)
Lemma listbox_draw_three_by_two :
  exists container cells,
    created clock listboxToolProps (mkBBox 10 10 60 90)
    = [ElementsChange (elements listboxToolProps ++ container :: cells);
       SelectElement (Some (id container))]
    /\ bbox container = mkBBox 10 10 60 90 /\ type container = "listbox"%string
    /\ rows container = Some 3%nat /\ cols container = Some 2%nat
    /\ length cells = (3 * 2)%nat
    /\ Forall (fun c => parentId c = Some (id container)
                        /\ type c = "label"%string
                        /\ rows c = None /\ cols c = None) cells.
Proof.
  apply (listbox_draw_creates_cells clock listboxToolProps (mkBBox 10 10 60 90)).
  - reflexivity.
  - left. simpl. lia.
  - reflexivity.
Defined.

(** ** From the image to the canvas and back *)

Lemma round_integer q z : q == inject_Z z -> Num.round q = inject_Z z.
Proof.
  intro H. unfold Num.round. f_equal. rewrite H.
  unfold Qfloor, Qplus, inject_Z. simpl.
  symmetry. apply Z.div_unique with (r := 1%Z); lia.
Qed.

(** X7: where the canvas is mounted and the scale is not zero, the
    canvas pixel the color sampler and the renderer compute for an image
    point with integer coordinates, taken as a pointer position, is
    converted back to that very point. *)
Theorem canvas_pixel_converts_back p st rect pos :
  canvas st = Some rect -> ~ scale p st == 0 -> integral pos ->
  screenToImage p st (px rect + px (imageToCanvas p st pos))
                     (py rect + py (imageToCanvas p st pos))
  = Some pos.
Proof.
  intros Hcanvas Hscale (zx & zy & Hx & Hy).
  destruct pos as [ix iy]. simpl in Hx, Hy. subst ix iy.
  unfold screenToImage. rewrite Hcanvas.
  rewrite !div_some by exact Hscale. unfold bind, imageToCanvas. simpl.
  rewrite (round_integer _ zx), (round_integer _ zy).
  - reflexivity.
  - field. exact Hscale.
  - field. exact Hscale.
Qed.

(** The image point (102, 150) at zoom 4. *)
Lemma canvas_pixel_converts_back_at_zoom_four :
  screenToImage zoomed idle
    (px (mkPoint 0 0) + px (imageToCanvas zoomed idle (mkPoint 102 150)))
    (py (mkPoint 0 0) + py (imageToCanvas zoomed idle (mkPoint 102 150)))
  = Some (mkPoint 102 150).
Proof.
  apply (canvas_pixel_converts_back zoomed idle (mkPoint 0 0) (mkPoint 102 150)).
  - reflexivity.
  - discriminate.
  - exists 102%Z, 150%Z. split; reflexivity.
Defined.

(** ** Where an icon is placed *)

Lemma downIconOrDraw_icon env p st pos st' ns i icon :
  downIconOrDraw env p st pos = (st', ns) -> In (IconPlaced i icon) ns ->
  exists el,
    selectedElement p = Some el /\ id el = i
    /\ isIconContainer (type el) = true /\ isIconPlacementMode p = true
    /\ contains (bbox el) pos = true
    /\ centerX icon = px pos - x (bbox el)
    /\ centerY icon = py pos - y (bbox el)
    /\ st' = st /\ ns = [IconPlaced i icon].
Proof.
  unfold downIconOrDraw.
  destruct (isIconPlacementMode p) eqn:Emode; simpl;
    [|intros H Hin; injection H as <- <-; destruct Hin].
  destruct (truthy (selectedElementId p) && hasOnIconPlaced p);
    [|intros H Hin; injection H as <- <-; destruct Hin].
  destruct (selectedElement p) as [el|];
    [|intros H Hin; injection H as <- <-; destruct Hin].
  destruct (isIconContainer (type el)) eqn:Etype;
    [|intros H Hin; injection H as <- <-; destruct Hin].
  destruct (contains (bbox el) pos) eqn:Ein;
    [|intros H Hin; injection H as <- <-; destruct Hin].
  intros H Hin. injection H as <- <-.
  destruct Hin as [Hin|[]]. injection Hin as <- <-.
  exists el. repeat split; assumption.
Qed.

Lemma contains_inside b pos :
  contains b pos = true ->
  0 <= px pos - x b /\ px pos - x b <= width b
  /\ 0 <= py pos - y b /\ py pos - y b <= height b.
Proof.
  unfold contains. intro H.
  apply andb_true_iff in H. destruct H as [H H4].
  apply andb_true_iff in H. destruct H as [H H3].
  apply andb_true_iff in H. destruct H as [H1 H2].
  apply geb_ge in H1. apply leb_le in H2.
  apply geb_ge in H3. apply leb_le in H4.
  repeat apply conj; lra.
Qed.

(** X8: a pointer-down notifies an icon placement only in
    icon-placement mode, for the selected element, which is then an icon
    container (iconlist, toolbar or menubar); it notifies nothing else,
    leaves the component state as it was, and the offsets of the icon
    lie inside the container: between 0 and its width, between 0 and its
    height. *)
Theorem icon_is_placed_inside_container env p st ev st' ns i icon :
  handleMouseDown env p st ev = Some (st', ns) ->
  In (IconPlaced i icon) ns ->
  exists el,
    selectedElement p = Some el /\ id el = i
    /\ isIconContainer (type el) = true /\ isIconPlacementMode p = true
    /\ 0 <= centerX icon /\ centerX icon <= width (bbox el)
    /\ 0 <= centerY icon /\ centerY icon <= height (bbox el)
    /\ st' = st /\ ns = [IconPlaced i icon].
Proof.
  intros H Hin.
  assert (Hsrc : exists pos, downIconOrDraw env p st pos = (st', ns)).
  { unfold handleMouseDown, bind in H.
    repeat match type of H with
    | context [match ?c with _ => _ end] => destruct c eqn:?
    end; try discriminate; inversion H; subst;
    try (simpl in Hin;
         repeat match goal with
         | K : _ \/ _ |- _ => destruct K
         | K : False |- _ => destruct K
         end; discriminate).
    all: eexists; first [eassumption | reflexivity]. }
  destruct Hsrc as (pos & Hsrc).
  destruct (downIconOrDraw_icon env p st pos st' ns i icon Hsrc Hin)
    as (el & Hsel & Hid & Htype & Hmode & Hc & Hx & Hy & Hst & Hns).
  destruct (contains_inside (bbox el) pos Hc) as (A & B & C & D).
  exists el. rewrite Hx, Hy. repeat apply conj; assumption.
Qed.

(** A press at (30, 40) inside the selected toolbar of the icon scenario. *)
Lemma icon_is_placed_inside_toolbar :
  exists el,
    selectedElement toolbarProps = Some el /\ id el = "t"%string
    /\ isIconContainer (type el) = true
    /\ isIconPlacementMode toolbarProps = true
    /\ 0 <= centerX (mkIcon "icon_42_k3j9xq0zt" 30 40)
    /\ centerX (mkIcon "icon_42_k3j9xq0zt" 30 40) <= width (bbox el)
    /\ 0 <= centerY (mkIcon "icon_42_k3j9xq0zt" 30 40)
    /\ centerY (mkIcon "icon_42_k3j9xq0zt" 30 40) <= height (bbox el)
    /\ idle = idle
    /\ [IconPlaced "t" (mkIcon "icon_42_k3j9xq0zt" 30 40)]
       = [IconPlaced "t" (mkIcon "icon_42_k3j9xq0zt" 30 40)].
Proof.
  apply (icon_is_placed_inside_container clock toolbarProps idle
           (pointer 30 40) idle
           [IconPlaced "t" (mkIcon "icon_42_k3j9xq0zt" 30 40)]).
  - vm_compute. reflexivity.
  - left. reflexivity.
Defined.

(** * Properties of the grid utilities *)

(** ** Bounds and fractions *)

Lemma cumulate_nth span fr :
  forall cum k,
    (k < length fr)%nat ->
    exists v, nth_error (cumulate cum fr span) k = Some v
              /\ v == cum + Arr.sum (firstn (S k) fr) * span.
Proof.
  induction fr as [|f rest IH]; intros cum k Hk; simpl in Hk; [lia|].
  destruct k as [|k].
  - eexists. split; [reflexivity|]. simpl. rewrite sum_single. reflexivity.
  - destruct (IH (cum + f * span) k) as (v & Hv & Hval); [lia|].
    exists v. split; [exact Hv|].
    rewrite Hval. change (firstn (S (S k)) (f :: rest))
      with (f :: firstn (S k) rest).
    rewrite sum_cons. ring.
Qed.

Lemma firstn_repeat (v : Q) c k :
  (c <= k)%nat -> firstn c (repeat v k) = repeat v c.
Proof.
  revert k. induction c as [|c IH]; intros [|k] H; simpl;
    try reflexivity; try lia.
  f_equal. apply IH. lia.
Qed.

Lemma firstn_succ_nth (l : list Q) c f :
  nth_error l c = Some f -> firstn (S c) l = firstn c l ++ [f].
Proof.
  revert c. induction l as [|h t IH]; intros [|c] H; simpl in *;
    try discriminate.
  - injection H as ->. reflexivity.
  - f_equal. apply IH. exact H.
Qed.

Lemma sum_firstn_succ l c f :
  nth_error l c = Some f ->
  Arr.sum (firstn (S c) l) == Arr.sum (firstn c l) + f.
Proof.
  intro H. rewrite (firstn_succ_nth l c f H), sum_app, sum_single.
  reflexivity.
Qed.

Lemma positions_nth origin span k fr c :
  (1 <= c)%nat -> (c < k)%nat ->
  exists v, nth_error (positions origin span k fr) (c - 1) = Some v
            /\ v == origin + Arr.sum (firstn c (fractionsOr fr k)) * span.
Proof.
  intros Hc Hk.
  assert (Huniform :
    exists v,
      nth_error (map (fun c0 => origin + Num.ofNat c0 * (span / Num.ofNat k))
                     (seq 1 (k - 1))) (c - 1) = Some v
      /\ v == origin
              + Arr.sum (firstn c (Arr.fill k (1 / Num.ofNat k))) * span).
  { rewrite nth_error_map, nth_error_seq.
    replace (c - 1 <? k - 1)%nat with true
      by (symmetry; apply Nat.ltb_lt; lia).
    replace (1 + (c - 1))%nat with c by lia.
    eexists. split; [reflexivity|].
    unfold Arr.fill. rewrite firstn_repeat by lia. rewrite sum_repeat.
    assert (0 < Num.ofNat k) by (apply ofNat_pos; lia).
    field. lra. }
  unfold positions, fractionsOr.
  destruct fr as [l|]; [|exact Huniform].
  destruct (Nat.eqb (length l) k) eqn:E; [|exact Huniform].
  apply Nat.eqb_eq in E.
  destruct (cumulate_nth span (firstn (k - 1) l) origin (c - 1))
    as (v & Hv & Hval); [rewrite length_firstn; lia|].
  exists v. split; [exact Hv|].
  rewrite Hval, firstn_firstn.
  replace (Nat.min (S (c - 1)) (k - 1)) with c by lia.
  reflexivity.
Qed.

Lemma bounds_nth origin span k fr c :
  (1 <= k)%nat -> (c <= k)%nat ->
  (forall l, fr = Some l -> length l = k -> Arr.sum l == 1) ->
  exists v,
    nth_error ([origin] ++ positions origin span k fr ++ [origin + span]) c
    = Some v
    /\ v == origin + Arr.sum (firstn c (fractionsOr fr k)) * span.
Proof.
  intros Hk Hc Hsum.
  pose proof (positions_length origin span k fr) as Hlen.
  destruct c as [|c].
  - exists origin. split; [reflexivity|].
    unfold Arr.sum. simpl. ring.
  - change (nth_error ([origin] ++ positions origin span k fr
                       ++ [origin + span]) (S c))
      with (nth_error (positions origin span k fr ++ [origin + span]) c).
    destruct (Nat.eq_dec (S c) k) as [Elast|Hin].
    + rewrite nth_error_app2 by lia.
      replace (c - length (positions origin span k fr))%nat with 0%nat by lia.
      eexists. split; [reflexivity|].
      rewrite firstn_all2 by (rewrite fractionsOr_length; lia).
      rewrite (fractionsOr_sum fr k Hk Hsum). ring.
    + rewrite nth_error_app1 by lia.
      destruct (positions_nth origin span k fr (S c)) as (v & Hv & Hval);
        [lia|lia|].
      replace (S c - 1)%nat with c in Hv by lia.
      exists v. split; assumption.
Qed.

Lemma bounds_length origin span k fr :
  (1 <= k)%nat ->
  length ([origin] ++ positions origin span k fr ++ [origin + span])
  = (k + 1)%nat.
Proof.
  intro Hk. simpl. rewrite length_app, positions_length. simpl. lia.
Qed.

Lemma fractionsOr_nonneg fr k :
  (forall l, fr = Some l -> length l = k -> Forall (fun f => 0 <= f) l) ->
  Forall (fun f => 0 <= f) (fractionsOr fr k).
Proof.
  intro H.
  assert (Hu : Forall (fun f => 0 <= f) (Arr.fill k (1 / Num.ofNat k))).
  { unfold Arr.fill. apply Forall_forall. intros f Hf.
    apply repeat_spec in Hf. subst f.
    destruct k as [|k]; [discriminate|].
    apply Qlt_le_weak, Qlt_shift_div_l; [apply ofNat_pos; lia|reflexivity]. }
  unfold fractionsOr. destruct fr as [l|]; [|exact Hu].
  destruct (Nat.eqb (length l) k) eqn:E; [|exact Hu].
  apply Nat.eqb_eq in E. apply H; [reflexivity|exact E].
Qed.

Lemma ascending_of_steps l :
  (forall c a b, nth_error l c = Some a -> nth_error l (S c) = Some b -> a <= b) ->
  ascending l.
Proof.
  induction l as [|a rest IH]; intro H; [exact I|].
  destruct rest as [|b rest']; [exact I|].
  split.
  - apply (H 0%nat a b); reflexivity.
  - apply IH. intros c u v Hu Hv. apply (H (S c) u v); assumption.
Qed.

Lemma nth_error_in_range (l : list Q) c :
  (c < length l)%nat -> exists f, nth_error l c = Some f.
Proof.
  intro H. destruct (nth_error l c) as [f|] eqn:E; [eauto|].
  apply nth_error_None in E. lia.
Qed.

Lemma bounds_step origin span k fr c :
  (1 <= k)%nat -> (c < k)%nat ->
  (forall l, fr = Some l -> length l = k -> Arr.sum l == 1) ->
  exists a b f,
    nth_error ([origin] ++ positions origin span k fr ++ [origin + span]) c
    = Some a
    /\ nth_error ([origin] ++ positions origin span k fr ++ [origin + span])
                 (S c) = Some b
    /\ nth_error (fractionsOr fr k) c = Some f
    /\ a == origin + Arr.sum (firstn c (fractionsOr fr k)) * span
    /\ b - a == f * span.
Proof.
  intros Hk Hc Hsum.
  destruct (bounds_nth origin span k fr c Hk) as (a & Ha & Hva);
    [lia|exact Hsum|].
  destruct (bounds_nth origin span k fr (S c) Hk) as (b & Hb & Hvb);
    [lia|exact Hsum|].
  destruct (nth_error_in_range (fractionsOr fr k) c) as (f & Hf);
    [rewrite fractionsOr_length; exact Hc|].
  exists a, b, f. repeat apply conj; try assumption.
  rewrite Hva, Hvb, (sum_firstn_succ _ _ _ Hf). ring.
Qed.

Lemma bounds_ascending origin span k fr :
  (1 <= k)%nat -> 0 <= span ->
  (forall l, fr = Some l -> length l = k ->
             Forall (fun f => 0 <= f) l /\ Arr.sum l == 1) ->
  ascending ([origin] ++ positions origin span k fr ++ [origin + span]).
Proof.
  intros Hk Hspan Hwf. apply ascending_of_steps. intros c a b Ha Hb.
  assert (Hc : (c < k)%nat).
  { assert (S c < k + 1)%nat; [|lia].
    rewrite <- (bounds_length origin span k fr Hk).
    apply nth_error_Some. rewrite Hb. discriminate. }
  destruct (bounds_step origin span k fr c Hk Hc) as
    (a' & b' & f & Ha' & Hb' & Hf & _ & Hstep).
  { intros l H1 H2. exact (proj2 (Hwf l H1 H2)). }
  rewrite Ha in Ha'. rewrite Hb in Hb'.
  injection Ha' as <-. injection Hb' as <-.
  assert (Hnn : 0 <= f).
  { assert (HF : Forall (fun f => 0 <= f) (fractionsOr fr k)).
    { apply fractionsOr_nonneg. intros l H1 H2. exact (proj1 (Hwf l H1 H2)). }
    rewrite Forall_forall in HF. apply HF.
    eapply nth_error_In. exact Hf. }
  pose proof (Qmult_le_0_compat f span Hnn Hspan). lra.
Qed.

Lemma boundsOn_unfold a el :
  boundsOn a el
  = [originOn a el]
      ++ positions (originOn a el) (spanOn a el) (countOn a el)
                   (fractionsOn a el)
      ++ [originOn a el + spanOn a el].
Proof. destruct a; reflexivity. Qed.

(** X9: along each axis, where the span of the bbox is not negative and
    the explicit fractions in force (if any) are not negative and sum to
    one, the bounds [getGridPositions] returns are count + 1 coordinates,
    the one of index [c] is the origin plus the sum of the first [c]
    fractions in force times the span (so the first is the origin and the
    last the far side of the bbox), and they never decrease. *)
Theorem grid_bounds_follow_fractions a el :
  0 <= spanOn a el ->
  wellFormedOn a el ->
  length (boundsOn a el) = (countOn a el + 1)%nat
  /\ (forall c, (c <= countOn a el)%nat ->
        exists v,
          nth_error (boundsOn a el) c = Some v
          /\ v == originOn a el
                  + Arr.sum (firstn c (fractionsOr (fractionsOn a el)
                                                   (countOn a el)))
                    * spanOn a el)
  /\ nth_error (boundsOn a el) 0 = Some (originOn a el)
  /\ nth_error (boundsOn a el) (countOn a el)
     = Some (originOn a el + spanOn a el)
  /\ ascending (boundsOn a el).
Proof.
  intros Hspan Hwf. pose proof (countOn_pos a el) as Hk.
  rewrite boundsOn_unfold. repeat apply conj.
  - apply bounds_length. exact Hk.
  - intros c Hc. apply bounds_nth; [exact Hk|exact Hc|].
    intros l H1 H2. exact (proj2 (Hwf l H1 H2)).
  - reflexivity.
  - change (nth_error ([originOn a el] ++ ?l) (countOn a el))
      with (nth_error (originOn a el :: l) (countOn a el)).
    destruct (countOn a el) as [|k] eqn:E; [lia|].
    cbn [nth_error].
    rewrite nth_error_app2
      by (rewrite positions_length; lia).
    rewrite positions_length.
    replace (k - (S k - 1))%nat with 0%nat by lia. reflexivity.
  - apply bounds_ascending; assumption.
Qed.

Lemma unevenGrid_wellFormed a : wellFormedOn a unevenGrid.
Proof.
  intros l Hl _. destruct a; simpl in Hl; [discriminate|].
  injection Hl as <-. split.
  - repeat constructor; unfold Qle; simpl; lia.
  - reflexivity.
Qed.

(** The column bounds of the three uneven columns. *)
Lemma grid_bounds_of_uneven_columns :
  0 <= spanOn col unevenGrid
  /\ length (boundsOn col unevenGrid) = 4%nat
  /\ ascending (boundsOn col unevenGrid).
Proof.
  assert (H : 0 <= spanOn col unevenGrid) by (unfold Qle; simpl; lia).
  split; [exact H|].
  pose proof (grid_bounds_follow_fractions col unevenGrid H
                (unevenGrid_wellFormed col)) as (Hlen & _ & _ & _ & Hasc).
  split; [exact Hlen|exact Hasc].
Defined.

(** ** Cells *)

Lemma getCellBounds_unfold el r c :
  getCellBounds el r c
  = (cellX <- nth_error (boundsOn col el) c ;;
     cellY <- nth_error (boundsOn row el) r ;;
     nextX <- nth_error (boundsOn col el) (c + 1) ;;
     nextY <- nth_error (boundsOn row el) (r + 1) ;;
     Some (mkBBox cellX cellY (nextX - cellX) (nextY - cellY))).
Proof. reflexivity. Qed.

(** X10: for a row and a column of the grid, where the explicit fractions
    in force are not negative and sum to one on both axes,
    [getCellBounds] returns the cell
    whose origin is the origin of the bbox moved by the sum of the
    fractions of the columns (rows) before it times the width (height),
    and whose width (height) is the fraction of its column (row) times the
    width (height) of the bbox. *)
Theorem cell_bounds_follow_fractions el r c :
  wellFormedOn row el -> wellFormedOn col el ->
  (r < countOn row el)%nat -> (c < countOn col el)%nat ->
  exists cell fw fh,
    getCellBounds el r c = Some cell
    /\ nth_error (fractionsOr (colWidths el) (countOn col el)) c = Some fw
    /\ nth_error (fractionsOr (rowHeights el) (countOn row el)) r = Some fh
    /\ x cell == x (bbox el)
                 + Arr.sum (firstn c (fractionsOr (colWidths el)
                                                  (countOn col el)))
                   * width (bbox el)
    /\ y cell == y (bbox el)
                 + Arr.sum (firstn r (fractionsOr (rowHeights el)
                                                  (countOn row el)))
                   * height (bbox el)
    /\ width cell == fw * width (bbox el)
    /\ height cell == fh * height (bbox el).
Proof.
  intros Hrow Hcol Hr Hc.
  destruct (bounds_step (originOn col el) (spanOn col el) (countOn col el)
              (fractionsOn col el) c (countOn_pos col el) Hc)
    as (xa & xb & fw & Hxa & Hxb & Hfw & Hxval & Hxstep).
  { intros l H1 H2. exact (proj2 (Hcol l H1 H2)). }
  destruct (bounds_step (originOn row el) (spanOn row el) (countOn row el)
              (fractionsOn row el) r (countOn_pos row el) Hr)
    as (ya & yb & fh & Hya & Hyb & Hfh & Hyval & Hystep).
  { intros l H1 H2. exact (proj2 (Hrow l H1 H2)). }
  rewrite <- boundsOn_unfold in Hxa, Hxb, Hya, Hyb.
  exists (mkBBox xa ya (xb - xa) (yb - ya)), fw, fh.
  repeat apply conj; try assumption.
  rewrite getCellBounds_unfold.
  replace (c + 1)%nat with (S c) by lia.
  replace (r + 1)%nat with (S r) by lia.
  rewrite Hxa, Hya, Hxb, Hyb. reflexivity.
Qed.

(** The middle column of the lower row of the uneven grid. *)
Lemma cell_bounds_of_uneven_middle :
  (1 < countOn row unevenGrid)%nat /\ (1 < countOn col unevenGrid)%nat
  /\ exists cell, getCellBounds unevenGrid 1 1 = Some cell
                  /\ width cell == (3 # 10) * 200.
Proof.
  assert (Hr : (1 < countOn row unevenGrid)%nat) by (simpl; lia).
  assert (Hc : (1 < countOn col unevenGrid)%nat) by (simpl; lia).
  split; [exact Hr|]. split; [exact Hc|].
  destruct (cell_bounds_follow_fractions unevenGrid 1 1
              (unevenGrid_wellFormed row) (unevenGrid_wellFormed col) Hr Hc)
    as (cell & fw & fh & Hcell & Hfw & _ & _ & _ & Hw & _).
  exists cell. split; [exact Hcell|].
  simpl in Hfw. injection Hfw as <-. exact Hw.
Defined.

(** X11: for a row index that is not below the number of rows, or a
    column index that is not below the number of columns, [getCellBounds]
    reads past the end of the bounds and returns no finite box. *)
Theorem cell_bounds_outside_grid el r c :
  (countOn row el <= r)%nat \/ (countOn col el <= c)%nat ->
  getCellBounds el r c = None.
Proof.
  intro H. rewrite getCellBounds_unfold.
  assert (Hlen : forall a, length (boundsOn a el) = (countOn a el + 1)%nat).
  { intro a. rewrite boundsOn_unfold. apply bounds_length, countOn_pos. }
  destruct H as [H|H].
  - assert (E : nth_error (boundsOn row el) (r + 1) = None)
      by (apply nth_error_None; rewrite Hlen; lia).
    rewrite E. unfold bind.
    destruct (nth_error (boundsOn col el) c); [|reflexivity].
    destruct (nth_error (boundsOn row el) r); [|reflexivity].
    destruct (nth_error (boundsOn col el) (c + 1)); reflexivity.
  - assert (E : nth_error (boundsOn col el) (c + 1) = None)
      by (apply nth_error_None; rewrite Hlen; lia).
    rewrite E. unfold bind.
    destruct (nth_error (boundsOn col el) c); [|reflexivity].
    destruct (nth_error (boundsOn row el) r); reflexivity.
Qed.

(** The uneven grid has no fourth column. *)
Lemma cell_bounds_no_fourth_column :
  ((countOn row unevenGrid <= 0)%nat \/ (countOn col unevenGrid <= 3)%nat)
  /\ getCellBounds unevenGrid 0 3 = None.
Proof.
  assert (H : (countOn row unevenGrid <= 0)%nat
              \/ (countOn col unevenGrid <= 3)%nat) by (right; simpl; lia).
  split; [exact H|]. exact (cell_bounds_outside_grid unevenGrid 0 3 H).
Defined.

(** ** Tolerances *)

Lemma round_le a b : a <= b -> Num.round a <= Num.round b.
Proof.
  intro H. unfold Num.round. rewrite <- Zle_Qle.
  apply Qfloor_resp_le. lra.
Qed.

Lemma averageOn_bounded fr k span factor :
  (1 <= k)%nat -> 0 <= span -> 0 <= factor -> factor <= 1 ->
  (forall l, fr = Some l -> length l = k ->
             0 <= Arr.sum l /\ factor * Arr.sum l <= 1) ->
  0 <= averageOn fr k span * factor
  /\ averageOn fr k span * factor <= span / Num.ofNat k.
Proof.
  intros Hk Hspan Hf0 Hf1 Hsum.
  pose proof (ofNat_pos k Hk) as Hpos.
  assert (Hcell : 0 <= span / Num.ofNat k)
    by (apply Qle_shift_div_l; [exact Hpos|lra]).
  assert (Hscaled : forall t, 0 <= t -> t <= 1 ->
            0 <= t * (span / Num.ofNat k)
            /\ t * (span / Num.ofNat k) <= span / Num.ofNat k).
  { intros t Ht0 Ht1. split.
    - apply Qmult_le_0_compat; assumption.
    - apply Qle_trans with (1 * (span / Num.ofNat k));
        [apply Qmult_le_compat_r; assumption|].
      rewrite Qmult_1_l. apply Qle_refl. }
  assert (Huniform : 0 <= span / Num.ofNat k * factor
                     /\ span / Num.ofNat k * factor <= span / Num.ofNat k).
  { rewrite (Qmult_comm (span / Num.ofNat k)). apply Hscaled; assumption. }
  unfold averageOn. destruct fr as [l|]; [|exact Huniform].
  destruct (Nat.eqb (length l) k) eqn:E; [|exact Huniform].
  apply Nat.eqb_eq in E. destruct (Hsum l eq_refl E) as [Hs0 Hs1].
  assert (Eq : Arr.sum l / Num.ofNat k * span * factor
               == factor * Arr.sum l * (span / Num.ofNat k))
    by (field; lra).
  rewrite Eq. apply Hscaled; [apply Qmult_le_0_compat; assumption|exact Hs1].
Qed.

(** X12: for a factor between 0 and 1 and an element of non-negative
    size whose explicit fractions in force (if any) have a non-negative
    sum which, times the factor, is at most one (as any array summing to
    about one does for the default factor 0.7), the tolerance
    [calculateTolerance] gives on each axis is between 0 and the rounded
    size of a uniform cell: for a grid it is bounded by the cell, not by
    the whole element, wherever the dividers are. *)
Theorem tolerance_within_uniform_cell el factor :
  0 <= width (bbox el) -> 0 <= height (bbox el) ->
  0 <= factor -> factor <= 1 ->
  (forall a l, fractionsOn a el = Some l -> length l = countOn a el ->
               0 <= Arr.sum l /\ factor * Arr.sum l <= 1) ->
  0 <= fst (calculateTolerance el factor)
  /\ fst (calculateTolerance el factor)
     <= Num.round (width (bbox el) / Num.ofNat (countOn col el))
  /\ 0 <= snd (calculateTolerance el factor)
  /\ snd (calculateTolerance el factor)
     <= Num.round (height (bbox el) / Num.ofNat (countOn row el)).
Proof.
  intros Hw Hh Hf0 Hf1 Hsum.
  assert (H0 : Num.round 0 = 0) by reflexivity.
  assert (Hcol : 0 <= fst (getAverageCellSize el) * factor
                 /\ fst (getAverageCellSize el) * factor
                    <= width (bbox el) / Num.ofNat (countOn col el)).
  { unfold getAverageCellSize. cbv zeta.
    destruct ((1 <? orOne (rows el)) || (1 <? orOne (cols el)))%nat eqn:E.
    - cbn [fst]. apply averageOn_bounded; try assumption; [apply orOne_pos|].
      exact (Hsum col).
    - apply orb_false_iff in E. destruct E as [_ E].
      apply Nat.ltb_ge in E. pose proof (orOne_pos (cols el)).
      cbn [fst countOn]. replace (orOne (cols el)) with 1%nat by lia.
      assert (E1 : width (bbox el) / Num.ofNat 1 == width (bbox el))
        by (unfold Num.ofNat; simpl; field).
      rewrite E1. split; [apply Qmult_le_0_compat; assumption|].
      rewrite (Qmult_comm (width (bbox el))).
      apply Qle_trans with (1 * width (bbox el));
        [apply Qmult_le_compat_r; assumption|].
      rewrite Qmult_1_l. apply Qle_refl. }
  assert (Hrow : 0 <= snd (getAverageCellSize el) * factor
                 /\ snd (getAverageCellSize el) * factor
                    <= height (bbox el) / Num.ofNat (countOn row el)).
  { unfold getAverageCellSize. cbv zeta.
    destruct ((1 <? orOne (rows el)) || (1 <? orOne (cols el)))%nat eqn:E.
    - cbn [snd]. apply averageOn_bounded; try assumption; [apply orOne_pos|].
      exact (Hsum row).
    - apply orb_false_iff in E. destruct E as [E _].
      apply Nat.ltb_ge in E. pose proof (orOne_pos (rows el)).
      cbn [snd countOn]. replace (orOne (rows el)) with 1%nat by lia.
      assert (E1 : height (bbox el) / Num.ofNat 1 == height (bbox el))
        by (unfold Num.ofNat; simpl; field).
      rewrite E1. split; [apply Qmult_le_0_compat; assumption|].
      rewrite (Qmult_comm (height (bbox el))).
      apply Qle_trans with (1 * height (bbox el));
        [apply Qmult_le_compat_r; assumption|].
      rewrite Qmult_1_l. apply Qle_refl. }
  unfold calculateTolerance. cbv zeta. cbn [fst snd].
  destruct Hcol as [Hc0 Hc1]. destruct Hrow as [Hr0 Hr1].
  split; [rewrite <- H0; apply round_le; exact Hc0|].
  split; [apply round_le; exact Hc1|].
  split; [rewrite <- H0; apply round_le; exact Hr0|].
  apply round_le; exact Hr1.
Qed.

(** The uneven grid at the default factor: at most a third of its width
    and half its height. *)
Lemma tolerance_of_uneven_grid :
  fst (calculateTolerance unevenGrid DEFAULT_TOLERANCE_SCALE)
  <= Num.round (200 / 3)
  /\ snd (calculateTolerance unevenGrid DEFAULT_TOLERANCE_SCALE)
     <= Num.round (100 / 2).
Proof.
  destruct (tolerance_within_uniform_cell unevenGrid DEFAULT_TOLERANCE_SCALE)
    as (_ & Hx & _ & Hy).
  - discriminate.
  - discriminate.
  - discriminate.
  - discriminate.
  - intros a l Hl _. destruct a; simpl in Hl; [discriminate|].
    injection Hl as <-. split; discriminate.
  - split; [exact Hx|exact Hy].
Defined.

(** ** A dragged divider and the bounds *)

Lemma firstn_set_le l i v c :
  (c <= i)%nat -> firstn c (Arr.set l i v) = firstn c l.
Proof.
  revert i c. induction l as [|h t IH]; intros [|i] [|c] H; simpl;
    try reflexivity; try lia.
  f_equal. apply IH. lia.
Qed.

Lemma sum_firstn_set l i v c old :
  nth_error l i = Some old -> (i < c)%nat ->
  Arr.sum (firstn c (Arr.set l i v)) == Arr.sum (firstn c l) - old + v.
Proof.
  revert i c. induction l as [|h t IH]; intros [|i] [|c] Hi Hc;
    simpl in *; try discriminate; try lia.
  - injection Hi as ->. rewrite !sum_cons. ring.
  - rewrite !sum_cons. rewrite (IH i c Hi) by lia. ring.
Qed.

Lemma sum_set l i v old :
  nth_error l i = Some old -> Arr.sum (Arr.set l i v) == Arr.sum l - old + v.
Proof.
  intro Hi.
  assert (Hlt : (i < length l)%nat)
    by (apply nth_error_Some; rewrite Hi; discriminate).
  rewrite <- (firstn_all (Arr.set l i v)), set_length.
  rewrite (sum_firstn_set l i v (length l) old Hi Hlt), firstn_all.
  reflexivity.
Qed.

Lemma firstn_eqv l1 l2 c :
  Arr.eqv l1 l2 -> Arr.eqv (firstn c l1) (firstn c l2).
Proof.
  intro H. revert c.
  induction H as [|a b la lb Hab Hrest IH]; intros [|c]; simpl;
    constructor; [assumption|apply IH].
Qed.

Lemma eqv_length l1 l2 : Arr.eqv l1 l2 -> length l1 = length l2.
Proof. induction 1; simpl; congruence. Qed.

Lemma set_eqv_both l1 l2 i v1 v2 :
  Arr.eqv l1 l2 -> v1 == v2 -> Arr.eqv (Arr.set l1 i v1) (Arr.set l2 i v2).
Proof.
  intros H Hv. revert i.
  induction H as [|a b la lb Hab Hrest IH]; intros [|i]; simpl;
    constructor; first [assumption | apply IH].
Qed.

Lemma sum_firstn_nonneg l c :
  Forall (fun f => 0 <= f) l -> 0 <= Arr.sum (firstn c l).
Proof.
  intro H. apply sum_nonneg.
  rewrite <- (firstn_skipn c l) in H. apply Forall_app in H. apply H.
Qed.

Lemma sum_skipn_nonneg l c :
  Forall (fun f => 0 <= f) l -> 0 <= Arr.sum (skipn c l).
Proof.
  intro H. apply sum_nonneg.
  rewrite <- (firstn_skipn c l) in H. apply Forall_app in H. apply H.
Qed.

(** A pointer at least ten units away from both neighbouring bounds: the
    two cells next to the divider share their old combined fraction, the
    left one ending at the pointer. *)
Lemma moveDivider_between fr k origin span p i fi fj :
  0 < span ->
  Forall (fun f => 0 <= f) (fractionsOr fr k) ->
  Arr.sum (fractionsOr fr k) == 1 ->
  nth_error (fractionsOr fr k) i = Some fi ->
  nth_error (fractionsOr fr k) (i + 1) = Some fj ->
  origin + Arr.sum (firstn i (fractionsOr fr k)) * span + 10 <= p ->
  p <= origin + (Arr.sum (firstn i (fractionsOr fr k)) + fi + fj) * span - 10 ->
  exists out,
    moveDivider fr k origin span p i = Some out
    /\ Arr.eqv out
         (Arr.set
            (Arr.set (fractionsOr fr k) i
               ((p - origin) / span - Arr.sum (firstn i (fractionsOr fr k))))
            (i + 1)
            (fi + fj
             - ((p - origin) / span
                - Arr.sum (firstn i (fractionsOr fr k))))).
Proof.
  intros Hspan Hnn Hsum Hi Hj Hlo Hhi.
  unfold moveDivider. set (l := fractionsOr fr k) in *.
  assert (Hne : ~ span == 0) by lra.
  rewrite !div_some by exact Hne. cbn [bind].
  unfold Arr.get. rewrite Hi, Hj. cbn [bind].
  set (cum := Arr.sum (firstn i l)) in *.
  pose proof (sum_firstn_nonneg l i Hnn) as Hcum. fold cum in Hcum.
  pose proof (sum_skipn_nonneg l (i + 2) Hnn) as Hrest.
  pose proof (sum_around l i fi fj Hi Hj) as Hdec. fold cum in Hdec.
  set (rest := Arr.sum (skipn (i + 2) l)) in *.
  assert (Hcs : 0 <= cum * span) by (apply Qmult_le_0_compat; lra).
  assert (Hrs : 0 <= rest * span) by (apply Qmult_le_0_compat; lra).
  assert (Hone : (cum + fi + fj + rest) * span == span)
    by (rewrite <- Hdec, Hsum; ring).
  assert (Hpos : Qmax (origin + 10) (Qmin p (origin + span - 10)) == p).
  { assert (origin + 10 <= p) by lra.
    assert (p <= origin + span - 10) by lra.
    minmax. }
  assert (Hd : (p - origin) / span * span == p - origin) by (field; lra).
  assert (Hm : 10 / span * span == 10) by (field; lra).
  assert (Hfr : (Qmax (origin + 10) (Qmin p (origin + span - 10)) - origin)
                / span == (p - origin) / span)
    by (rewrite Hpos; reflexivity).
  set (newFraction := (Qmax (origin + 10) (Qmin p (origin + span - 10))
                       - origin) / span) in *.
  set (d := (p - origin) / span) in *.
  set (m := 10 / span) in *.
  assert (HmL : m <= d - cum).
  { apply (Qmult_le_r _ _ span Hspan).
    assert (E : (d - cum) * span == d * span - cum * span) by ring.
    rewrite E, Hd, Hm. lra. }
  assert (HmR : m <= fi + fj - (d - cum)).
  { apply (Qmult_le_r _ _ span Hspan).
    assert (E : (fi + fj - (d - cum)) * span
                == (cum + fi + fj) * span - d * span) by ring.
    rewrite E, Hd, Hm. lra. }
  assert (HL : Qmax m (newFraction - cum) == d - cum) by minmax.
  set (newLeft := Qmax m (newFraction - cum)) in *.
  assert (HR : Qmax m (fi + fj - newLeft) == fi + fj - (d - cum)) by minmax.
  set (newRight := Qmax m (fi + fj - newLeft)) in *.
  assert (Heq : Arr.eqv (Arr.set (Arr.set l i newLeft) (i + 1) newRight)
                        (Arr.set (Arr.set l i (d - cum)) (i + 1)
                                 (fi + fj - (d - cum)))).
  { apply set_eqv_both; [|exact HR].
    apply set_eqv_both; [apply eqv_refl|exact HL]. }
  assert (Htot : Arr.sum (Arr.set (Arr.set l i newLeft) (i + 1) newRight)
                 == 1).
  { rewrite (sum_eqv _ _ Heq).
    rewrite (sum_set _ (i + 1) _ fj)
      by (rewrite set_other by lia; exact Hj).
    rewrite (sum_set l i _ fi Hi), Hsum. ring. }
  unfold normalize.
  destruct (Qeq_bool _ 0) eqn:E.
  - apply Qeq_bool_iff in E. rewrite Htot in E. discriminate.
  - eexists. split; [reflexivity|].
    eapply eqv_trans; [apply map_div_one; exact Htot|exact Heq].
Qed.

(** The prefix sums of the fractions after such a move. *)
Lemma moved_prefix_sums l i fi fj L c :
  nth_error l i = Some fi -> nth_error l (i + 1) = Some fj ->
  Arr.sum (firstn c (Arr.set (Arr.set l i L) (i + 1) (fi + fj - L)))
  == if Nat.eqb c (i + 1) then Arr.sum (firstn i l) + L
     else Arr.sum (firstn c l).
Proof.
  intros Hi Hj.
  assert (Hj' : nth_error (Arr.set l i L) (i + 1) = Some fj)
    by (rewrite set_other by lia; exact Hj).
  destruct (Nat.eqb c (i + 1)) eqn:E.
  - apply Nat.eqb_eq in E. subst c.
    rewrite firstn_set_le by lia.
    rewrite (sum_firstn_set l i L (i + 1) fi Hi) by lia.
    replace (i + 1)%nat with (S i) by lia.
    rewrite (sum_firstn_succ l i fi Hi). ring.
  - apply Nat.eqb_neq in E.
    destruct (Nat.le_gt_cases c i) as [Hle|Hgt].
    + rewrite !firstn_set_le by lia. reflexivity.
    + rewrite (sum_firstn_set _ (i + 1) _ c fj Hj') by lia.
      rewrite (sum_firstn_set l i L c fi Hi) by lia. ring.
Qed.

Lemma boundsOn_withFractions a el fr :
  boundsOn a (withFractions a el fr)
  = [originOn a el]
      ++ positions (originOn a el) (spanOn a el) (countOn a el) fr
      ++ [originOn a el + spanOn a el].
Proof. destruct a; reflexivity. Qed.

(** Over exact rationals: such a move puts the dragged divider at the
    pointer and leaves every other bound where it was. *)
Lemma divider_move_bounds p st ev dd el pos lo hi :
  dragging p st dd el ->
  screenToImage p st (clientX ev) (clientY ev) = Some pos ->
  let a := dividerType (target dd) in
  let i := dividerIndex (target dd) in
  0 < spanOn a el ->
  wellFormedOn a el ->
  nth_error (boundsOn a el) i = Some lo ->
  nth_error (boundsOn a el) (i + 2) = Some hi ->
  lo + 10 <= coordOn a pos /\ coordOn a pos <= hi - 10 ->
  exists fr,
    handleMouseMove p st ev
    = Some (st, [ElementsChange
                   (mapById (dividerElementId (target dd))
                            (fun e => withFractions a e (Some fr))
                            (elements p))])
    /\ forall c, (c <= countOn a el)%nat ->
         exists v old,
           nth_error (boundsOn a (withFractions a el (Some fr))) c = Some v
           /\ nth_error (boundsOn a el) c = Some old
           /\ (c = (i + 1)%nat -> v == coordOn a pos)
           /\ (c <> (i + 1)%nat -> v == old).
Proof.
  intros Hdrag Hpos a i Hspan Hwf Hlo Hhi [Hl Hh].
  rewrite (handleMouseMove_divider p st ev dd el pos Hdrag Hpos).
  fold a i.
  pose proof (countOn_pos a el) as Hk.
  set (k := countOn a el) in *. set (origin := originOn a el) in *.
  set (span := spanOn a el) in *. set (q := coordOn a pos) in *.
  assert (Hsum1 : forall l0, fractionsOn a el = Some l0 -> length l0 = k ->
                             Arr.sum l0 == 1)
    by (intros l0 H1 H2; exact (proj2 (Hwf l0 H1 H2))).
  pose proof (fractionsOr_sum (fractionsOn a el) k Hk Hsum1) as Hsum.
  assert (Hnn : Forall (fun f => 0 <= f) (fractionsOr (fractionsOn a el) k)).
  { apply fractionsOr_nonneg. intros l0 H1 H2. exact (proj1 (Hwf l0 H1 H2)). }
  pose proof (fractionsOr_length (fractionsOn a el) k) as Hlen.
  set (l := fractionsOr (fractionsOn a el) k) in *.
  assert (Hi2 : (i + 2 <= k)%nat).
  { assert (i + 2 < k + 1)%nat; [|lia].
    rewrite <- (bounds_length origin span k (fractionsOn a el) Hk).
    unfold origin, span, k. rewrite <- boundsOn_unfold.
    apply nth_error_Some. rewrite Hhi. discriminate. }
  destruct (nth_error_in_range l i) as (fi & Hfi); [lia|].
  destruct (nth_error_in_range l (i + 1)) as (fj & Hfj); [lia|].
  assert (Hold : forall c, (c <= k)%nat ->
            exists old, nth_error (boundsOn a el) c = Some old
                        /\ old == origin + Arr.sum (firstn c l) * span).
  { intros c Hc. rewrite boundsOn_unfold.
    apply bounds_nth; [exact Hk|exact Hc|exact Hsum1]. }
  destruct (Hold i) as (lo' & Hlo' & Hlov); [lia|].
  rewrite Hlo in Hlo'. injection Hlo' as <-.
  destruct (Hold (i + 2)%nat) as (hi' & Hhi' & Hhiv); [lia|].
  rewrite Hhi in Hhi'. injection Hhi' as <-.
  assert (Hpre : Arr.sum (firstn (i + 2) l) == Arr.sum (firstn i l) + fi + fj).
  { replace (i + 2)%nat with (S (i + 1)) by lia.
    rewrite (sum_firstn_succ l (i + 1) fj Hfj).
    replace (i + 1)%nat with (S i) by lia.
    rewrite (sum_firstn_succ l i fi Hfi). reflexivity. }
  destruct (moveDivider_between (fractionsOn a el) k origin span q i fi fj)
    as (out & Hout & Heqv); try assumption.
  { fold l. rewrite <- Hlov. exact Hl. }
  { fold l. rewrite <- Hpre, <- Hhiv. exact Hh. }
  fold l in Heqv.
  set (L := (q - origin) / span - Arr.sum (firstn i l)) in *.
  exists out. split; [rewrite Hout; reflexivity|].
  assert (Houtlen : length out = k).
  { rewrite (eqv_length _ _ Heqv), !set_length. exact Hlen. }
  assert (Houtsum : Arr.sum out == 1).
  { rewrite <- (firstn_all out), Houtlen.
    rewrite (sum_eqv _ _ (firstn_eqv _ _ k Heqv)).
    rewrite (moved_prefix_sums l i fi fj L k Hfi Hfj).
    replace (Nat.eqb k (i + 1)) with false
      by (symmetry; apply Nat.eqb_neq; lia).
    rewrite <- Hlen, firstn_all. exact Hsum. }
  intros c Hc.
  destruct (bounds_nth origin span k (Some out) c Hk Hc) as (v & Hv & Hvv).
  { intros l0 E _. injection E as <-. exact Houtsum. }
  destruct (Hold c Hc) as (old & Hold1 & Hold2).
  exists v, old. rewrite boundsOn_withFractions.
  repeat apply conj; try assumption.
  - intro E. rewrite Hvv, (fractionsOr_explicit out k Houtlen).
    rewrite (sum_eqv _ _ (firstn_eqv _ _ c Heqv)).
    rewrite (moved_prefix_sums l i fi fj L c Hfi Hfj).
    replace (Nat.eqb c (i + 1)) with true
      by (symmetry; apply Nat.eqb_eq; exact E).
    unfold L. field. lra.
  - intro E. rewrite Hvv, Hold2, (fractionsOr_explicit out k Houtlen).
    rewrite (sum_eqv _ _ (firstn_eqv _ _ c Heqv)).
    rewrite (moved_prefix_sums l i fi fj L c Hfi Hfj).
    replace (Nat.eqb c (i + 1)) with false
      by (symmetry; apply Nat.eqb_neq; exact E).
    reflexivity.
Qed.

Lemma close_of_eq a b : a == b -> close a b.
Proof.
  intro H. unfold close, TOLERANCE.
  assert (E : a - b == 0) by (rewrite H; ring).
  rewrite E. discriminate.
Qed.

(** C7 (as amended): a divider-drag gesture made of a press and a
    release, with no pointer-move in between, leaves the collection as it
    was.  A pointer-move of the gesture does not use the displacement
    from the press: whatever press position the gesture stored, over an
    element of positive span whose explicit fractions in force (if any)
    are not negative and sum to one, a move whose pointer is at least ten
    units away from both neighbouring bounds commits one fraction per
    cell for which [getGridPositions] puts the dragged divider at the
    pointer (within a millionth; exactly so in exact arithmetic).  This
    holds in particular of the last move of a gesture that returns to
    its press position: it puts the divider at the press position,
    whatever the fractions were before the gesture. *)
Theorem divider_drag_identity :
  (forall env env' p st ev ev' pos d,
      imageUrl p = true -> panTrigger st ev = false -> isPanning st = false ->
      screenToImage p st (clientX ev) (clientY ev) = Some pos ->
      detectDivider p st pos = Some (Some d) ->
      exists st',
        run (p, st) [Down env ev; Up env' ev'] = Some (p, st')
        /\ draggingDivider st' = None)
  /\ (forall p st ev dd el pos lo hi,
      dragging p st dd el ->
      screenToImage p st (clientX ev) (clientY ev) = Some pos ->
      let a := dividerType (target dd) in
      let i := dividerIndex (target dd) in
      0 < spanOn a el ->
      wellFormedOn a el ->
      nth_error (boundsOn a el) i = Some lo ->
      nth_error (boundsOn a el) (i + 2) = Some hi ->
      lo + 10 <= coordOn a pos /\ coordOn a pos <= hi - 10 ->
      exists fr v,
        handleMouseMove p st ev
        = Some (st, [ElementsChange
                       (mapById (dividerElementId (target dd))
                                (fun e => withFractions a e (Some fr))
                                (elements p))])
        /\ nth_error (boundsOn a (withFractions a el (Some fr))) (i + 1)
           = Some v
        /\ close v (coordOn a pos)).
Proof.
  split.
  - intros env env' p st ev ev' pos d Himg Hpan Hnopan Hpos Hdiv.
    unfold run, step.
    rewrite (handleMouseDown_divider env p st ev pos d Himg Hpan Hpos Hdiv).
    cbn [bind fst snd deliver fold_left].
    unfold handleMouseUp.
    cbn [isPanning draggingDivider setDraggingDivider].
    rewrite Hnopan. cbn [bind fst snd deliver fold_left].
    eexists. split; reflexivity.
  - intros p st ev dd el pos lo hi Hdrag Hpos a i Hspan Hwf Hlo Hhi Hnear.
    destruct (divider_move_bounds p st ev dd el pos lo hi Hdrag Hpos
                Hspan Hwf Hlo Hhi Hnear) as (fr & Hmove & Hbounds).
    assert (Hi : (i + 1 <= countOn a el)%nat).
    { assert (i + 2 < countOn a el + 1)%nat; [|lia].
      rewrite <- (bounds_length (originOn a el) (spanOn a el) (countOn a el)
                                (fractionsOn a el) (countOn_pos a el)).
      rewrite <- boundsOn_unfold.
      apply nth_error_Some. fold a i in Hhi. rewrite Hhi. discriminate. }
    destruct (Hbounds (i + 1)%nat Hi) as (v & old & Hv & _ & Hon & _).
    exists fr, v. split; [exact Hmove|]. split; [exact Hv|].
    apply close_of_eq, Hon. reflexivity.
Qed.

(** The divider between two equal columns, pressed at 53: a move at 53
    puts it at 53. *)
Lemma divider_drag_identity_two_columns :
  exists fr v,
    handleMouseMove dragProps dragState (pointer 53 20)
    = Some (dragState,
            [ElementsChange
               (mapById "g" (fun e => withColWidths e (Some fr))
                        (elements dragProps))])
    /\ nth_error (boundsOn col (withColWidths (colGrid 2 [1 # 2; 1 # 2])
                                              (Some fr))) 1 = Some v
    /\ close v 53.
Proof.
  eapply (proj2 divider_drag_identity dragProps dragState (pointer 53 20)
                (mkDragging (mkDivider "g" col 0) 53)
                (colGrid 2 [1 # 2; 1 # 2]) (mkPoint 53 20)).
  - repeat apply conj; reflexivity.
  - vm_compute. reflexivity.
  - reflexivity.
  - intros l Hl _. injection Hl as <-. split.
    + repeat constructor; unfold Qle; simpl; lia.
    + reflexivity.
  - vm_compute. reflexivity.
  - vm_compute. reflexivity.
  - split; unfold Qle; simpl; lia.
Defined.

(** C7, counterexample: two equal columns over a width of 100; a press
    at 53, within the hit tolerance of the divider at 50, a move to 54, a
    move back to 53 and a release at 53 leave the widths at 53/100 and
    47/100. *)
Lemma divider_drag_round_trip_moves_divider :
  exists w fr,
    run (dragProps, idle)
        [Down clock (pointer 53 20); Move (pointer 54 20);
         Move (pointer 53 20); Up clock (pointer 53 20)] = Some w
    /\ map colWidths (elements dragProps) = [Some [1 # 2; 1 # 2]]
    /\ map colWidths (elements (fst w)) = [Some fr]
    /\ Arr.eqv fr [53 # 100; 47 # 100]
    /\ ~ Arr.eqv fr [1 # 2; 1 # 2].
Proof.
  eexists. eexists.
  split; [vm_compute; reflexivity|].
  split; [reflexivity|].
  split; [reflexivity|].
  split; [repeat constructor|].
  intro H. inversion H as [|a b la lb Hab Hrest]; subst.
  vm_compute in Hab. discriminate.
Qed.

(** X13: during a divider drag over an element of positive span whose
    explicit fractions in force (if any) are not negative and sum to one,
    a pointer-move whose pointer is at least ten units away from both
    neighbouring bounds commits fractions for which [getGridPositions]
    leaves every bound other than the dragged divider where it was and
    puts the dragged divider at the pointer, each within a millionth
    (exactly so in exact arithmetic; the code's doubles differ in the
    last digits). *)
Theorem dragged_divider_lands_on_pointer p st ev dd el pos lo hi :
  dragging p st dd el ->
  screenToImage p st (clientX ev) (clientY ev) = Some pos ->
  let a := dividerType (target dd) in
  let i := dividerIndex (target dd) in
  0 < spanOn a el ->
  wellFormedOn a el ->
  nth_error (boundsOn a el) i = Some lo ->
  nth_error (boundsOn a el) (i + 2) = Some hi ->
  lo + 10 <= coordOn a pos /\ coordOn a pos <= hi - 10 ->
  exists fr,
    handleMouseMove p st ev
    = Some (st, [ElementsChange
                   (mapById (dividerElementId (target dd))
                            (fun e => withFractions a e (Some fr))
                            (elements p))])
    /\ length (boundsOn a (withFractions a el (Some fr)))
       = length (boundsOn a el)
    /\ forall c, (c <= countOn a el)%nat ->
         exists v old,
           nth_error (boundsOn a (withFractions a el (Some fr))) c = Some v
           /\ nth_error (boundsOn a el) c = Some old
           /\ (c = (i + 1)%nat -> close v (coordOn a pos))
           /\ (c <> (i + 1)%nat -> close v old).
Proof.
  intros Hdrag Hpos a i Hspan Hwf Hlo Hhi Hnear.
  destruct (divider_move_bounds p st ev dd el pos lo hi Hdrag Hpos
              Hspan Hwf Hlo Hhi Hnear) as (fr & Hmove & Hbounds).
  exists fr. split; [exact Hmove|]. split.
  - rewrite boundsOn_withFractions, boundsOn_unfold.
    rewrite !bounds_length by apply countOn_pos. reflexivity.
  - intros c Hc.
    destruct (Hbounds c Hc) as (v & old & Hv & Hold & Hon & Hoff).
    exists v, old. split; [exact Hv|]. split; [exact Hold|]. split.
    + intro E. apply close_of_eq, Hon, E.
    + intro E. apply close_of_eq, Hoff, E.
Qed.

(** The first divider of three columns, dragged from 25 to 30. *)
Lemma dragged_first_divider_of_three :
  exists fr v,
    handleMouseMove threeProps dragState (pointer 30 20)
    = Some (dragState,
            [ElementsChange
               (mapById "g" (fun e => withColWidths e (Some fr))
                        (elements threeProps))])
    /\ nth_error
         (boundsOn col (withColWidths (colGrid 3 [1 # 4; 1 # 4; 1 # 2])
                                      (Some fr))) 1 = Some v
    /\ close v 30.
Proof.
  edestruct (dragged_divider_lands_on_pointer threeProps dragState
               (pointer 30 20) (mkDragging (mkDivider "g" col 0) 53)
               (colGrid 3 [1 # 4; 1 # 4; 1 # 2]) (mkPoint 30 20))
    as (fr & Hmove & _ & Hbounds).
  - repeat apply conj; reflexivity.
  - vm_compute. reflexivity.
  - reflexivity.
  - intros l Hl _. injection Hl as <-. split.
    + repeat constructor; unfold Qle; simpl; lia.
    + reflexivity.
  - vm_compute. reflexivity.
  - vm_compute. reflexivity.
  - split; unfold Qle; simpl; lia.
  - destruct (Hbounds 1%nat) as (v & old & Hv & _ & Hon & _);
      [simpl; lia|].
    exists fr, v. repeat apply conj.
    + exact Hmove.
    + exact Hv.
    + apply Hon. reflexivity.
Defined.

(** X14: for an image whose larger side is positive, a pixel tolerance
    that is not negative and not above that side is converted by
    [toleranceToRU] to resolution units between 0 and 1000. *)
Theorem tolerance_ru_in_range tol imgW imgH :
  0 < Qmax imgW imgH ->
  0 <= fst tol /\ fst tol <= Qmax imgW imgH ->
  0 <= snd tol /\ snd tol <= Qmax imgW imgH ->
  exists ru,
    toleranceToRU tol imgW imgH = Some ru
    /\ 0 <= fst ru /\ fst ru <= 1000
    /\ 0 <= snd ru /\ snd ru <= 1000.
Proof.
  intros Hm [Hx0 Hx1] [Hy0 Hy1]. unfold toleranceToRU.
  set (m := Qmax imgW imgH) in *.
  rewrite div_some by lra. cbn [bind].
  eexists. split; [reflexivity|]. cbn [fst snd].
  assert (Hs : 0 < 1000 / m)
    by (apply Qlt_shift_div_l; [exact Hm|lra]).
  assert (Hone : m * (1000 / m) == 1000) by (field; lra).
  assert (H0 : Num.round 0 = 0) by reflexivity.
  assert (H1 : Num.round 1000 = 1000) by reflexivity.
  assert (Hb : forall t, 0 <= t -> t <= m ->
                 0 <= t * (1000 / m) /\ t * (1000 / m) <= 1000).
  { intros t Ht0 Ht1. split.
    - apply Qmult_le_0_compat; lra.
    - apply Qle_trans with (m * (1000 / m));
        [apply Qmult_le_compat_r; lra|lra]. }
  destruct (Hb _ Hx0 Hx1) as [Ha1 Ha2].
  destruct (Hb _ Hy0 Hy1) as [Hb1 Hb2].
  repeat apply conj.
  - rewrite <- H0. apply round_le. exact Ha1.
  - rewrite <- H1. apply round_le. exact Ha2.
  - rewrite <- H0. apply round_le. exact Hb1.
  - rewrite <- H1. apply round_le. exact Hb2.
Qed.

(** The tolerance of the uneven grid on a 1920 x 1080 screen. *)
Lemma tolerance_ru_of_uneven_grid :
  exists ru,
    toleranceToRU (calculateTolerance unevenGrid DEFAULT_TOLERANCE_SCALE)
                  1920 1080 = Some ru
    /\ 0 <= fst ru /\ fst ru <= 1000
    /\ 0 <= snd ru /\ snd ru <= 1000.
Proof.
  apply (tolerance_ru_in_range
           (calculateTolerance unevenGrid DEFAULT_TOLERANCE_SCALE)
           1920 1080).
  - reflexivity.
  - split; vm_compute; discriminate.
  - split; vm_compute; discriminate.
Defined.

(** * Properties of the hooks, the element list and the page *)

(** ** Zoom *)

Lemma zoom_act_in_range z a :
  View.MIN_ZOOM <= z /\ z <= View.MAX_ZOOM ->
  View.MIN_ZOOM <= View.act z a /\ View.act z a <= View.MAX_ZOOM.
Proof.
  intros [Hlo Hhi].
  destruct a; unfold View.act, View.setZoomLevel, View.zoomIn, View.zoomOut,
    View.resetZoom, View.MIN_ZOOM, View.MAX_ZOOM, View.ZOOM_STEP in *;
    split; minmax.
Qed.

Lemma zoom_run_in_range acts :
  forall z,
    View.MIN_ZOOM <= z /\ z <= View.MAX_ZOOM ->
    View.MIN_ZOOM <= fold_left View.act acts z
    /\ fold_left View.act acts z <= View.MAX_ZOOM.
Proof.
  induction acts as [|a rest IH]; intros z Hz; simpl; [exact Hz|].
  apply IH. apply zoom_act_in_range. exact Hz.
Qed.

Lemma zoom_button_quarters z a k :
  View.button a = true -> (1 <= k <= 16)%Z -> z == View.quarters k ->
  exists k', (1 <= k' <= 16)%Z /\ View.act z a == View.quarters k'.
Proof.
  intros Hb Hk Hz. destruct a as [level| | |]; [discriminate| | |].
  - destruct (Z.eq_dec k 16) as [->|Hne].
    + exists 16%Z. split; [lia|]. cbn [View.act]. unfold View.zoomIn.
      rewrite Hz. reflexivity.
    + exists (k + 1)%Z. split; [lia|]. cbn [View.act].
      unfold View.zoomIn, View.quarters, View.MAX_ZOOM, View.ZOOM_STEP in *.
      rewrite Hz, inject_Z_plus.
      assert (Hq : inject_Z k <= 15) by (change 15 with (inject_Z 15); rewrite <- Zle_Qle; lia).
      set (q := inject_Z k) in *. clearbody q.
      change (inject_Z 1) with 1. minmax.
  - destruct (Z.eq_dec k 1) as [->|Hne].
    + exists 1%Z. split; [lia|]. cbn [View.act]. unfold View.zoomOut.
      rewrite Hz. reflexivity.
    + exists (k - 1)%Z. split; [lia|]. cbn [View.act].
      unfold View.zoomOut, View.quarters, View.MIN_ZOOM, View.ZOOM_STEP in *.
      rewrite Hz. unfold Z.sub. rewrite inject_Z_plus.
      assert (Hq : 2 <= inject_Z k) by (change 2 with (inject_Z 2); rewrite <- Zle_Qle; lia).
      set (q := inject_Z k) in *. clearbody q.
      change (inject_Z (- (1))) with (- (1)). minmax.
  - exists 4%Z. split; [lia|]. reflexivity.
Qed.

Lemma zoom_buttons_quarters acts :
  forall z k,
    forallb View.button acts = true -> (1 <= k <= 16)%Z ->
    z == View.quarters k ->
    exists k', (1 <= k' <= 16)%Z
               /\ fold_left View.act acts z == View.quarters k'.
Proof.
  induction acts as [|a rest IH]; intros z k Hall Hk Hz; simpl.
  - exists k. split; assumption.
  - simpl in Hall. apply andb_true_iff in Hall. destruct Hall as [Ha Hrest].
    destruct (zoom_button_quarters z a k Ha Hk Hz) as (k1 & Hk1 & Hz1).
    apply (IH _ k1); assumption.
Qed.

(** X15: whatever sequence of [setZoomLevel], [zoomIn], [zoomOut] and
    [resetZoom] calls is made, the zoom level stays between 0.25 and 4;
    with the three buttons alone ([zoomIn], [zoomOut], [resetZoom]) the
    level is always a whole number of quarters, from 1 to 16 of them;
    and at such a level a zoom-in followed by a zoom-out (a zoom-out
    followed by a zoom-in) gives the level back when the first step did
    not hit the limit. *)
Theorem zoom_stays_in_range :
  (forall acts,
      View.MIN_ZOOM <= View.after acts /\ View.after acts <= View.MAX_ZOOM)
  /\ (forall acts,
        forallb View.button acts = true ->
        exists k, (1 <= k <= 16)%Z /\ View.after acts == View.quarters k)
  /\ (forall k,
        (1 <= k <= 15)%Z ->
        View.zoomOut (View.zoomIn (View.quarters k)) == View.quarters k)
  /\ (forall k,
        (2 <= k <= 16)%Z ->
        View.zoomIn (View.zoomOut (View.quarters k)) == View.quarters k).
Proof.
  split; [|split; [|split]].
  - intro acts. apply zoom_run_in_range. split; discriminate.
  - intros acts Hall.
    apply (zoom_buttons_quarters acts View.initial 4%Z Hall); [lia|].
    reflexivity.
  - intros k Hk.
    assert (H1 : 1 <= inject_Z k) by (change 1 with (inject_Z 1); rewrite <- Zle_Qle; lia).
    assert (H2 : inject_Z k <= 15) by (change 15 with (inject_Z 15); rewrite <- Zle_Qle; lia).
    unfold View.zoomIn, View.zoomOut, View.quarters, View.MIN_ZOOM,
      View.MAX_ZOOM, View.ZOOM_STEP.
    set (q := inject_Z k) in *. clearbody q. minmax.
  - intros k Hk.
    assert (H1 : 2 <= inject_Z k) by (change 2 with (inject_Z 2); rewrite <- Zle_Qle; lia).
    assert (H2 : inject_Z k <= 16) by (change 16 with (inject_Z 16); rewrite <- Zle_Qle; lia).
    unfold View.zoomIn, View.zoomOut, View.quarters, View.MIN_ZOOM,
      View.MAX_ZOOM, View.ZOOM_STEP.
    set (q := inject_Z k) in *. clearbody q. minmax.
Qed.

(** From the initial level, four quarters: in and out again. *)
Lemma zoom_in_and_out_from_one :
  View.zoomOut (View.zoomIn (View.quarters 4)) == View.quarters 4.
Proof.
  apply (proj1 (proj2 (proj2 zoom_stays_in_range)) 4%Z). lia.
Defined.

(** ** Modes *)

Lemma tool_act_exclusive s a :
  (Tool.activeModes s <= 1)%nat -> (Tool.activeModes (Tool.act s a) <= 1)%nat.
Proof.
  unfold Tool.activeModes.
  destruct a as [ty|m|r|c| | | | | | |element];
    try (destruct s as [ty' dm gr gc [|] [|] [|]]; simpl; lia).
  cbn [Tool.act]. unfold Tool.syncFromElement.
  destruct element as [el|]; [|exact (fun H => H)].
  destruct (existsb (String.eqb (type el)) Tool.GRID_ELEMENT_TYPES);
    [|exact (fun H => H)].
  cbn [Tool.isColorSampling Tool.isCropMode Tool.isIconPlacementMode].
  exact (fun H => H).
Qed.

(** X16: whatever sequence of calls is made on the tool state, at most
    one of color sampling, crop mode and icon placement mode is on; the
    canvas therefore never receives two of them at once. *)
Theorem tool_modes_exclude_each_other acts :
  (Tool.activeModes (Tool.after acts) <= 1)%nat.
Proof.
  unfold Tool.after.
  assert (H : forall s, (Tool.activeModes s <= 1)%nat ->
                        (Tool.activeModes (fold_left Tool.act acts s) <= 1)%nat).
  { induction acts as [|a rest IH]; intros s Hs; simpl; [exact Hs|].
    apply IH, tool_act_exclusive, Hs. }
  apply H. unfold Tool.activeModes, Tool.initial. simpl. lia.
Qed.

(** ** Deleting elements *)

Lemma filter_all {A : Type} (f : A -> bool) (l : list A) :
  (forall a, In a l -> f a = true) -> filter f l = l.
Proof.
  induction l as [|a rest IH]; intro H; simpl; [reflexivity|].
  rewrite (H a (or_introl eq_refl)). f_equal.
  apply IH. intros b Hb. apply H. right. exact Hb.
Qed.

Lemma filter_twice {A : Type} (f g : A -> bool) (l : list A) :
  filter f (filter g l) = filter (fun a => g a && f a) l.
Proof.
  induction l as [|a rest IH]; simpl; [reflexivity|].
  destruct (g a); simpl; [destruct (f a)|]; rewrite IH; reflexivity.
Qed.

Lemma includes_In ids s : Annotation.includes ids s = true <-> In s ids.
Proof.
  unfold Annotation.includes. rewrite existsb_exists. split.
  - intros (i & Hi & E). apply String.eqb_eq in E. subst. exact Hi.
  - intro H. exists s. split; [exact H|apply String.eqb_refl].
Qed.

Lemma deleteElements_nil s :
  Annotation.deleteElements [] s = s.
Proof.
  destruct s as [els sel tks selT]. unfold Annotation.deleteElements.
  cbn [Annotation.elements Annotation.selectedElementId Annotation.tasks
       Annotation.selectedTaskId].
  f_equal.
  - apply filter_all. reflexivity.
  - destruct sel as [prev|]; [|reflexivity].
    rewrite andb_false_r. reflexivity.
  - apply filter_all. reflexivity.
Qed.

Lemma deleteElements_cons i rest s :
  Annotation.selectedElementId s <> Some EmptyString ->
  Annotation.deleteElements rest (Annotation.deleteElement i s)
  = Annotation.deleteElements (i :: rest) s.
Proof.
  intro Hsel. destruct s as [els sel tks selT].
  unfold Annotation.deleteElements, Annotation.deleteElement.
  cbn [Annotation.elements Annotation.selectedElementId Annotation.tasks
       Annotation.selectedTaskId] in *.
  f_equal.
  - rewrite filter_twice. apply filter_ext. intro el.
    unfold Annotation.includes. cbn [existsb].
    rewrite negb_orb. reflexivity.
  - destruct sel as [prev|]; [|reflexivity].
    unfold Annotation.includes. cbn [existsb].
    assert (Ht : truthy (Some prev) = true).
    { unfold truthy. destruct (String.eqb prev EmptyString) eqn:E;
        [|reflexivity].
      apply String.eqb_eq in E. subst. congruence. }
    rewrite Ht. destruct (String.eqb prev i); [reflexivity|].
    rewrite Ht. reflexivity.
  - rewrite filter_twice. apply filter_ext. intro tk.
    cbn [existsb]. unfold Annotation.autoGenerated.
    rewrite !negb_orb. reflexivity.
Qed.

Lemma deleteElement_selection i s :
  Annotation.selectedElementId s <> Some EmptyString ->
  Annotation.selectedElementId (Annotation.deleteElement i s)
  <> Some EmptyString.
Proof.
  intro H. destruct s as [els [prev|] tks selT]; simpl in *;
    [|discriminate].
  destruct (String.eqb prev i); [discriminate|exact H].
Qed.

Lemma repeated_delete_is_bulk ids :
  forall s,
    Annotation.selectedElementId s <> Some EmptyString ->
    fold_left (fun s i => Annotation.deleteElement i s) ids s
    = Annotation.deleteElements ids s.
Proof.
  induction ids as [|i rest IH]; intros s Hsel; simpl.
  - symmetry. apply deleteElements_nil.
  - rewrite IH by (apply deleteElement_selection; exact Hsel).
    apply deleteElements_cons. exact Hsel.
Qed.

(** X17: "Delete selected" of the element list calls [deleteElement]
    once per selected id; unless the selection is the empty string, the
    annotation state it leaves is the one the bulk [deleteElements]
    gives: the elements whose id is selected are gone, the others are
    kept, and the multi-selection is empty afterwards. *)
Theorem delete_selected_is_bulk_delete st s :
  Annotation.selectedElementId s <> Some EmptyString ->
  let r := ElementList.handleDeleteSelected st in
  let s' := fold_left ElementList.call (snd r) s in
  s' = Annotation.deleteElements (ElementList.multiSelected st) s
  /\ ElementList.multiSelected (fst r) = []
  /\ forall el,
       In el (Annotation.elements s')
       <-> In el (Annotation.elements s)
           /\ ~ In (id el) (ElementList.multiSelected st).
Proof.
  intros Hsel r s'.
  assert (E : s' = Annotation.deleteElements (ElementList.multiSelected st) s).
  { subst s' r. cbn [ElementList.handleDeleteSelected snd].
    rewrite <- (repeated_delete_is_bulk _ s Hsel).
    generalize (ElementList.multiSelected st) as ids. intro ids. revert s Hsel.
    induction ids as [|i rest IH]; intros s Hsel; simpl; [reflexivity|].
    apply IH. apply deleteElement_selection. exact Hsel. }
  repeat apply conj; [exact E|reflexivity|].
  intro el. rewrite E. unfold Annotation.deleteElements.
  cbn [Annotation.elements]. rewrite filter_In, negb_true_iff.
  split; intros [H1 H2]; (split; [exact H1|]).
  - intro Hin. apply includes_In in Hin. congruence.
  - destruct (Annotation.includes _ _) eqn:Ei; [|reflexivity].
    apply includes_In in Ei. contradiction.
Qed.

(** Two of three buttons are deleted, with their click tasks. *)
Lemma delete_selected_two_of_three :
  Annotation.selectedElementId threeButtons <> Some EmptyString
  /\ fold_left ElementList.call
               (snd (ElementList.handleDeleteSelected twoChosen)) threeButtons
     = Annotation.deleteElements ["a"; "b"]%string threeButtons
  /\ map id (Annotation.elements
               (Annotation.deleteElements ["a"; "b"]%string threeButtons))
     = ["c"%string]
  /\ map Task.id (Annotation.tasks
                    (Annotation.deleteElements ["a"; "b"]%string threeButtons))
     = ["c_click_"%string].
Proof.
  assert (H : Annotation.selectedElementId threeButtons <> Some EmptyString)
    by discriminate.
  split; [exact H|].
  split; [exact (proj1 (delete_selected_is_bulk_delete twoChosen threeButtons H))|].
  split; reflexivity.
Defined.

Lemma prefix_refl s : String.prefix s s = true.
Proof.
  induction s as [|c rest IH]; simpl; [reflexivity|].
  destruct (Ascii.ascii_dec c c); [exact IH|congruence].
Qed.

Lemma deleteElement_fresh_elements (els : list UIElement) el :
  (forall e, In e els -> id e <> id el) ->
  filter (fun e => negb (String.eqb (id e) (id el))) (els ++ [el]) = els.
Proof.
  intro H. rewrite filter_app. simpl. rewrite String.eqb_refl. simpl.
  rewrite app_nil_r. apply filter_all. intros e He.
  apply negb_true_iff, String.eqb_neq, H, He.
Qed.

Lemma deleteElement_fresh_tasks i (tks : list Task.t) :
  (forall tk, In tk tks -> Annotation.autoGenerated i tk = false) ->
  filter
    (fun tk =>
       negb (String.prefix (i ++ Annotation.SCROLL_TASK_PREFIX) (Task.id tk))
       && negb (String.prefix (i ++ Annotation.SELECT_TASK_PREFIX) (Task.id tk))
       && negb (String.prefix (i ++ Annotation.CLICK_TASK_PREFIX) (Task.id tk)))
    tks = tks.
Proof.
  intro H. apply filter_all. intros tk Htk.
  specialize (H tk Htk). unfold Annotation.autoGenerated in H.
  rewrite <- !negb_orb, H. reflexivity.
Qed.

(** X18: adding an element and deleting it again gives the annotation
    state back, auto-generated click task included, provided the id is
    new: no element carries it, no task id starts with it followed by
    one of the three task prefixes, and it is not the selection. *)
Theorem add_then_delete_restores el s :
  (forall e, In e (Annotation.elements s) -> id e <> id el) ->
  (forall tk, In tk (Annotation.tasks s) ->
              Annotation.autoGenerated (id el) tk = false) ->
  Annotation.selectedElementId s <> Some (id el) ->
  Annotation.deleteElement (id el) (Annotation.addElement el s) = s.
Proof.
  intros Hels Htks Hsel. destruct s as [els sel tks selT].
  cbn [Annotation.elements Annotation.tasks Annotation.selectedElementId] in *.
  assert (Hsel' : match sel with
                  | Some prev => if String.eqb prev (id el) then None
                                 else Some prev
                  | None => None
                  end = sel).
  { destruct sel as [prev|]; [|reflexivity].
    destruct (String.eqb prev (id el)) eqn:E; [|reflexivity].
    apply String.eqb_eq in E. subst. congruence. }
  unfold Annotation.addElement, Annotation.autoGenerateTasks.
  cbn [Annotation.elements Annotation.tasks Annotation.selectedElementId
       Annotation.selectedTaskId].
  destruct (Annotation.includes Annotation.AUTO_CLICK_TYPES (type el));
    unfold Annotation.deleteElement;
    cbn [Annotation.elements Annotation.tasks Annotation.selectedElementId
         Annotation.selectedTaskId];
    rewrite Hsel', (deleteElement_fresh_elements els el Hels).
  - f_equal. rewrite filter_app.
    rewrite (deleteElement_fresh_tasks (id el) tks Htks).
    cbn [filter Annotation.generateClickTask Task.id].
    rewrite (prefix_refl (id el ++ Annotation.CLICK_TASK_PREFIX)).
    rewrite andb_false_r. apply app_nil_r.
  - f_equal. apply (deleteElement_fresh_tasks (id el) tks Htks).
Qed.

(** A fourth button is added to the three and deleted again. *)
Lemma add_then_delete_fourth_button :
  Annotation.selectedElementId threeButtons <> Some "d"%string
  /\ Annotation.deleteElement "d"
       (Annotation.addElement (box "d" (mkBBox 0 60 50 50)) threeButtons)
     = threeButtons.
Proof.
  assert (H : Annotation.selectedElementId threeButtons <> Some "d"%string)
    by discriminate.
  split; [exact H|].
  apply (add_then_delete_restores (box "d" (mkBBox 0 60 50 50)) threeButtons).
  - intros e He. simpl in He.
    destruct He as [<-|[<-|[<-|[]]]]; discriminate.
  - intros tk Htk. simpl in Htk.
    destruct Htk as [<-|[<-|[<-|[]]]]; reflexivity.
  - exact H.
Defined.

(** X19: [deleteElement] leaves no element with the deleted id and never
    leaves the selection on it; a selection that named an element of the
    collection before still does afterwards, or is cleared. *)
Theorem delete_keeps_selection_valid i s :
  Annotation.selectionValid s ->
  let s' := Annotation.deleteElement i s in
  Annotation.selectionValid s'
  /\ (forall el, In el (Annotation.elements s') -> id el <> i)
  /\ Annotation.selectedElementId s' <> Some i
  /\ (Annotation.selectedElementId s' = Annotation.selectedElementId s
      \/ Annotation.selectedElementId s' = None).
Proof.
  intros Hvalid s'. subst s'.
  destruct s as [els sel tks selT].
  unfold Annotation.selectionValid, Annotation.deleteElement in *.
  cbn [Annotation.elements Annotation.selectedElementId] in *.
  repeat apply conj.
  - destruct sel as [prev|]; [|exact I].
    destruct (String.eqb prev i) eqn:E; [exact I|].
    destruct Hvalid as (el & Hin & Hid). exists el. split; [|exact Hid].
    apply filter_In. split; [exact Hin|]. rewrite Hid, E. reflexivity.
  - intros el Hin. apply filter_In in Hin. destruct Hin as [_ Hne].
    apply negb_true_iff, String.eqb_neq in Hne. exact Hne.
  - destruct sel as [prev|]; [|discriminate].
    destruct (String.eqb prev i) eqn:E; [discriminate|].
    apply String.eqb_neq in E. congruence.
  - destruct sel as [prev|]; [|left; reflexivity].
    destruct (String.eqb prev i); [right|left]; reflexivity.
Qed.

(** Deleting the selected first button clears the selection. *)
Lemma delete_selected_button_clears_selection :
  Annotation.selectionValid threeButtons
  /\ Annotation.selectedElementId (Annotation.deleteElement "a" threeButtons)
     <> Some "a"%string.
Proof.
  assert (H : Annotation.selectionValid threeButtons).
  { exists (box "a" (mkBBox 0 0 50 50)). split; [left|]; reflexivity. }
  split; [exact H|].
  exact (proj1 (proj2 (proj2 (delete_keeps_selection_valid "a" threeButtons H)))).
Defined.

(** ** Cropping *)

Lemma adjust_In cropBbox prev el' :
  In el' (Page.adjust cropBbox prev)
  <-> exists el,
        In el prev
        /\ x cropBbox <= x (bbox el) /\ y cropBbox <= y (bbox el)
        /\ x (bbox el) + width (bbox el) <= x cropBbox + width cropBbox
        /\ y (bbox el) + height (bbox el) <= y cropBbox + height cropBbox
        /\ el' = withBBox el (mkBBox (x (bbox el) - x cropBbox)
                                     (y (bbox el) - y cropBbox)
                                     (width (bbox el)) (height (bbox el))).
Proof.
  unfold Page.adjust. rewrite in_flat_map. split.
  - intros (el & Hin & Hel). exists el. split; [exact Hin|].
    cbv zeta in Hel.
    destruct (Num.geb (x (bbox el)) (x cropBbox)) eqn:E1; [|destruct Hel].
    destruct (Num.geb (y (bbox el)) (y cropBbox)) eqn:E2; [|destruct Hel].
    destruct (Num.leb _ _) eqn:E3 in Hel; [|destruct Hel].
    destruct (Num.leb _ _) eqn:E4 in Hel; [|destruct Hel].
    apply geb_ge in E1, E2. apply leb_le in E3, E4.
    destruct Hel as [<-|[]]. repeat apply conj; try assumption. reflexivity.
  - intros (el & Hin & H1 & H2 & H3 & H4 & ->). exists el.
    split; [exact Hin|]. cbv zeta.
    apply geb_ge in H1, H2. apply leb_le in H3, H4.
    rewrite H1, H2, H3, H4. left. reflexivity.
Qed.

(** X20: applying a crop of at least 10 x 10 to a loaded image that
    decodes turns the image into the crop, clears the crop rectangle, the
    selection and crop mode, and keeps exactly the elements that lie
    entirely in the crop, each moved by the crop origin with its size and
    other fields kept; every element left lies inside the new image. *)
Theorem crop_keeps_elements_inside_image s cropBbox size :
  Page.cropRect s = Some cropBbox ->
  Page.imageUrl s = true ->
  Page.imageSize s = Some size ->
  10 <= width cropBbox -> 10 <= height cropBbox ->
  let s' := Page.handleApplyCrop true s in
  Page.imageSize s' = Some (width cropBbox, height cropBbox)
  /\ Page.cropRect s' = None
  /\ Tool.isCropMode (Page.tools s') = false
  /\ Annotation.selectedElementId (Page.annotation s') = None
  /\ Annotation.tasks (Page.annotation s')
     = Annotation.tasks (Page.annotation s)
  /\ (forall el',
        In el' (Annotation.elements (Page.annotation s')) ->
        0 <= x (bbox el') /\ 0 <= y (bbox el')
        /\ x (bbox el') + width (bbox el') <= width cropBbox
        /\ y (bbox el') + height (bbox el') <= height cropBbox)
  /\ (forall el',
        In el' (Annotation.elements (Page.annotation s'))
        <-> exists el,
              In el (Annotation.elements (Page.annotation s))
              /\ x cropBbox <= x (bbox el) /\ y cropBbox <= y (bbox el)
              /\ x (bbox el) + width (bbox el)
                 <= x cropBbox + width cropBbox
              /\ y (bbox el) + height (bbox el)
                 <= y cropBbox + height cropBbox
              /\ el' = withBBox el (mkBBox (x (bbox el) - x cropBbox)
                                           (y (bbox el) - y cropBbox)
                                           (width (bbox el))
                                           (height (bbox el)))).
Proof.
  intros Hcrop Hurl Hsize Hw Hh s'. subst s'.
  unfold Page.handleApplyCrop. rewrite Hcrop, Hurl, Hsize.
  replace (Num.ltb (width cropBbox) 10) with false
    by (symmetry; apply not_true_is_false; intro E; apply ltb_lt in E; lra).
  replace (Num.ltb (height cropBbox) 10) with false
    by (symmetry; apply not_true_is_false; intro E; apply ltb_lt in E; lra).
  cbn [orb Page.imageSize Page.cropRect Page.tools Page.annotation
       Annotation.selectElement Annotation.setElements
       Annotation.selectedElementId Annotation.tasks Annotation.elements
       Tool.stopCropMode Tool.setModes Tool.isCropMode].
  repeat apply conj; try reflexivity.
  - intros el' Hin. apply adjust_In in Hin.
    destruct Hin as (el & _ & H1 & H2 & H3 & H4 & ->). simpl.
    repeat apply conj; lra.
  - intro el'. apply adjust_In.
Qed.

(** The box inside the crop is kept and moved, the cut one is dropped. *)
Lemma crop_keeps_the_box_inside :
  Page.imageSize (Page.handleApplyCrop true cropping) = Some (400, 300)
  /\ map bbox (Annotation.elements
                 (Page.annotation (Page.handleApplyCrop true cropping)))
     = [mkBBox (150 - 100) (120 - 100) 100 50].
Proof.
  split.
  - apply (crop_keeps_elements_inside_image cropping (mkBBox 100 100 400 300)
             (1000, 800)); try reflexivity; discriminate.
  - reflexivity.
Defined.

(** X21: while a crop edge is dragged (no pan, divider drag or element
    resize going on) over an image of at least 10 x 10, every
    pointer-move commits a crop rectangle inside the image; its width
    (height) is at least 10 when the dragged edge recomputes it or the
    rectangle was that wide (high) when the drag began. *)
Theorem crop_resize_stays_inside_image p st ev ce cs imgW imgH pos :
  isPanning st = false -> draggingDivider st = None ->
  resizeEdge st = None ->
  cropResizeEdge st = Some ce -> cropResizeStart st = Some cs ->
  hasOnCropRectChange p = true ->
  imageSize p = Some (imgW, imgH) ->
  screenToImage p st (clientX ev) (clientY ev) = Some pos ->
  10 <= imgW -> 10 <= imgH ->
  exists b,
    handleMouseMove p st ev = Some (st, [CropRectChange b])
    /\ 0 <= x b /\ 0 <= y b
    /\ x b + width b <= imgW /\ y b + height b <= imgH
    /\ (adjustsWidth ce = true \/ 10 <= width (startBBox cs) -> 10 <= width b)
    /\ (adjustsHeight ce = true \/ 10 <= height (startBBox cs)
        -> 10 <= height b).
Proof.
  intros Hpan Hdiv Hre Hce Hcs Hcb Himg Hpos HW HH.
  exists (resizeMove ce cs pos imgW imgH). split.
  - unfold handleMouseMove. rewrite Hpan, Hpos. unfold bind.
    rewrite Hdiv, Hre, Himg, Hce, Hcs, Hcb. reflexivity.
  - unfold resizeMove.
    set (moved := resized ce (startBBox cs) (px pos - startX cs)
                          (py pos - startY cs)).
    pose proof (clampToImage_inside moved imgW imgH) as (H1 & H2 & H3 & H4).
    pose proof (clampToImage_min_size moved imgW imgH HW HH) as (H5 & H6).
    pose proof (resized_min_size ce (startBBox cs) (px pos - startX cs)
                                 (py pos - startY cs)) as (H7 & H8).
    fold moved in H7, H8.
    repeat apply conj; try assumption.
    + intro H. apply H5, H7, H.
    + intro H. apply H6, H8, H.
Qed.

(** The corner dragged far outside the image: the crop ends at the image
    border. *)
Lemma crop_resize_dragged_outside :
  exists b,
    handleMouseMove cropProps cropState (pointer 2000 2000)
    = Some (cropState, [CropRectChange b])
    /\ 0 <= x b /\ 0 <= y b
    /\ x b + width b <= 1000 /\ y b + height b <= 800
    /\ (adjustsWidth Edge.se = true \/ 10 <= 400 -> 10 <= width b)
    /\ (adjustsHeight Edge.se = true \/ 10 <= 300 -> 10 <= height b).
Proof.
  apply (crop_resize_stays_inside_image cropProps cropState
           (pointer 2000 2000) Edge.se
           (mkResizeStart 500 400 (mkBBox 100 100 400 300))
           1000 800 (mkPoint 2000 2000));
    try reflexivity; discriminate.
Defined.

(** ** Fit of the image *)

Lemma quotient_finite a b : 0 < b -> quotient a b = Finite (a / b).
Proof.
  intro H. unfold quotient.
  destruct (Qeq_bool b 0) eqn:E; [|reflexivity].
  apply Qeq_bool_iff in E. lra.
Qed.

(** X22: when an image with positive sides is shown at zoom level 1 in
    a container (all sizes whole numbers), the base scale computed is
    between 0 and 1 and the pan is reset.  It is 1 when the image is not
    larger than the container on either side: the image is then shown at
    its own size, the offset is half the free space on each axis, not
    negative, and the image lies inside the container.  It is below 1
    when the image is larger on some side, and is then the quotient of
    the container by the image along the width or along the height. *)
Theorem image_fits_container p st imgW imgH cw ch :
  imageSize p = Some (imgW, imgH) ->
  whole imgW -> whole imgH -> whole cw -> whole ch ->
  0 < imgW -> 0 < imgH -> 0 <= cw -> 0 <= ch ->
  zoomLevel p == 1 ->
  exists st',
    imageChanged p (Some (cw, ch)) st = Some st'
    /\ 0 <= baseScale st' /\ baseScale st' <= 1
    /\ pan st' = mkPoint 0 0
    /\ (imgW <= cw -> imgH <= ch ->
        baseScale st' == 1
        /\ px (offset st') == (cw - imgW) / 2
        /\ py (offset st') == (ch - imgH) / 2
        /\ 0 <= px (offset st') /\ 0 <= py (offset st')
        /\ px (offset st') + imgW <= cw /\ py (offset st') + imgH <= ch)
    /\ (cw < imgW \/ ch < imgH ->
        baseScale st' < 1
        /\ (baseScale st' == cw / imgW \/ baseScale st' == ch / imgH)).
Proof.
  intros Himg _ _ _ _ HW HH Hcw Hch Hzoom.
  unfold imageChanged, recalculateScale. rewrite Himg. cbv zeta.
  rewrite !quotient_finite by assumption. cbn [minWithOne bind].
  eexists. split; [reflexivity|].
  unfold offsetEffect. rewrite Himg.
  unfold scale.
  cbn [baseScale setOffset setPan setBaseScale pan offset px py].
  set (sx := cw / imgW). set (sy := ch / imgH).
  assert (Hsx : sx * imgW == cw) by (unfold sx; field; lra).
  assert (Hsy : sy * imgH == ch) by (unfold sy; field; lra).
  assert (Hsx0 : 0 <= sx)
    by (unfold sx; apply Qle_shift_div_l; [exact HW|lra]).
  assert (Hsy0 : 0 <= sy)
    by (unfold sy; apply Qle_shift_div_l; [exact HH|lra]).
  assert (Hx1 : imgW <= cw -> 1 <= sx).
  { intro H. unfold sx. apply Qle_shift_div_l; [exact HW|lra]. }
  assert (Hy1 : imgH <= ch -> 1 <= sy).
  { intro H. unfold sy. apply Qle_shift_div_l; [exact HH|lra]. }
  assert (Hx2 : cw < imgW -> sx < 1).
  { intro H. unfold sx. apply Qlt_shift_div_r; [exact HW|lra]. }
  assert (Hy2 : ch < imgH -> sy < 1).
  { intro H. unfold sy. apply Qlt_shift_div_r; [exact HH|lra]. }
  set (b := Qmin (Qmin sx sy) 1).
  assert (Hb0 : 0 <= b) by (unfold b; minmax).
  assert (Hb1 : b <= 1) by (unfold b; minmax).
  assert (Hfit : 1 <= sx -> 1 <= sy -> b == 1) by (intros; unfold b; minmax).
  assert (Hless : sx < 1 \/ sy < 1 -> b < 1 /\ (b == sx \/ b == sy)).
  { intros [H|H]; unfold b; split; minmax. }
  clearbody b sx sy.
  split; [exact Hb0|]. split; [exact Hb1|]. split; [reflexivity|]. split.
  - intros Hw Hh. pose proof (Hfit (Hx1 Hw) (Hy1 Hh)) as E.
    assert (Ex : (cw - imgW * (b * zoomLevel p)) / 2 + 0 == (cw - imgW) / 2)
      by (rewrite E, Hzoom; field).
    assert (Ey : (ch - imgH * (b * zoomLevel p)) / 2 + 0 == (ch - imgH) / 2)
      by (rewrite E, Hzoom; field).
    assert (Hx : (cw - imgW) / 2 == (cw - imgW) * (1 # 2)) by field.
    assert (Hy : (ch - imgH) / 2 == (ch - imgH) * (1 # 2)) by field.
    rewrite !Ex, !Ey.
    split; [exact E|]. split; [reflexivity|]. split; [reflexivity|].
    rewrite !Hx, !Hy. repeat apply conj; lra.
  - intros [H|H].
    + apply Hless. left. apply Hx2, H.
    + apply Hless. right. apply Hy2, H.
Qed.

(** The 1000 x 800 image in a 1200 x 900 container is shown at its own
    size, 100 and 50 away from the container's corner. *)
Lemma image_fits_wide_container :
  exists st',
    imageChanged blank (Some (1200, 900)) idle = Some st'
    /\ baseScale st' == 1
    /\ px (offset st') == 100 /\ py (offset st') == 50.
Proof.
  destruct (image_fits_container blank idle 1000 800 1200 900)
    as (st' & Hrun & _ & _ & _ & Hown & _);
    try reflexivity; try discriminate.
  - exists 1000%Z. reflexivity.
  - exists 800%Z. reflexivity.
  - exists 1200%Z. reflexivity.
  - exists 900%Z. reflexivity.
  - destruct Hown as (Hs & Hx & Hy & _); try discriminate.
    exists st'. split; [exact Hrun|]. split; [exact Hs|].
    split; [rewrite Hx|rewrite Hy]; reflexivity.
Defined.

(** ** The element list *)

(** ** The element list *)

Lemma filterIndex_keeps {A : Type} (l : list A) :
  forall b target,
    (target < b)%nat ->
    ElementList.filterIndex (fun i => negb (Nat.eqb i target)) b l = l.
Proof.
  induction l as [|a rest IH]; intros b target H; simpl; [reflexivity|].
  replace (Nat.eqb b target) with false
    by (symmetry; apply Nat.eqb_neq; lia).
  simpl. f_equal. apply IH. lia.
Qed.

Lemma filterIndex_removes {A : Type} (l : list A) :
  forall b idx,
    ElementList.filterIndex (fun i => negb (Nat.eqb i (b + idx))) b l
    = firstn idx l ++ skipn (S idx) l.
Proof.
  induction l as [|a rest IH]; intros b idx; simpl.
  - rewrite firstn_nil. reflexivity.
  - destruct idx as [|idx].
    + replace (b + 0)%nat with b by lia. rewrite Nat.eqb_refl. simpl.
      apply filterIndex_keeps. lia.
    + replace (Nat.eqb b (b + S idx)) with false
        by (symmetry; apply Nat.eqb_neq; lia).
      simpl. f_equal.
      replace (b + S idx)%nat with (S b + idx)%nat by lia.
      apply IH.
Qed.

Lemma removed_nth {A : Type} (l : list A) :
  forall idx j,
    nth_error (firstn idx l ++ skipn (S idx) l) j
    = nth_error l (if (j <? idx)%nat then j else S j).
Proof.
  induction l as [|a rest IH]; intros idx j.
  - rewrite firstn_nil, skipn_nil. simpl.
    rewrite !nth_error_nil. reflexivity.
  - destruct idx as [|idx]; [reflexivity|].
    destruct j as [|j]; [reflexivity|].
    simpl. rewrite IH.
    change (S j <? S idx)%nat with (j <? idx)%nat.
    destruct (j <? idx)%nat; reflexivity.
Qed.

(** X23: deleting the icon of index [idx] from the list of the selected
    container removes that entry and keeps the others in order; the icon
    editor, when it was open on another icon, stays on that same icon
    (its index is lowered by one when the deleted icon came before it),
    and is closed when it was open on the deleted one. *)
Theorem icon_delete_keeps_editor_on_icon el idx st sel :
  ElementList.selectedIconIdx st = Some sel ->
  let r := ElementList.iconDeleteClick el idx st in
  exists newIcons,
    snd r = [ElementList.UpdateIcons (id el) newIcons]
    /\ (forall j, nth_error newIcons j
                  = nth_error (icons el) (if (j <? idx)%nat then j else S j))
    /\ ((idx < length (icons el))%nat ->
        S (length newIcons) = length (icons el))
    /\ (sel = idx -> ElementList.selectedIconIdx (fst r) = None)
    /\ (sel <> idx ->
        exists sel',
          ElementList.selectedIconIdx (fst r) = Some sel'
          /\ nth_error newIcons sel' = nth_error (icons el) sel).
Proof.
  intros Hsel r. subst r. unfold ElementList.iconDeleteClick. cbv zeta.
  cbn [fst snd ElementList.selectedIconIdx]. rewrite Hsel.
  pose proof (filterIndex_removes (icons el) 0 idx) as E.
  cbn [Nat.add] in E. rewrite E.
  eexists. split; [reflexivity|].
  assert (Hnth : forall j,
             nth_error (firstn idx (icons el) ++ skipn (S idx) (icons el)) j
             = nth_error (icons el) (if (j <? idx)%nat then j else S j))
    by (apply removed_nth).
  repeat apply conj.
  - exact Hnth.
  - intro Hidx. rewrite length_app, length_firstn, length_skipn. lia.
  - intros ->. rewrite Nat.eqb_refl. reflexivity.
  - intro Hne.
    replace (Nat.eqb sel idx) with false
      by (symmetry; apply Nat.eqb_neq; exact Hne).
    destruct (idx <? sel)%nat eqn:Elt.
    + apply Nat.ltb_lt in Elt. exists (sel - 1)%nat.
      split; [reflexivity|]. rewrite Hnth.
      replace (sel - 1 <? idx)%nat with false
        by (symmetry; apply Nat.ltb_ge; lia).
      f_equal. lia.
    + apply Nat.ltb_ge in Elt. exists sel.
      split; [reflexivity|]. rewrite Hnth.
      replace (sel <? idx)%nat with true
        by (symmetry; apply Nat.ltb_lt; lia).
      reflexivity.
Qed.

(** The first icon is deleted while the editor is open on the third. *)
Lemma icon_delete_first_of_three :
  exists newIcons sel',
    snd (ElementList.iconDeleteClick iconBar 0 editingThird)
    = [ElementList.UpdateIcons "t" newIcons]
    /\ ElementList.selectedIconIdx
         (fst (ElementList.iconDeleteClick iconBar 0 editingThird))
       = Some sel'
    /\ nth_error newIcons sel' = Some (mkIcon "i2" 50 10).
Proof.
  destruct (icon_delete_keeps_editor_on_icon iconBar 0 editingThird 2
              eq_refl)
    as (newIcons & Hcall & _ & _ & _ & Hother).
  destruct Hother as (sel' & Hsel' & Hicon); [discriminate|].
  exists newIcons, sel'. repeat apply conj; assumption.
Defined.

Lemma setOf_In l a : In a (ElementList.setOf l) <-> In a l.
Proof.
  induction l as [|b rest IH]; simpl; [reflexivity|].
  rewrite filter_In, IH, negb_true_iff, String.eqb_neq.
  destruct (string_dec b a) as [->|Hne].
  - split; intros _; left; reflexivity.
  - split; intros [H|H]; try contradiction.
    + right. apply H.
    + right. split; [exact H|congruence].
Qed.

Lemma setOf_NoDup l : NoDup (ElementList.setOf l).
Proof.
  induction l as [|b rest IH]; simpl; constructor.
  - rewrite filter_In, negb_true_iff, String.eqb_neq.
    intros [_ H]. congruence.
  - apply NoDup_filter. exact IH.
Qed.

Lemma findIndex_sound {A : Type} (f : A -> bool) (l : list A) :
  forall k, ElementList.findIndex f l = Some k ->
            exists a, nth_error l k = Some a /\ f a = true.
Proof.
  induction l as [|a rest IH]; intros k H; simpl in H; [discriminate|].
  destruct (f a) eqn:E.
  - injection H as <-. exists a. split; [reflexivity|exact E].
  - destruct (ElementList.findIndex f rest) as [j|]; [|discriminate].
    injection H as <-. apply IH. reflexivity.
Qed.

Lemma slice_run {A : Type} (l : list A) lo hi x :
  (lo <= hi)%nat -> (hi < length l)%nat ->
  In x (Arr.slice l (Z.of_nat lo) (Z.of_nat hi + 1))
  <-> exists k, (lo <= k <= hi)%nat /\ nth_error l k = Some x.
Proof.
  intros Hlo Hhi. unfold Arr.slice.
  replace (Z.of_nat lo <? 0)%Z with false by (symmetry; apply Z.ltb_ge; lia).
  replace (Z.of_nat hi + 1 <? 0)%Z with false
    by (symmetry; apply Z.ltb_ge; lia).
  rewrite !Z.min_l by lia.
  replace (Z.to_nat (Z.of_nat hi + 1 - Z.of_nat lo)) with (hi + 1 - lo)%nat
    by lia.
  rewrite Nat2Z.id. split.
  - intro Hin. apply In_nth_error in Hin. destruct Hin as (j & Hj).
    rewrite nth_error_firstn in Hj.
    destruct (j <? hi + 1 - lo)%nat eqn:E; [|discriminate].
    apply Nat.ltb_lt in E. rewrite nth_error_skipn in Hj.
    exists (lo + j)%nat. split; [lia|exact Hj].
  - intros (k & Hk & Hx). apply (nth_error_In _ (k - lo)).
    rewrite nth_error_firstn.
    replace (k - lo <? hi + 1 - lo)%nat with true
      by (symmetry; apply Nat.ltb_lt; lia).
    rewrite nth_error_skipn. replace (lo + (k - lo))%nat with k by lia.
    exact Hx.
Qed.

(** X24: a shift-click in the element list, with a selected element and
    a clicked element that are both in the list, calls nothing on the
    owner and multi-selects, without repeats, exactly the ids of the
    elements from the one to the other in list order, both included; it
    does not matter which of the two was the selection and which the
    click. *)
Theorem shift_click_selects_run clicked els sel st a b :
  truthy (Some sel) = true ->
  ElementList.findIndex (fun el => String.eqb (id el) sel) els = Some a ->
  ElementList.findIndex (fun el => String.eqb (id el) clicked) els = Some b ->
  let r := ElementList.handleItemClick true clicked els (Some sel) st in
  snd r = []
  /\ ElementList.selectedIconIdx (fst r) = ElementList.selectedIconIdx st
  /\ (forall i,
        In i (ElementList.multiSelected (fst r))
        <-> exists k el,
              (Nat.min a b <= k <= Nat.max a b)%nat
              /\ nth_error els k = Some el /\ id el = i)
  /\ In sel (ElementList.multiSelected (fst r))
  /\ In clicked (ElementList.multiSelected (fst r))
  /\ NoDup (ElementList.multiSelected (fst r))
  /\ (truthy (Some clicked) = true ->
      ElementList.multiSelected
        (fst (ElementList.handleItemClick true sel els (Some clicked) st))
      = ElementList.multiSelected (fst r)).
Proof.
  intros Htruthy Ha Hb r. subst r.
  destruct (findIndex_sound _ _ _ Ha) as (ea & Hea & Eida).
  destruct (findIndex_sound _ _ _ Hb) as (eb & Heb & Eidb).
  apply String.eqb_eq in Eida, Eidb.
  assert (Halen : (a < length els)%nat)
    by (apply nth_error_Some; rewrite Hea; discriminate).
  assert (Hblen : (b < length els)%nat)
    by (apply nth_error_Some; rewrite Heb; discriminate).
  unfold ElementList.handleItemClick.
  rewrite Htruthy, Ha, Hb. cbv zeta.
  cbn [andb fst snd ElementList.multiSelected ElementList.selectedIconIdx].
  assert (Hrun : forall i,
    In i (ElementList.setOf
            (map id (Arr.slice els (Z.of_nat (Nat.min a b))
                               (Z.of_nat (Nat.max a b) + 1))))
    <-> exists k el,
          (Nat.min a b <= k <= Nat.max a b)%nat
          /\ nth_error els k = Some el /\ id el = i).
  { intro i. rewrite setOf_In, in_map_iff. split.
    - intros (el & Hid & Hin).
      apply slice_run in Hin; [|lia|lia].
      destruct Hin as (k & Hk & Hel). exists k, el. auto.
    - intros (k & el & Hk & Hel & Hid). exists el. split; [exact Hid|].
      apply slice_run; [lia|lia|]. exists k. auto. }
  repeat apply conj.
  - reflexivity.
  - reflexivity.
  - exact Hrun.
  - apply Hrun. exists a, ea. repeat apply conj; try assumption; lia.
  - apply Hrun. exists b, eb. repeat apply conj; try assumption; lia.
  - apply setOf_NoDup.
  - intro Htruthy'. rewrite Htruthy'.
    cbn [andb fst ElementList.multiSelected].
    rewrite (Nat.min_comm b a), (Nat.max_comm b a). reflexivity.
Qed.

(** A shift-click on the first button with the third selected. *)
Lemma shift_click_from_third_to_first :
  truthy (Some "c"%string) = true
  /\ snd (ElementList.handleItemClick true "a"
            (Annotation.elements threeButtons) (Some "c"%string) twoChosen)
     = []
  /\ In "b"%string
        (ElementList.multiSelected
           (fst (ElementList.handleItemClick true "a"
                   (Annotation.elements threeButtons) (Some "c"%string)
                   twoChosen))).
Proof.
  split; [reflexivity|].
  destruct (shift_click_selects_run "a" (Annotation.elements threeButtons)
              "c" twoChosen 2 0 eq_refl eq_refl eq_refl)
    as (Hcalls & _ & Hrun & _).
  split; [exact Hcalls|].
  apply Hrun. exists 1%nat, (box "b" (mkBBox 60 0 50 50)).
  repeat apply conj; try reflexivity; simpl; lia.
Defined.

(** ** A drawn element reaches the annotation state *)

(** X25: when a draw of at least 10 units on one axis is released in
    single draw mode, the callbacks of the canvas, run by the annotation
    state whose elements the canvas was given, amount to [addElement] of
    the new element followed by its selection: the element is appended
    with the id [el_] + time, the current type and the drawn rectangle,
    and a type with an automatic click task gets that task. *)
Theorem drawn_element_is_added env p st ev r s :
  releasing p st -> currentRect st = Some r ->
  10 <= width r \/ 10 <= height r ->
  drawMode p = single -> hasOnElementCreated p = true ->
  elements p = Annotation.elements s ->
  let el :=
    mkElement ("el_" ++ decimal (now env)) (currentType p) r None None None
              None None None [] None None None in
  exists st' ns s',
    handleMouseUp env p st ev = Some (st', ns)
    /\ allToAnnotation ns s = Some s'
    /\ s' = Annotation.selectElement (Some (id el)) (Annotation.addElement el s)
    /\ Annotation.elements s' = Annotation.elements s ++ [el]
    /\ (Annotation.includes Annotation.AUTO_CLICK_TYPES (currentType p) = true ->
        Annotation.tasks s'
        = Annotation.tasks s ++ [Annotation.generateClickTask el]).
Proof.
  intros Hrel Hrect Hbig Hmode Hcb Hels el.
  rewrite (handleMouseUp_creates env p st ev r Hrel Hrect Hbig).
  unfold created. rewrite Hmode, Hcb, Hels. cbv zeta. fold el.
  do 3 eexists. split; [reflexivity|].
  cbn [allToAnnotation toAnnotation bind app].
  split; [reflexivity|].
  destruct s as [els sel tks selT].
  unfold Annotation.addElement, Annotation.autoGenerateTasks,
    Annotation.selectElement, Annotation.setElements.
  cbn [Annotation.elements Annotation.tasks Annotation.selectedElementId
       Annotation.selectedTaskId].
  change (type el) with (currentType p).
  destruct (Annotation.includes Annotation.AUTO_CLICK_TYPES (currentType p));
    repeat apply conj; try reflexivity; intro; try discriminate; reflexivity.
Qed.

(** A button drawn on the blank image. *)
Lemma drawn_button_gets_click_task :
  exists st' ns s',
    handleMouseUp clock blank drawnButton (pointer 220 140) = Some (st', ns)
    /\ allToAnnotation ns Annotation.initial = Some s'
    /\ map Task.id (Annotation.tasks s') = ["el_42_click_"%string]
    /\ Annotation.selectedElementId s' = Some "el_42"%string.
Proof.
  destruct (drawn_element_is_added clock blank drawnButton (pointer 220 140)
              (mkBBox 100 100 120 40) Annotation.initial)
    as (st' & ns & s' & Hup & Hall & Hs' & _ & Htasks).
  - repeat apply conj; reflexivity.
  - reflexivity.
  - left. discriminate.
  - reflexivity.
  - reflexivity.
  - reflexivity.
  - exists st', ns, s'. repeat apply conj; try assumption.
    + rewrite Htasks by reflexivity. reflexivity.
    + rewrite Hs'. reflexivity.
Defined.

(** ** Export *)

Lemma eqv_of_nth (l1 l2 : list Q) :
  length l1 = length l2 ->
  (forall c v1 v2, nth_error l1 c = Some v1 -> nth_error l2 c = Some v2 ->
                   v1 == v2) ->
  Arr.eqv l1 l2.
Proof.
  revert l2. induction l1 as [|a r1 IH]; intros [|b r2] Hlen H;
    simpl in Hlen; try discriminate; constructor.
  - apply (H 0%nat); reflexivity.
  - apply IH; [lia|]. intros c v1 v2 H1 H2. apply (H (S c)); assumption.
Qed.

Lemma bounds_uniform_explicit origin span k :
  (1 <= k)%nat ->
  Arr.eqv ([origin] ++ positions origin span k
                         (Some (Arr.fill k (1 / Num.ofNat k)))
                    ++ [origin + span])
          ([origin] ++ positions origin span k None ++ [origin + span]).
Proof.
  intro Hk.
  assert (Hfill : length (Arr.fill k (1 / Num.ofNat k)) = k)
    by apply repeat_length.
  apply eqv_of_nth.
  - rewrite !bounds_length by exact Hk. reflexivity.
  - intros c v1 v2 H1 H2.
    assert (Hc : (c <= k)%nat).
    { assert (c < k + 1)%nat; [|lia].
      rewrite <- (bounds_length origin span k None Hk).
      apply nth_error_Some. rewrite H2. discriminate. }
    destruct (bounds_nth origin span k
                (Some (Arr.fill k (1 / Num.ofNat k))) c Hk Hc)
      as (w1 & Hw1 & E1).
    { intros l E _. injection E as <-. apply sum_uniform. exact Hk. }
    destruct (bounds_nth origin span k None c Hk Hc) as (w2 & Hw2 & E2).
    { intros l E. discriminate. }
    rewrite H1 in Hw1. rewrite H2 in Hw2.
    injection Hw1 as <-. injection Hw2 as <-.
    rewrite E1, E2, (fractionsOr_explicit _ k Hfill). reflexivity.
Qed.

Lemma close_of_eqv l1 l2 : Arr.eqv l1 l2 -> Forall2 close l1 l2.
Proof.
  induction 1 as [|a b la lb Hab Hrest IH]; constructor;
    [apply close_of_eq; exact Hab|exact IH].
Qed.

(** X26: the export step leaves the element as it is but for the
    fractions of an axis with more than one cell and none stored, which
    become the uniform ones; the bounds [getGridPositions] gives for the
    exported element are as many as those of the original and agree with
    them, position by position, within a millionth (exactly so in exact
    arithmetic; the code's doubles differ in the last digits), with the
    same first and last bound; the tolerance attached is
    [calculateTolerance] of the original. *)
Theorem export_keeps_grid_bounds factor el a :
  let ex := addTolerance factor el in
  bbox (exported ex) = bbox el
  /\ countOn a (exported ex) = countOn a el
  /\ length (boundsOn a (exported ex)) = length (boundsOn a el)
  /\ Forall2 close (boundsOn a (exported ex)) (boundsOn a el)
  /\ nth_error (boundsOn a (exported ex)) 0 = nth_error (boundsOn a el) 0
  /\ nth_error (boundsOn a (exported ex)) (countOn a el)
     = nth_error (boundsOn a el) (countOn a el)
  /\ (fractionsOn a el = None -> (1 < countOn a el)%nat ->
      fractionsOn a (exported ex)
      = Some (Arr.fill (countOn a el) (1 / Num.ofNat (countOn a el))))
  /\ (forall l, fractionsOn a el = Some l ->
                fractionsOn a (exported ex) = Some l)
  /\ (toleranceX ex, toleranceY ex) = calculateTolerance el factor.
Proof.
  intro ex. subst ex.
  assert (Hb : forall fr k origin span,
            (1 <= k)%nat ->
            Arr.eqv
              ([origin]
                 ++ positions origin span k
                      match fr with
                      | Some ws => Some ws
                      | None =>
                          if (1 <? k)%nat
                          then Some (Arr.fill k (1 / Num.ofNat k))
                          else None
                      end
                 ++ [origin + span])
              ([origin] ++ positions origin span k fr ++ [origin + span])).
  { intros fr k origin span Hk. destruct fr as [ws|]; [apply eqv_refl|].
    destruct (1 <? k)%nat; [|apply eqv_refl].
    apply bounds_uniform_explicit. exact Hk. }
  assert (Heqv : Arr.eqv (boundsOn a (exported (addTolerance factor el)))
                         (boundsOn a el)).
  { destruct a; unfold addTolerance; cbv zeta;
      cbn [exported boundsOn getGridPositions rowBounds colBounds
           withRowHeights withColWidths bbox rows cols rowHeights colWidths];
      apply Hb, orOne_pos. }
  assert (Hlast : forall origin span k fr1 fr2,
            nth_error ([origin] ++ positions origin span k fr1
                                ++ [origin + span]) k
            = nth_error ([origin] ++ positions origin span k fr2
                                  ++ [origin + span]) k).
  { intros origin span k fr1 fr2. destruct k as [|k]; [reflexivity|].
    cbn [app nth_error].
    rewrite !nth_error_app2 by (rewrite positions_length; lia).
    rewrite !positions_length. reflexivity. }
  split; [reflexivity|].
  split; [destruct a; reflexivity|].
  split; [apply (eqv_length _ _ Heqv)|].
  split; [apply close_of_eqv, Heqv|].
  split; [destruct a; reflexivity|].
  split.
  { destruct a; unfold addTolerance; cbv zeta;
      cbn [exported boundsOn getGridPositions rowBounds colBounds
           withRowHeights withColWidths bbox rows cols rowHeights colWidths
           countOn];
      apply Hlast. }
  split.
  { intros Hnone Hmany.
    destruct a; unfold addTolerance; cbv zeta;
      cbn [exported fractionsOn withRowHeights withColWidths rowHeights
           colWidths countOn] in *;
      rewrite Hnone;
      (replace (1 <? _)%nat with true
         by (symmetry; apply Nat.ltb_lt; exact Hmany));
      reflexivity. }
  split.
  { intros l Hl.
    destruct a; unfold addTolerance; cbv zeta;
      cbn [exported fractionsOn withRowHeights withColWidths rowHeights
           colWidths] in *;
      rewrite Hl; reflexivity. }
  unfold addTolerance. cbv zeta. cbn [toleranceX toleranceY].
  symmetry. apply surjective_pairing.
Qed.

(** The plain grid of three columns gets three thirds and keeps its
    bounds. *)
Lemma export_of_plain_grid :
  colWidths (exported (addTolerance DEFAULT_TOLERANCE_SCALE plainGrid))
  = Some (Arr.fill 3 (1 / Num.ofNat 3))
  /\ Forall2 close
       (boundsOn col (exported (addTolerance DEFAULT_TOLERANCE_SCALE plainGrid)))
       (boundsOn col plainGrid).
Proof.
  pose proof (export_keeps_grid_bounds DEFAULT_TOLERANCE_SCALE plainGrid col)
    as (_ & _ & _ & Hbounds & _ & _ & Hfill & _).
  split; [|exact Hbounds].
  apply Hfill; [reflexivity|]. simpl. lia.
Defined.
